(** * ipcam26Xconvert: the packet scanner, the inference pass and the
      extraction pass of [main], with the growable buffer [ReadToBuffer],
      [EndsWith] and the generated name of the output file.

    The C program is embedded shallowly.  Data model (LP64, little-endian,
    GCC bit-field layout, as on the Linux x86-64 hosts the tool is built for):
    - [uint8_t] is a [Z] in [0,256); [uint32_t] a [Z] in [0,2^32) with the
      wrap-around written out; [int] a [Z] in [-2^31,2^31); [long] and
      [size_t] are 64 bits wide and are plain [Z] (no value of the program
      comes near their limits);
    - a finite [double] is the rational it stands for.  The timestamps
      handed to the muxer are computed as the program computes them, each
      operation rounded to the nearest double ([binary64]).  The two running
      means of the first pass are exact rationals, where the program rounds
      each update to a double;
    - a [FILE*] opened for reading is the file's bytes, a position and the
      end-of-file indicator;
    - heap blocks hold [memval] cells, fresh ones are indeterminate;
    - a [char] array is a list of [ascii], the string it holds ends at its
      first null character;
    - the container library is a trace of the calls made to it, all of which
      succeed, as do [malloc] and [realloc]: the exits of [main] on a failed
      call or allocation are not part of the model; [exit(1)] is an [Abort]
      carrying the diagnostic printed. *)

From Stdlib Require Import ZArith QArith Qround List Bool Lia.
From Stdlib Require Import Ascii.
Import ListNotations.
Local Open Scope Z_scope.

(** ** Machine integers *)

Definition to_uint32 (z : Z) : Z := z mod 2 ^ 32.

(** Conversion to [int] (wraps, as GCC defines it). *)
Definition to_int (z : Z) : Z :=
  let m := z mod 2 ^ 32 in
  if m <? 2 ^ 31 then m else m - 2 ^ 32.

Definition INT_MAX : Z := 2 ^ 31 - 1.

(** A little-endian [uint32_t] as [fread] stores it. *)
Definition le32 (l : list Z) : Z :=
  match l with
  | [b0; b1; b2; b3] => b0 + 2 ^ 8 * b1 + 2 ^ 16 * b2 + 2 ^ 24 * b3
  | _ => 0
  end.

Definition enc32 (v : Z) : list Z :=
  [v mod 256; (v / 2 ^ 8) mod 256; (v / 2 ^ 16) mod 256; (v / 2 ^ 24) mod 256].

(** ** Lists indexed by [Z] *)

Fixpoint dropZ {A : Type} (n : Z) (l : list A) : list A :=
  match l with
  | [] => []
  | x :: t => if n <=? 0 then l else dropZ (n - 1) t
  end.

Fixpoint takeZ {A : Type} (n : Z) (l : list A) : list A :=
  match l with
  | [] => []
  | x :: t => if n <=? 0 then [] else x :: takeZ (n - 1) t
  end.

Definition lengthZ {A : Type} (l : list A) : Z := Z.of_nat (length l).

(** ** ipcamvideofilefmt.h *)

Definition HXVS : Z := 1398167624.
Definition HXVT : Z := 1414944840.
Definition HXVF : Z := 1180063816.
Definition HXAF : Z := 1178687560.
Definition HXFI : Z := 1229346888.

Definition sizeof_header : Z := 4.
Definition sizeof_HXVSFrame_t : Z := 12.
Definition sizeof_HXVTFrame_t : Z := 12.
Definition sizeof_HXVFFrame_t : Z := 12.
Definition sizeof_HXAFFrame_t : Z := 16.
Definition sizeof_HXFIFrame_t : Z := 16.

(** Fields of the union [hx_frame.data], read from the bytes [fread] put
    there. *)
Definition field32 (d : list Z) (off : Z) : Z := le32 (takeZ 4 (dropZ off d)).

Definition hxvs_width (d : list Z) : Z := field32 d 0.
Definition hxvs_height (d : list Z) : Z := field32 d 4.
Definition hxvf_length (d : list Z) : Z := field32 d 0.
Definition hxvf_timestamp (d : list Z) : Z := field32 d 4.
Definition hxaf_length (d : list Z) : Z := field32 d 0.
Definition hxaf_timestamp (d : list Z) : Z := field32 d 4.

(** ** stdio *)

Record FILE : Type := mkFILE {
  f_data : list Z;
  f_pos : Z;
  f_eof : bool
}.

Definition fopen (data : list Z) : FILE :=
  {| f_data := data; f_pos := 0; f_eof := false |}.

(** [fread(buf, 1, n, fp)]: the bytes obtained (their number is the value
    returned); the end-of-file indicator is set when fewer than [n] are
    left. *)
Definition fread (n : Z) (fp : FILE) : list Z * FILE :=
  let got := takeZ n (dropZ (f_pos fp) (f_data fp)) in
  (got,
   {| f_data := f_data fp;
      f_pos := f_pos fp + lengthZ got;
      f_eof := f_eof fp || (lengthZ got <? n) |}).

(** [fseek(fp, off, SEEK_CUR)]: [None] when it returns a negative value.
    Seeking past the end of a regular file succeeds; the end-of-file
    indicator is cleared. *)
Definition fseek_cur (off : Z) (fp : FILE) : option FILE :=
  if f_pos fp + off <? 0 then None
  else Some {| f_data := f_data fp; f_pos := f_pos fp + off; f_eof := false |}.

(** [fseek(fp, 0, SEEK_SET)]. *)
Definition rewind (fp : FILE) : option FILE :=
  Some {| f_data := f_data fp; f_pos := 0; f_eof := false |}.

Definition feof (fp : FILE) : bool := f_eof fp.

(** ** Diagnostics and outcomes *)

Inductive diagnostic : Type :=
| Premature_end_of_file
| Seek_error
| Cannot_seek_back
| No_video_detected.

(** What a piece of [main] does to a state: carry on, [exit(1)] after a
    diagnostic, behaviour the C standard leaves undefined, or (for the loops
    of the model only) fuel exhausted. *)
Inductive outcome (S : Type) : Type :=
| Next (s : S)
| Abort (d : diagnostic) (s : S)
| Undefined (s : S)
| OutOfFuel.

Arguments Next {S} s.
Arguments Abort {S} d s.
Arguments Undefined {S} s.
Arguments OutOfFuel {S}.

(** ** First pass: frame rate, sample rate and video size *)

(** The four variables kept per stream type:
    [video_ts_initial], [video_ts_prev], [video_avg_frame_rate],
    [video_packets_count] and their [audio_] counterparts. *)
Record estimate : Type := mkEstimate {
  ts_initial : Z;
  ts_prev : Z;
  avg_rate : Q;
  packets_count : Z
}.

Definition estimate_init : estimate :=
  {| ts_initial := -1; ts_prev := -1; avg_rate := 0%Q; packets_count := 0 |}.

(** The body of [if (video_ts_initial == -1) ... else ...], which the source
    has once for video with the sample [1000.0f / elapsed] and once for audio
    with the sample [(length - 4) / elapsed]; [sample] is the numerator.
    The mean is the exact rational; the program holds it in a [double] and
    rounds each operation. *)
Definition update_estimate (sample : Z) (timestamp_raw : Z) (e : estimate)
  : estimate :=
  if ts_initial e =? -1 then
    {| ts_initial := timestamp_raw; ts_prev := timestamp_raw;
       avg_rate := avg_rate e; packets_count := packets_count e |}
  else
    let timestamp := timestamp_raw - ts_initial e in
    if ts_prev e <? timestamp then
      let elapsed := timestamp - ts_prev e in
      let inst := (inject_Z sample / inject_Z elapsed)%Q in
      {| ts_initial := ts_initial e;
         ts_prev := timestamp;
         avg_rate :=
           if packets_count e =? 0 then inst
           else ((avg_rate e * inject_Z (packets_count e) + inst)
                 / (inject_Z (packets_count e) + 1))%Q;
         packets_count := packets_count e + 1 |}
    else
      {| ts_initial := ts_initial e; ts_prev := timestamp;
         avg_rate := avg_rate e; packets_count := packets_count e |}.

(** [video_w] and [video_h] are not initialised: [None] until a size
    descriptor has been read.  [unknown_headers] are the tags reported by
    "Unknown audio_frame header". *)
Record infer_state : Type := mkInfer {
  in_file : FILE;
  hxfi_detected : bool;
  video_w : option Z;
  video_h : option Z;
  video : estimate;
  audio : estimate;
  unknown_headers : list Z
}.

Definition video_avg_frame_rate (st : infer_state) : Q := avg_rate (video st).
Definition audio_avg_sample_rate (st : infer_state) : Q := avg_rate (audio st).
Definition video_ts_initial (st : infer_state) : Z := ts_initial (video st).
Definition audio_ts_initial (st : infer_state) : Z := ts_initial (audio st).
Definition video_packets_count (st : infer_state) : Z := packets_count (video st).
Definition audio_packets_count (st : infer_state) : Z := packets_count (audio st).

Definition infer_init (fp : FILE) : infer_state :=
  {| in_file := fp; hxfi_detected := false; video_w := None; video_h := None;
     video := estimate_init; audio := estimate_init; unknown_headers := [] |}.

Definition with_file (st : infer_state) (fp : FILE) : infer_state :=
  {| in_file := fp; hxfi_detected := hxfi_detected st;
     video_w := video_w st; video_h := video_h st;
     video := video st; audio := audio st;
     unknown_headers := unknown_headers st |}.

(** Size of the sample data of an audio packet: [hx_frame.data.hxaf.length - 4]
    in [uint32_t] arithmetic. *)
Definition hxaf_payload_size (length : Z) : Z := to_uint32 (length - 4).

(** One iteration of the first [do ... while] of [main]. *)
Definition infer_body (st : infer_state) : outcome infer_state :=
  let '(hdr, f1) := fread sizeof_header (in_file st) in
  if negb (lengthZ hdr =? sizeof_header) then
    Abort Premature_end_of_file (with_file st f1)
  else
    let header := le32 hdr in
    if header =? HXVS then
      let '(d, f2) := fread sizeof_HXVSFrame_t f1 in
      if negb (lengthZ d =? sizeof_HXVSFrame_t) then
        Abort Premature_end_of_file (with_file st f2)
      else
        Next {| in_file := f2; hxfi_detected := hxfi_detected st;
                video_w := Some (to_int (hxvs_width d));
                video_h := Some (to_int (hxvs_height d));
                video := video st; audio := audio st;
                unknown_headers := unknown_headers st |}
    else if header =? HXVF then
      let '(d, f2) := fread sizeof_HXVFFrame_t f1 in
      if negb (lengthZ d =? sizeof_HXVFFrame_t) then
        Abort Premature_end_of_file (with_file st f2)
      else
        let st' :=
          {| in_file := f2; hxfi_detected := hxfi_detected st;
             video_w := video_w st; video_h := video_h st;
             video := update_estimate 1000 (hxvf_timestamp d) (video st);
             audio := audio st;
             unknown_headers := unknown_headers st |} in
        match fseek_cur (hxvf_length d) f2 with
        | None => Abort Premature_end_of_file st'
        | Some f3 => Next (with_file st' f3)
        end
    else if header =? HXAF then
      let '(d, f2) := fread sizeof_HXAFFrame_t f1 in
      if negb (lengthZ d =? sizeof_HXAFFrame_t) then
        Abort Premature_end_of_file (with_file st f2)
      else
        let st' :=
          {| in_file := f2; hxfi_detected := hxfi_detected st;
             video_w := video_w st; video_h := video_h st;
             video := video st;
             audio := update_estimate (hxaf_payload_size (hxaf_length d))
                        (hxaf_timestamp d) (audio st);
             unknown_headers := unknown_headers st |} in
        match fseek_cur (hxaf_payload_size (hxaf_length d)) f2 with
        | None => Abort Premature_end_of_file st'
        | Some f3 => Next (with_file st' f3)
        end
    else if header =? HXFI then
      Next {| in_file := f1; hxfi_detected := true;
              video_w := video_w st; video_h := video_h st;
              video := video st; audio := audio st;
              unknown_headers := unknown_headers st |}
    else
      Next {| in_file := f1; hxfi_detected := hxfi_detected st;
              video_w := video_w st; video_h := video_h st;
              video := video st; audio := audio st;
              unknown_headers := unknown_headers st ++ [header] |}.

(** [do { body } while ((!feof(in_file)) && (!hxfi_detected));] *)
Fixpoint infer_loop (fuel : nat) (st : infer_state) : outcome infer_state :=
  match fuel with
  | O => OutOfFuel
  | S fuel' =>
      match infer_body st with
      | Next st' =>
          if negb (feof (in_file st')) && negb (hxfi_detected st')
          then infer_loop fuel' st'
          else Next st'
      | r => r
      end
  end.

(** Every iteration that carries on has read a tag of four bytes, so one more
    iteration than the file has bytes is enough. *)
Definition enough_fuel (fp : FILE) : nat := S (length (f_data fp)).

(** The first pass with what follows it up to "No video detected". *)
Definition inference_pass (fp : FILE) : outcome infer_state :=
  match infer_loop (enough_fuel fp) (infer_init fp) with
  | Next st =>
      match rewind (in_file st) with
      | None => Abort Cannot_seek_back st
      | Some f0 =>
          let st0 := with_file st f0 in
          if Qle_bool (video_avg_frame_rate st0) 0
          then Abort No_video_detected st0
          else Next st0
      end
  | r => r
  end.

(** ** Heap blocks *)

Inductive memval : Type :=
| Undef
| Byte (b : Z).

(** A block of [alloc] bytes.  [cells] lists its cells from index 0; the
    cells beyond the end of the list are indeterminate. *)
Record block : Type := mkBlock {
  alloc : Z;
  cells : list memval
}.

Definition get_cells (n : nat) (l : list memval) : list memval :=
  firstn n l ++ repeat Undef (n - length l).

Definition malloc (size : Z) : block := {| alloc := size; cells := [] |}.

(** [realloc] keeps the cells up to the smaller of the two sizes. *)
Definition realloc (b : block) (size : Z) : block :=
  {| alloc := size; cells := firstn (Z.to_nat size) (cells b) |}.

(** What [fread(ptr + off, 1, n, fp)] leaves in the block after it obtained
    [bytes]. *)
Definition store (b : block) (off : Z) (bytes : list Z) : block :=
  {| alloc := alloc b;
     cells := get_cells (Z.to_nat off) (cells b) ++ map Byte bytes
              ++ skipn (Z.to_nat off + length bytes) (cells b) |}.

(** [ptr[i]] for a [uint8_t *ptr]; [None] where the access is not defined
    (null pointer, outside the block, indeterminate cell). *)
Definition load_byte (ptr : option block) (i : Z) : option Z :=
  match ptr with
  | None => None
  | Some b =>
      if (i <? 0) || (alloc b <=? i) then None
      else match nth (Z.to_nat i) (cells b) Undef with
           | Byte v => Some v
           | Undef => None
           end
  end.

(** The [size] bytes at [ptr] that a packet hands to the muxer; [None] where
    they are not all inside the block. *)
Definition load_bytes (ptr : option block) (size : Z) : option (list memval) :=
  if size =? 0 then Some []
  else match ptr with
       | None => None
       | Some b =>
           if (size <? 0) || (alloc b <? size) then None
           else Some (get_cells (Z.to_nat size) (cells b))
       end.

(** ** ReadToBuffer *)

(** Returns the value of [fread], the file, [*dest] and [*dest_size].
    [malloc] and [realloc] succeed. *)
Definition ReadToBuffer (fp_src : FILE) (dest : option block)
    (dest_offset length dest_size : Z) : Z * FILE * option block * Z :=
  if length =? 0 then (0, fp_src, dest, dest_size)
  else
    (* Resize the buffer if needed *)
    let dest1 :=
      match dest with
      | Some b =>
          if dest_size <? length + dest_offset then
            if negb (dest_offset =? 0)
            then Some (realloc b (length + dest_offset))
            else None
          else Some b
      | None => None
      end in
    (* Allocate the buffer if needed *)
    let b2 :=
      match dest1 with
      | None => malloc (length + dest_offset)
      | Some b => b
      end in
    let '(got, fp') := fread length fp_src in
    (lengthZ got, fp', Some (store b2 dest_offset got), length + dest_offset).

(** ** The container library, as the calls [main] makes to it *)

Inductive stream : Type :=
| v_stream
| a_stream.

Inductive call : Type :=
| avformat_new_stream_video (width height : option Z) (framerate : Z)
| avformat_new_stream_audio (sample_rate : Z)
| avformat_write_header
| av_interleaved_write_frame (stream_index : stream) (data : list memval)
    (pts : Z)
| av_write_trailer.

(** C's [round]: to the nearest integer, halves away from zero. *)
Definition c_round (q : Q) : Z :=
  if Qle_bool 0 q then Qfloor (q + (1 # 2)) else - Qfloor (- q + (1 # 2)).

(** *** Double arithmetic

    Every operation on doubles gives the double nearest to the exact result,
    the one with the even significand when two are as near (IEEE 754
    binary64, the default rounding).  The exponent is left unbounded: the
    quotients and products below stay within the normal doubles. *)

(** The integer nearest to [n / d], the even one of the two when it is half
    way, for [0 <= n] and [0 < d]. *)
Definition nearest_even (n d : Z) : Z :=
  let q := n / d in
  match 2 * (n mod d) ?= d with
  | Lt => q
  | Gt => q + 1
  | Eq => if Z.even q then q else q + 1
  end.

(** The integer part of the binary logarithm of [n / d], for [0 < n] and
    [0 < d]. *)
Definition ilog2 (n d : Z) : Z :=
  let e := Z.log2 n - Z.log2 d in
  if (if 0 <=? e then d * 2 ^ e <=? n else d <=? n * 2 ^ (- e))
  then e else e - 1.

(** The double nearest to [n / d]: a significand of 53 bits. *)
Definition binary64_pos (n d : Z) : Q :=
  let k := ilog2 n d - 52 in
  if 0 <=? k then inject_Z (nearest_even n (d * 2 ^ k) * 2 ^ k)
  else Qred (Qmake (nearest_even (n * 2 ^ (- k)) d) (Z.to_pos (2 ^ (- k)))).

Definition binary64 (q : Q) : Q :=
  let r := Qred q in
  match Qnum r with
  | Z0 => 0
  | Zpos n => binary64_pos (Zpos n) (Zpos (Qden r))
  | Zneg n => - binary64_pos (Zpos n) (Zpos (Qden r))
  end.

(** [(double) z] for an integer [z]. *)
Definition double_of_Z (z : Z) : Q := binary64 (inject_Z z).

(** [av_q2d(a)], that is [a.num / (double) a.den], for the [AVRational]
    whose [num] and [den] are the numerator and the denominator of [a]. *)
Definition av_q2d (a : Q) : Q :=
  binary64 (double_of_Z (Qnum a) / double_of_Z (Zpos (Qden a))).

(** [(int) round((double) rel / (1000.0f * av_q2d(time_base)))]; [None] when
    the time base is not positive or the value does not fit an [int]. *)
Definition pts_of (rel : Z) (time_base : Q) : option Z :=
  if Qle_bool time_base 0 then None
  else
    let r := c_round (binary64 (double_of_Z rel
                                / binary64 (1000 * av_q2d time_base))) in
    if (- 2 ^ 31 <=? r) && (r <=? INT_MAX) then Some r else None.

(** Modelled from the spec: [H264_Nal_Header_t], whose declaration is not in
    ipcamvideofilefmt.h (which declares [H26X_Nal_Header_t] with the fields
    [start_code[4]], [unit_type:5], [nri:2], [f:1]); the type field is the
    low 5 bits of the byte that follows the 4-byte start code. *)
Definition unit_type (ptr : option block) (offset : Z) : option Z :=
  match load_byte ptr (offset + 4) with
  | Some v => Some (Z.land v 31)
  | None => None
  end.

(** ** Second pass: the main extraction loop *)

(** What the second pass reads but does not change: the two time references
    of the first pass, whether [a_stream] is non-null, and the time bases the
    muxer gave the streams. *)
Record extract_env : Type := mkEnv {
  env_video_ts_initial : Z;
  env_audio_ts_initial : Z;
  has_a_stream : bool;
  v_time_base : Q;
  a_time_base : Q
}.

Record extract_state : Type := mkExtract {
  x_file : FILE;
  x_hxfi_detected : bool;
  packet_buffer : option block;
  packet_buffer_length : Z;
  packet_buffer_offset : Z;
  x_unknown_headers : list Z;
  calls : list call
}.

Definition extract_init (fp : FILE) (done : list call) : extract_state :=
  {| x_file := fp; x_hxfi_detected := false; packet_buffer := None;
     packet_buffer_length := 0; packet_buffer_offset := 0;
     x_unknown_headers := []; calls := done |}.

Definition x_with_file (st : extract_state) (fp : FILE) : extract_state :=
  {| x_file := fp; x_hxfi_detected := x_hxfi_detected st;
     packet_buffer := packet_buffer st;
     packet_buffer_length := packet_buffer_length st;
     packet_buffer_offset := packet_buffer_offset st;
     x_unknown_headers := x_unknown_headers st; calls := calls st |}.

(** The state once [ReadToBuffer] has returned. *)
Definition x_after_read (st : extract_state) (fp : FILE) (buf : option block)
    (len : Z) : extract_state :=
  {| x_file := fp; x_hxfi_detected := x_hxfi_detected st;
     packet_buffer := buf; packet_buffer_length := len;
     packet_buffer_offset := packet_buffer_offset st;
     x_unknown_headers := x_unknown_headers st; calls := calls st |}.

(** [av_interleaved_write_frame] on [packet], with the new value of
    [packet_buffer_offset]. *)
Definition x_write_frame (st : extract_state) (offset : Z) (idx : stream)
    (data : list memval) (pts : Z) : extract_state :=
  {| x_file := x_file st; x_hxfi_detected := x_hxfi_detected st;
     packet_buffer := packet_buffer st;
     packet_buffer_length := packet_buffer_length st;
     packet_buffer_offset := offset;
     x_unknown_headers := x_unknown_headers st;
     calls := calls st ++ [av_interleaved_write_frame idx data pts] |}.

Definition x_with_offset (st : extract_state) (offset : Z) : extract_state :=
  {| x_file := x_file st; x_hxfi_detected := x_hxfi_detected st;
     packet_buffer := packet_buffer st;
     packet_buffer_length := packet_buffer_length st;
     packet_buffer_offset := offset;
     x_unknown_headers := x_unknown_headers st; calls := calls st |}.

Definition in_int_range (z : Z) : bool := (- 2 ^ 31 <=? z) && (z <=? INT_MAX).

(** [packet_buffer_offset] is an [int] that is used as a [size_t]: a sum that
    overflows is undefined, and one that is negative (after a read of 2 GiB
    or more) makes the next use of the buffer undefined. *)
Definition valid_offset (z : Z) : bool := (0 <=? z) && (z <=? INT_MAX).

(** One iteration of the main extraction loop. *)
Definition extract_body (env : extract_env) (st : extract_state)
  : outcome extract_state :=
  let '(hdr, f1) := fread sizeof_header (x_file st) in
  if negb (lengthZ hdr =? sizeof_header) then
    Abort Premature_end_of_file (x_with_file st f1)
  else
    let header := le32 hdr in
    if header =? HXVS then
      match fseek_cur sizeof_HXVSFrame_t f1 with
      | None => Abort Seek_error (x_with_file st f1)
      | Some f2 => Next (x_with_file st f2)
      end
    else if header =? HXVF then
      let '(d, f2) := fread sizeof_HXVFFrame_t f1 in
      if negb (lengthZ d =? sizeof_HXVFFrame_t) then
        Abort Premature_end_of_file (x_with_file st f2)
      else
        let '(n, f3, buf, len) :=
          ReadToBuffer f2 (packet_buffer st) (packet_buffer_offset st)
            (hxvf_length d) (packet_buffer_length st) in
        let st1 := x_after_read st f3 buf len in
        let retval := to_int n in
        if to_uint32 retval <? hxvf_length d then
          Abort Premature_end_of_file st1
        else
          match unit_type buf (packet_buffer_offset st) with
          | None => Undefined st1
          | Some t =>
              if (t =? 7) || (t =? 8) then
                (* enqueue data in buffer, wait for a different type to
                   write a packet *)
                if valid_offset (packet_buffer_offset st + retval)
                then Next (x_with_offset st1 (packet_buffer_offset st + retval))
                else Undefined st1
              else
                let size := retval + packet_buffer_offset st in
                match load_bytes buf size,
                      pts_of (hxvf_timestamp d - env_video_ts_initial env)
                        (v_time_base env) with
                | Some data, Some pts =>
                    if in_int_range size
                    then Next (x_write_frame st1 0 v_stream data pts)
                    else Undefined st1
                | _, _ => Undefined st1
                end
          end
    else if header =? HXAF then
      let '(d, f2) := fread sizeof_HXAFFrame_t f1 in
      if negb (lengthZ d =? sizeof_HXAFFrame_t) then
        Abort Premature_end_of_file (x_with_file st f2)
      else if has_a_stream env then
        let '(n, f3, buf, len) :=
          ReadToBuffer f2 (packet_buffer st) 0
            (hxaf_payload_size (hxaf_length d)) (packet_buffer_length st) in
        let st1 := x_after_read st f3 buf len in
        let retval := to_int n in
        if to_uint32 retval <? hxaf_payload_size (hxaf_length d) then
          Abort Premature_end_of_file st1
        else
          match load_bytes buf retval,
                pts_of (hxaf_timestamp d - env_audio_ts_initial env)
                  (a_time_base env) with
          | Some data, Some pts =>
              Next (x_write_frame st1 (packet_buffer_offset st) a_stream
                      data pts)
          | _, _ => Undefined st1
          end
      else
        match fseek_cur (hxaf_payload_size (hxaf_length d)) f2 with
        | None => Abort Seek_error (x_with_file st f2)
        | Some f3 => Next (x_with_file st f3)
        end
    else if header =? HXFI then
      Next {| x_file := f1; x_hxfi_detected := true;
              packet_buffer := packet_buffer st;
              packet_buffer_length := packet_buffer_length st;
              packet_buffer_offset := packet_buffer_offset st;
              x_unknown_headers := x_unknown_headers st;
              calls := calls st |}
    else
      Next {| x_file := f1; x_hxfi_detected := x_hxfi_detected st;
              packet_buffer := packet_buffer st;
              packet_buffer_length := packet_buffer_length st;
              packet_buffer_offset := packet_buffer_offset st;
              x_unknown_headers := x_unknown_headers st ++ [header];
              calls := calls st |}.

(** [do { body } while ((!feof(in_file)) && (!hxfi_detected));] *)
Fixpoint extract_loop (env : extract_env) (fuel : nat) (st : extract_state)
  : outcome extract_state :=
  match fuel with
  | O => OutOfFuel
  | S fuel' =>
      match extract_body env st with
      | Next st' =>
          if negb (feof (x_file st')) && negb (x_hxfi_detected st')
          then extract_loop env fuel' st'
          else Next st'
      | r => r
      end
  end.

(** ** main, from [fopen] on *)

(** How a run ends, with the calls made to the container library. *)
Inductive run : Type :=
| Returned_0 (trace : list call)
| Exited_1 (d : diagnostic) (trace : list call)
| Run_undefined (trace : list call)
| Run_out_of_fuel.

(** The streams [main] creates between the two passes. *)
Definition audio_detected (skip_audio : bool) (st : infer_state) : bool :=
  negb skip_audio && negb (Qle_bool (audio_avg_sample_rate st) 0).

(** The rates given to the streams are [(int) round(...)] of the exact
    means; the conversion to [int] is not checked here. *)
Definition create_streams (skip_audio : bool) (st : infer_state) : list call :=
  [avformat_new_stream_video (video_w st) (video_h st)
     (c_round (video_avg_frame_rate st))]
  ++ (if audio_detected skip_audio st
      then [avformat_new_stream_audio
              (c_round (audio_avg_sample_rate st * 1000))]
      else [])
  ++ [avformat_write_header].

Definition env_of (skip_audio : bool) (tb_v tb_a : Q) (st : infer_state)
  : extract_env :=
  {| env_video_ts_initial := video_ts_initial st;
     env_audio_ts_initial := audio_ts_initial st;
     has_a_stream := audio_detected skip_audio st;
     v_time_base := tb_v;
     a_time_base := tb_a |}.

(** [skip_audio] is the option -n; [tb_v] and [tb_a] are the time bases the
    muxer chooses for the two streams when it writes the header; [data] is
    the content of the input file.  The calls to the container library and
    the seek back to the start of the file succeed. *)
Definition main (skip_audio : bool) (tb_v tb_a : Q) (data : list Z) : run :=
  match inference_pass (fopen data) with
  | Next st =>
      match extract_loop (env_of skip_audio tb_v tb_a st)
              (enough_fuel (in_file st))
              (extract_init (in_file st) (create_streams skip_audio st)) with
      | Next xs => Returned_0 (calls xs ++ [av_write_trailer])
      | Abort d xs => Exited_1 d (calls xs)
      | Undefined xs => Run_undefined (calls xs)
      | OutOfFuel => Run_out_of_fuel
      end
  | Abort d _ => Exited_1 d []
  | Undefined _ => Run_undefined []
  | OutOfFuel => Run_out_of_fuel
  end.

(** ** The input format, packet by packet *)

Inductive packet : Type :=
| Size_descriptor (width height : Z)
| Alt_size_descriptor (width height : Z)
| Video_frame (timestamp : Z) (payload : list Z)
| Audio_frame (timestamp : Z) (samples : list Z)
| End_of_stream.

(** Tag and fixed-size header of a video-frame and of an audio-frame packet
    that declare [length] bytes. *)
Definition video_header (length timestamp : Z) : list Z :=
  enc32 HXVF ++ enc32 length ++ enc32 timestamp ++ [0; 0; 0; 0].

Definition audio_header (length timestamp : Z) : list Z :=
  enc32 HXAF ++ enc32 length ++ enc32 timestamp ++ [0; 0; 0; 0; 0; 0; 0; 0].

Definition encode_packet (p : packet) : list Z :=
  match p with
  | Size_descriptor w h => enc32 HXVS ++ enc32 w ++ enc32 h ++ [0; 0; 0; 0]
  | Alt_size_descriptor w h => enc32 HXVT ++ enc32 w ++ enc32 h ++ [0; 0; 0; 0]
  | Video_frame ts payload => video_header (lengthZ payload) ts ++ payload
  | Audio_frame ts samples => audio_header (lengthZ samples + 4) ts ++ samples
  | End_of_stream => enc32 HXFI ++ repeat 0 16
  end.

Definition encode (ps : list packet) : list Z := flat_map encode_packet ps.

Definition uint32_range (z : Z) : Prop := 0 <= z < 2 ^ 32.

(** The type of the NAL unit a video payload starts with: the low 5 bits of
    the byte after the 4-byte start code. *)
Definition nal_unit_type (payload : list Z) : Z := Z.land (nth 4 payload 0) 31.

Definition is_parameter_set (payload : list Z) : bool :=
  (nal_unit_type payload =? 7) || (nal_unit_type payload =? 8).

(** The bytes left to read in a file. *)
Definition remaining (fp : FILE) : list Z := dropZ (f_pos fp) (f_data fp).

(** [fp] stands at a position in range with [l] left to read. *)
Definition at_pos (fp : FILE) (l : list Z) : Prop :=
  0 <= f_pos fp /\ remaining fp = l.

(** [fp] moved forward by [n] bytes. *)
Definition advance (n : Z) (fp : FILE) : FILE :=
  {| f_data := f_data fp; f_pos := f_pos fp + n; f_eof := f_eof fp |}.

(** The first [n] bytes at a pointer, indeterminate cells included. *)
Definition buffer_prefix (ptr : option block) (n : Z) : list memval :=
  get_cells (Z.to_nat n) (match ptr with Some b => cells b | None => [] end).

(** The coalescer holds the payloads [acc], withheld and not yet written. *)
Definition pending (st : extract_state) (acc : list Z) : Prop :=
  packet_buffer_offset st = lengthZ acc /\
  buffer_prefix (packet_buffer st) (lengthZ acc) = map Byte acc.

Definition is_audio_call (c : call) : bool :=
  match c with
  | avformat_new_stream_audio _ => true
  | av_interleaved_write_frame a_stream _ _ => true
  | _ => false
  end.

(** The tracked size [*dest_size] never exceeds the size of the block. *)
Definition sized (dest : option block) (dest_size : Z) : Prop :=
  match dest with
  | Some b => dest_size <= alloc b
  | None => True
  end.

Definition buffer_ok (st : extract_state) : Prop :=
  sized (packet_buffer st) (packet_buffer_length st).

(** ** The scan of a packet sequence *)

(** The packets the [switch] of both passes has a case for, with fields that
    fit the 32 bits they are stored in. *)
Definition data_packet (p : packet) : Prop :=
  match p with
  | Size_descriptor w h => uint32_range w /\ uint32_range h
  | Video_frame ts payload => uint32_range ts /\ uint32_range (lengthZ payload)
  | Audio_frame ts samples =>
      uint32_range ts /\ uint32_range (lengthZ samples + 4)
  | _ => False
  end.

(** The file after a packet of length [n] is consumed. *)
Definition past (n : Z) (fp : FILE) : FILE :=
  {| f_data := f_data fp; f_pos := f_pos fp + n; f_eof := false |}.

(** What an iteration of the first pass leaves when it meets the packet
    [p]. *)
Definition track (st : infer_state) (p : packet) : infer_state :=
  let fp := past (lengthZ (encode_packet p)) (in_file st) in
  match p with
  | Size_descriptor w h =>
      {| in_file := fp; hxfi_detected := hxfi_detected st;
         video_w := Some (to_int w); video_h := Some (to_int h);
         video := video st; audio := audio st;
         unknown_headers := unknown_headers st |}
  | Video_frame ts _ =>
      {| in_file := fp; hxfi_detected := hxfi_detected st;
         video_w := video_w st; video_h := video_h st;
         video := update_estimate 1000 ts (video st); audio := audio st;
         unknown_headers := unknown_headers st |}
  | Audio_frame ts samples =>
      {| in_file := fp; hxfi_detected := hxfi_detected st;
         video_w := video_w st; video_h := video_h st;
         video := video st;
         audio := update_estimate (lengthZ samples) ts (audio st);
         unknown_headers := unknown_headers st |}
  | _ => st
  end.




(** Size descriptors and video frames whose payload starts with a NAL
    header. *)
Definition video_only_packet (p : packet) : Prop :=
  match p with
  | Size_descriptor w h => uint32_range w /\ uint32_range h
  | Video_frame ts payload => uint32_range ts /\ 5 <= lengthZ payload
  | _ => False
  end.


Definition trace_of (r : run) : list call :=
  match r with
  | Returned_0 tr => tr
  | Exited_1 _ tr => tr
  | Run_undefined tr => tr
  | Run_out_of_fuel => []
  end.


Definition no_audio_call (tr : list call) : Prop :=
  Forall (fun c => is_audio_call c = false) tr.

(** The state the first pass ends in when it meets the end marker in state
    [st], once the file is rewound. *)
Definition finish (st : infer_state) : infer_state :=
  {| in_file := {| f_data := f_data (in_file st); f_pos := 0; f_eof := false |};
     hxfi_detected := true;
     video_w := video_w st; video_h := video_h st;
     video := video st; audio := audio st;
     unknown_headers := unknown_headers st |}.

(** A file holds bytes. *)
Definition bytes (data : list Z) : Prop := Forall (fun b => 0 <= b < 256) data.




(** ** Sample inputs *)

Definition sps : list Z := [0; 0; 0; 1; 103; 66].
Definition pps : list Z := [0; 0; 0; 1; 104; 206; 1].
Definition idr : list Z := [0; 0; 0; 1; 101; 136; 132].
Definition slice : list Z := [0; 0; 0; 1; 65; 154].

(** A muxer that counts in milliseconds. *)
Definition ms : Q := 1 # 1000.

Definition sample_env : extract_env :=
  {| env_video_ts_initial := 0; env_audio_ts_initial := 0;
     has_a_stream := true; v_time_base := ms; a_time_base := ms |}.


(** [sample_env] with no audio stream. *)
Definition mute_env : extract_env :=
  {| env_video_ts_initial := 0; env_audio_ts_initial := 0;
     has_a_stream := false; v_time_base := ms; a_time_base := ms |}.

(** The second pass about to start on a file of the packets [ps]. *)
Definition start_on (ps : list packet) : extract_state :=
  extract_init (fopen (encode ps)) [].

(** ** More of the two passes *)

(** A property of the state an outcome carries. *)
Definition holds {S : Type} (P : S -> Prop) (o : outcome S) : Prop :=
  match o with
  | Next s => P s
  | Abort _ s => P s
  | Undefined s => P s
  | OutOfFuel => True
  end.

(** The bookkeeping of the buffer is sound: the tracked size is within the
    block, and the offset counts bytes of the file that have been read. *)
Definition within_file (st : extract_state) : Prop :=
  buffer_ok st /\
  0 <= packet_buffer_offset st <= f_pos (x_file st) /\
  packet_buffer_offset st <= lengthZ (f_data (x_file st)).

(** The packet header that an iteration of the second pass reads, as a
    video-frame header and as an audio-frame header. *)
Definition video_header_read (st : extract_state) : list Z :=
  fst (fread sizeof_HXVFFrame_t (snd (fread sizeof_header (x_file st)))).

Definition audio_header_read (st : extract_state) : list Z :=
  fst (fread sizeof_HXAFFrame_t (snd (fread sizeof_header (x_file st)))).

(** What can make an iteration undefined: the NAL type read outside the
    buffer, or the timestamp of the packet not fitting an [int] once
    scaled. *)
Definition undefined_cause (env : extract_env) (st st1 : extract_state)
  : Prop :=
  unit_type (packet_buffer st1) (packet_buffer_offset st1) = None \/
  pts_of (hxvf_timestamp (video_header_read st) - env_video_ts_initial env)
    (v_time_base env) = None \/
  pts_of (hxaf_timestamp (audio_header_read st) - env_audio_ts_initial env)
    (a_time_base env) = None.

Definition is_write (c : call) : bool :=
  match c with
  | av_interleaved_write_frame _ _ _ => true
  | _ => false
  end.

(** The packets the second pass should write for the packets [ps], with the
    payloads [acc] withheld so far: parameter sets are joined to the next
    video payload, audio samples are written if there is an audio stream,
    size descriptors give nothing. *)
Fixpoint mux (env : extract_env) (acc : list Z) (ps : list packet)
  : list call :=
  match ps with
  | [] => []
  | Video_frame ts p :: ps' =>
      if is_parameter_set p then mux env (acc ++ p) ps'
      else
        match pts_of (ts - env_video_ts_initial env) (v_time_base env) with
        | Some pts =>
            av_interleaved_write_frame v_stream (map Byte (acc ++ p)) pts
            :: mux env [] ps'
        | None => []
        end
  | Audio_frame ts samples :: ps' =>
      if has_a_stream env then
        match pts_of (ts - env_audio_ts_initial env) (a_time_base env) with
        | Some pts =>
            av_interleaved_write_frame a_stream (map Byte samples) pts
            :: mux env acc ps'
        | None => []
        end
      else mux env acc ps'
  | _ :: ps' => mux env acc ps'
  end.

(** The sequences on which the second pass is followed here: fields in
    range, video payloads with a NAL header, sizes and timestamps that fit an
    [int], and, when there is an audio stream, audio packets with samples
    that do not fall between a parameter set and the payload it waits
    for. *)
Fixpoint muxable (env : extract_env) (acc : list Z) (ps : list packet)
  : Prop :=
  match ps with
  | [] => True
  | Size_descriptor w h :: ps' => muxable env acc ps'
  | Video_frame ts p :: ps' =>
      uint32_range ts /\ 5 <= lengthZ p /\
      lengthZ acc + lengthZ p <= INT_MAX /\
      if is_parameter_set p then muxable env (acc ++ p) ps'
      else
        pts_of (ts - env_video_ts_initial env) (v_time_base env) <> None /\
        muxable env [] ps'
  | Audio_frame ts samples :: ps' =>
      uint32_range ts /\ uint32_range (lengthZ samples + 4) /\
      (has_a_stream env = true ->
       acc = [] /\ 0 < lengthZ samples <= INT_MAX /\
       pts_of (ts - env_audio_ts_initial env) (a_time_base env) <> None) /\
      muxable env acc ps'
  | _ => False
  end.

(** What the first pass gathers from the packets [ps], the file left
    aside. *)
Definition scan (ps : list packet) : infer_state :=
  fold_left track ps (infer_init (fopen [])).

(** A 32-bit word that is none of the four tags the [switch] of the two
    passes has a case for. *)
Definition unknown_word (t : Z) : Prop :=
  uint32_range t /\ t <> HXVS /\ t <> HXVF /\ t <> HXAF /\ t <> HXFI.

Definition words (tags : list Z) : list Z := flat_map enc32 tags.

(** ** The estimates of the first pass *)

(** An estimate whose rate is positive exactly when it has counted. *)
Definition rate_ok (e : estimate) : Prop :=
  0 <= packets_count e /\
  (packets_count e = 0 -> (avg_rate e == 0)%Q) /\
  (0 < packets_count e -> (0 < avg_rate e)%Q).

(** The size descriptor that comes last. *)
Fixpoint last_size (ps : list packet) : option (Z * Z) :=
  match ps with
  | [] => None
  | Size_descriptor w h :: ps' =>
      match last_size ps' with
      | Some s => Some s
      | None => Some (w, h)
      end
  | _ :: ps' => last_size ps'
  end.

(** The tag at the offset [pos] of a file. *)
Definition tag_at (data : list Z) (pos : Z) : option Z :=
  let hdr := takeZ 4 (dropZ pos data) in
  if lengthZ hdr =? 4 then Some (le32 hdr) else None.

(** An estimate whose rate lies between 0 and [bound]. *)
Definition rate_within (bound : Z) (e : estimate) : Prop :=
  0 <= packets_count e /\ (0 <= avg_rate e <= inject_Z bound)%Q.

(** ** C strings and the name of the output file *)

(** A [char] array is the list of its elements and a pointer into it the
    list from the element pointed to; a [char *] that may be null is an
    [option], [None] the null pointer.  A call that reads or writes past the
    end of an array has no defined result: [None].  Lengths are [nat]s, far
    below the range of [size_t]; the one subtraction of the source that could
    wrap is [size_sub]. *)
Definition NUL : ascii := zero.

Fixpoint strlen (s : list ascii) : option nat :=
  match s with
  | [] => None
  | c :: s' => if Ascii.eqb c NUL then Some O else option_map S (strlen s')
  end.

Definition size_sub (a b : nat) : nat :=
  if (b <=? a)%nat then (a - b)%nat
  else Z.to_nat (2 ^ 64 - Z.of_nat (b - a)).

(** [strncmp(s1, s2, n) == 0]. *)
Fixpoint strncmp_eq (s1 s2 : list ascii) (n : nat) {struct n}
  : option bool :=
  match n with
  | O => Some true
  | S n' =>
      match s1, s2 with
      | c1 :: s1', c2 :: s2' =>
          if Ascii.eqb c1 c2
          then if Ascii.eqb c1 NUL then Some true else strncmp_eq s1' s2' n'
          else Some false
      | _, _ => None
      end
  end.

Definition EndsWith (str suffix : option (list ascii)) : option bool :=
  match str, suffix with
  | Some s, Some suf =>
      match strlen s, strlen suf with
      | Some lenstr, Some lensuffix =>
          if (lenstr <? lensuffix)%nat then Some false
          else strncmp_eq (skipn (lenstr - lensuffix) s) suf lensuffix
      | _, _ => None
      end
  | _, _ => Some false
  end.

(** The array [a] with the characters [cs] stored from the index [off]. *)
Definition poke (a : list ascii) (off : nat) (cs : list ascii)
  : option (list ascii) :=
  if (off + length cs <=? length a)%nat
  then Some (firstn off a ++ cs ++ skipn (off + length cs) a)
  else None.

(** The [n] characters [strncpy(dest, src, n)] stores: those of [src] up to
    its terminator, then null characters; no terminator if [src] has [n]
    characters or more. *)
Fixpoint strncpy_chars (src : list ascii) (n : nat) {struct n}
  : option (list ascii) :=
  match n with
  | O => Some []
  | S n' =>
      match src with
      | [] => None
      | c :: src' =>
          if Ascii.eqb c NUL then Some (repeat NUL n)
          else option_map (cons c) (strncpy_chars src' n')
      end
  end.

(** [strncpy(&dest[off], src, n)]. *)
Definition strncpy (dest : list ascii) (off : nat) (src : list ascii)
    (n : nat) : option (list ascii) :=
  match strncpy_chars src n with
  | Some cs => poke dest off cs
  | None => None
  end.

(** [strcat(dest, src)]: [src] with its terminator, stored from the
    terminator of [dest]. *)
Definition strcat (dest src : list ascii) : option (list ascii) :=
  match strlen dest, strlen src with
  | Some ld, Some ls => poke dest ld (firstn (S ls) src)
  | _, _ => None
  end.

(** The first call [strtok(s, delim)] for a delimiter string of one
    character: the delimiters in front are passed; at the terminator the
    result is the null pointer; otherwise the delimiter that ends the token,
    if there is one, is overwritten with a null character and the result
    points to the token. *)
Fixpoint skip_delim (delim : ascii) (s : list ascii) : list ascii :=
  match s with
  | c :: s' => if Ascii.eqb c delim then skip_delim delim s' else s
  | [] => []
  end.

Fixpoint end_token (delim : ascii) (s : list ascii) : option (list ascii) :=
  match s with
  | [] => None
  | c :: s' =>
      if Ascii.eqb c NUL then Some s
      else if Ascii.eqb c delim then Some (NUL :: s')
      else option_map (cons c) (end_token delim s')
  end.

Definition strtok (s : list ascii) (delim : ascii)
  : option (option (list ascii)) :=
  match skip_delim delim s with
  | [] => None
  | c :: t =>
      if Ascii.eqb c NUL then Some None
      else option_map Some (end_token delim (c :: t))
  end.

Definition MAX_EXTENSION_LEN : nat := 12.

(** [char ext[MAX_EXTENSION_LEN] = "."] as [main] fills it from
    [format_ctx->oformat->extensions]: the copy made by [strcpy] into the
    block of [extensions_length + 1] bytes, its first token, [strncpy] into
    [&ext[1]]; or [sprintf(&ext[1], "out")]. *)
Definition default_extension (extensions : list ascii)
  : option (list ascii) :=
  let ext := "."%char :: repeat NUL (MAX_EXTENSION_LEN - 1) in
  match strlen extensions with
  | None => None
  | Some extensions_length =>
      if (0 <? extensions_length)%nat then
        match strtok (firstn (S extensions_length) extensions) ","%char with
        | Some (Some token) => strncpy ext 1 token (MAX_EXTENSION_LEN - 1)
        | _ => None
        end
      else poke ext 1 ["o"; "u"; "t"; NUL]%char
  end.

(** The branch of [main] that generates the output file name, for the
    option -f without an output argument.  [filename] is the array
    [format_ctx->filename] as the container library hands it over; the
    result is that array at the end. *)
Definition generated_filename (filename in_filename extensions : list ascii)
  : option (list ascii) :=
  match default_extension extensions with
  | None => None
  | Some ext =>
      match EndsWith (Some in_filename)
              (Some ["."; "2"; "6"; "4"; NUL]%char) with
      | None => None
      | Some ends =>
          match
            (if ends then
               match strlen in_filename with
               | Some l => strncpy filename 0 in_filename (size_sub l 4)
               | None => None
               end
             else strcat filename in_filename)
          with
          | Some filename' => strcat filename' ext
          | None => None
          end
      end
  end.

(** The string an array holds. *)
Fixpoint c_str (a : list ascii) : option (list ascii) :=
  match a with
  | [] => None
  | c :: a' =>
      if Ascii.eqb c NUL then Some [] else option_map (cons c) (c_str a')
  end.

(** A string has no null character inside. *)
Definition text (s : list ascii) : Prop := Forall (fun c => c <> NUL) s.

(** The token [strtok] finds first. *)
Fixpoint token (delim : ascii) (s : list ascii) : list ascii :=
  match s with
  | [] => []
  | c :: s' => if Ascii.eqb c delim then [] else c :: token delim s'
  end.

Definition first_token (delim : ascii) (s : list ascii) : list ascii :=
  token delim (skip_delim delim s).

Definition suffixb (suf s : list ascii) : bool :=
  (length suf <=? length s)%nat
  && if list_eq_dec ascii_dec (skipn (length s - length suf) s) suf
     then true else false.

(** The input name without a final ".264". *)
Definition stem (name : list ascii) : list ascii :=
  if suffixb ["."; "2"; "6"; "4"]%char name
  then firstn (length name - 4) name
  else name.

(** The extension that follows the dot: "out" when the format has none,
    otherwise the first token, if there is one and it leaves room for the
    terminator in [ext]. *)
Definition extension_of (extensions : list ascii) : option (list ascii) :=
  match extensions with
  | [] => Some ["o"; "u"; "t"]%char
  | _ =>
      let tok := first_token ","%char extensions in
      match tok with
      | [] => None
      | _ => if (length tok <? MAX_EXTENSION_LEN - 1)%nat then Some tok
             else None
      end
  end.

(** * Lemmas *)

(** Closed comparisons between numbers, and conjunctions of them. *)
Ltac decide_ranges :=
  vm_compute; repeat split; first [discriminate | reflexivity].

(** ** Lists *)

Lemma takeZ_firstn {A : Type} (l : list A) :
  forall n, takeZ n l = firstn (Z.to_nat n) l.
Proof.
  induction l as [|x t IH]; intros n; simpl.
  - now rewrite firstn_nil.
  - destruct (Z.leb_spec n 0) as [H|H].
    + replace (Z.to_nat n) with O by lia. reflexivity.
    + replace (Z.to_nat n) with (S (Z.to_nat (n - 1))) by lia.
      simpl. now rewrite IH.
Qed.

Lemma dropZ_skipn {A : Type} (l : list A) :
  forall n, dropZ n l = skipn (Z.to_nat n) l.
Proof.
  induction l as [|x t IH]; intros n; simpl.
  - now rewrite skipn_nil.
  - destruct (Z.leb_spec n 0) as [H|H].
    + replace (Z.to_nat n) with O by lia. reflexivity.
    + replace (Z.to_nat n) with (S (Z.to_nat (n - 1))) by lia.
      simpl. now rewrite IH.
Qed.

Lemma lengthZ_app {A : Type} (a b : list A) :
  lengthZ (a ++ b) = lengthZ a + lengthZ b.
Proof. unfold lengthZ. rewrite length_app. lia. Qed.

Lemma lengthZ_nonneg {A : Type} (a : list A) : 0 <= lengthZ a.
Proof. unfold lengthZ. lia. Qed.

Lemma takeZ_app_exact {A : Type} (a b : list A) n :
  lengthZ a = n -> takeZ n (a ++ b) = a.
Proof.
  intros <-. rewrite takeZ_firstn. unfold lengthZ. rewrite Nat2Z.id.
  rewrite firstn_app, Nat.sub_diag, firstn_all. simpl. apply app_nil_r.
Qed.

Lemma dropZ_app_exact {A : Type} (a b : list A) n :
  lengthZ a = n -> dropZ n (a ++ b) = b.
Proof.
  intros <-. rewrite dropZ_skipn. unfold lengthZ. rewrite Nat2Z.id.
  rewrite skipn_app, Nat.sub_diag, skipn_all. reflexivity.
Qed.

Lemma takeZ_short {A : Type} (l : list A) n :
  lengthZ l <= n -> takeZ n l = l.
Proof.
  intros H. rewrite takeZ_firstn. apply firstn_all2. unfold lengthZ in H. lia.
Qed.

Lemma dropZ_add {A : Type} (l : list A) n m :
  0 <= n -> 0 <= m -> dropZ (n + m) l = dropZ m (dropZ n l).
Proof.
  intros Hn Hm. rewrite !dropZ_skipn, skipn_skipn.
  f_equal. lia.
Qed.

Lemma dropZ_beyond {A : Type} (l : list A) n :
  lengthZ l <= n -> dropZ n l = [].
Proof.
  intros H. rewrite dropZ_skipn. apply skipn_all2. unfold lengthZ in H. lia.
Qed.

(** ** Machine integers *)

Lemma le32_enc32 v : uint32_range v -> le32 (enc32 v) = v.
Proof.
  unfold uint32_range, le32, enc32. intros H.
  change (2 ^ 8) with 256. change (2 ^ 16) with (256 * 256).
  change (2 ^ 24) with (256 * 256 * 256).
  rewrite <- !Z.div_div by lia.
  pose proof (Z.div_mod v 256 ltac:(lia)) as E0.
  pose proof (Z.div_mod (v / 256) 256 ltac:(lia)) as E1.
  pose proof (Z.div_mod (v / 256 / 256) 256 ltac:(lia)) as E2.
  assert (v / 256 / 256 / 256 < 256).
  { rewrite !Z.div_div by lia. apply Z.div_lt_upper_bound; lia. }
  assert (0 <= v / 256 / 256 / 256).
  { rewrite !Z.div_div by lia. apply Z.div_pos; lia. }
  rewrite (Z.mod_small (v / 256 / 256 / 256) 256) by lia.
  lia.
Qed.

Lemma length_enc32 v : lengthZ (enc32 v) = 4.
Proof. reflexivity. Qed.

Lemma to_uint32_to_int z : to_uint32 (to_int z) = to_uint32 z.
Proof.
  unfold to_uint32, to_int.
  destruct (Z.ltb_spec (z mod 2 ^ 32) (2 ^ 31)).
  - apply Z.mod_mod. lia.
  - rewrite <- (Z.mod_add _ 1) by lia.
    replace (z mod 2 ^ 32 - 2 ^ 32 + 1 * 2 ^ 32) with (z mod 2 ^ 32) by lia.
    apply Z.mod_mod. lia.
Qed.

Lemma to_int_small z : 0 <= z <= INT_MAX -> to_int z = z.
Proof.
  unfold to_int, INT_MAX. intros H.
  rewrite Z.mod_small by lia.
  destruct (Z.ltb_spec z (2 ^ 31)); lia.
Qed.

Lemma to_uint32_small z : uint32_range z -> to_uint32 z = z.
Proof. unfold to_uint32, uint32_range. intros H. now apply Z.mod_small. Qed.

(** ** stdio *)

Lemma fread_exact fp n a rest :
  at_pos fp (a ++ rest) -> lengthZ a = n ->
  fread n fp = (a, advance n fp) /\ at_pos (advance n fp) rest.
Proof.
  intros [Hpos Hrem] Hn. unfold remaining in Hrem. split.
  - unfold fread, advance. rewrite Hrem, (takeZ_app_exact a rest n Hn), Hn.
    rewrite Z.ltb_irrefl, orb_false_r. reflexivity.
  - unfold at_pos, remaining, advance; simpl.
    pose proof (lengthZ_nonneg a). split; [lia|].
    rewrite dropZ_add by lia. rewrite Hrem. now apply dropZ_app_exact.
Qed.

Lemma fread_short fp n l :
  at_pos fp l -> lengthZ l < n ->
  fread n fp =
  (l, {| f_data := f_data fp; f_pos := f_pos fp + lengthZ l; f_eof := true |}).
Proof.
  intros [Hpos Hrem] Hn. unfold remaining in Hrem. unfold fread.
  rewrite Hrem, takeZ_short by lia.
  replace (lengthZ l <? n) with true by (symmetry; apply Z.ltb_lt; lia).
  now rewrite orb_true_r.
Qed.

Lemma fseek_cur_forward fp n :
  0 <= f_pos fp -> 0 <= n ->
  fseek_cur n fp =
  Some {| f_data := f_data fp; f_pos := f_pos fp + n; f_eof := false |}.
Proof.
  intros Hp Hn. unfold fseek_cur.
  destruct (Z.ltb_spec (f_pos fp + n) 0); [lia|reflexivity].
Qed.

Lemma at_pos_skip fp a rest n eof :
  at_pos fp (a ++ rest) -> lengthZ a = n ->
  at_pos {| f_data := f_data fp; f_pos := f_pos fp + n; f_eof := eof |} rest.
Proof.
  intros [Hpos Hrem] Hn. unfold at_pos, remaining in *; simpl.
  pose proof (lengthZ_nonneg a). split; [lia|].
  rewrite dropZ_add by lia. rewrite Hrem. now apply dropZ_app_exact.
Qed.

Lemma at_pos_beyond fp l n eof :
  at_pos fp l -> lengthZ l <= n ->
  at_pos {| f_data := f_data fp; f_pos := f_pos fp + n; f_eof := eof |} [].
Proof.
  intros [Hpos Hrem] Hn. unfold at_pos, remaining in *; simpl.
  pose proof (lengthZ_nonneg l). split; [lia|].
  rewrite dropZ_add by lia. rewrite Hrem. now apply dropZ_beyond.
Qed.

Lemma field32_0 a rest : field32 (enc32 a ++ rest) 0 = le32 (enc32 a).
Proof. unfold field32. rewrite takeZ_firstn, dropZ_skipn. reflexivity. Qed.

Lemma field32_4 a b rest :
  field32 (enc32 a ++ enc32 b ++ rest) 4 = le32 (enc32 b).
Proof. unfold field32. rewrite takeZ_firstn, dropZ_skipn. reflexivity. Qed.

(** ** The first pass, packet by packet *)

(** Reading the tag of a packet. *)
Lemma fread_tag fp tag rest :
  at_pos fp (enc32 tag ++ rest) ->
  fread sizeof_header fp = (enc32 tag, advance 4 fp) /\
  at_pos (advance 4 fp) rest.
Proof. intros H. now apply fread_exact. Qed.

Lemma infer_body_video st len ts rest :
  at_pos (in_file st) (video_header len ts ++ rest) ->
  uint32_range len -> uint32_range ts ->
  infer_body st =
  Next {| in_file := {| f_data := f_data (in_file st);
                        f_pos := f_pos (in_file st) + 16 + len;
                        f_eof := false |};
          hxfi_detected := hxfi_detected st;
          video_w := video_w st; video_h := video_h st;
          video := update_estimate 1000 ts (video st);
          audio := audio st;
          unknown_headers := unknown_headers st |}.
Proof.
  intros H Hlen Hts. unfold video_header in H. rewrite <- !app_assoc in H.
  destruct (fread_tag _ _ _ H) as [E1 H1].
  assert (H1' : at_pos (advance 4 (in_file st))
                  ((enc32 len ++ enc32 ts ++ [0; 0; 0; 0]) ++ rest))
    by now rewrite <- !app_assoc.
  destruct (fread_exact _ sizeof_HXVFFrame_t _ _ H1' eq_refl) as [E2 H2].
  unfold infer_body. rewrite E1. cbv beta iota delta [negb].
  change (lengthZ (enc32 HXVF) =? sizeof_header) with true.
  change (le32 (enc32 HXVF)) with HXVF.
  change (HXVF =? HXVS) with false. change (HXVF =? HXVF) with true.
  cbv beta iota delta [negb]. rewrite E2. cbv beta iota delta [negb].
  change (lengthZ (enc32 len ++ enc32 ts ++ [0; 0; 0; 0])
          =? sizeof_HXVFFrame_t) with true.
  cbv beta iota delta [negb].
  unfold hxvf_length, hxvf_timestamp.
  rewrite field32_0, field32_4, !le32_enc32 by assumption.
  destruct H2 as [Hp2 _]. unfold uint32_range in Hlen.
  rewrite fseek_cur_forward by (assumption || lia).
  unfold with_file, advance; simpl.
  do 3 f_equal. unfold sizeof_HXVFFrame_t. lia.
Qed.

Lemma infer_body_audio st len ts rest :
  at_pos (in_file st) (audio_header len ts ++ rest) ->
  uint32_range len -> uint32_range ts ->
  infer_body st =
  Next {| in_file := {| f_data := f_data (in_file st);
                        f_pos := f_pos (in_file st) + 20
                                 + hxaf_payload_size len;
                        f_eof := false |};
          hxfi_detected := hxfi_detected st;
          video_w := video_w st; video_h := video_h st;
          video := video st;
          audio := update_estimate (hxaf_payload_size len) ts (audio st);
          unknown_headers := unknown_headers st |}.
Proof.
  intros H Hlen Hts. unfold audio_header in H. rewrite <- !app_assoc in H.
  destruct (fread_tag _ _ _ H) as [E1 H1].
  assert (H1' : at_pos (advance 4 (in_file st))
                  ((enc32 len ++ enc32 ts ++ [0; 0; 0; 0; 0; 0; 0; 0])
                   ++ rest))
    by now rewrite <- !app_assoc.
  destruct (fread_exact _ sizeof_HXAFFrame_t _ _ H1' eq_refl) as [E2 H2].
  unfold infer_body. rewrite E1. cbv beta iota delta [negb].
  change (lengthZ (enc32 HXAF) =? sizeof_header) with true.
  change (le32 (enc32 HXAF)) with HXAF.
  change (HXAF =? HXVS) with false. change (HXAF =? HXVF) with false.
  change (HXAF =? HXAF) with true.
  cbv beta iota delta [negb]. rewrite E2. cbv beta iota delta [negb].
  change (lengthZ (enc32 len ++ enc32 ts ++ [0; 0; 0; 0; 0; 0; 0; 0])
          =? sizeof_HXAFFrame_t) with true.
  cbv beta iota delta [negb].
  unfold hxaf_length, hxaf_timestamp.
  rewrite field32_0, field32_4, !le32_enc32 by assumption.
  destruct H2 as [Hp2 _].
  assert (0 <= hxaf_payload_size len)
    by (unfold hxaf_payload_size, to_uint32; apply Z.mod_pos_bound; lia).
  rewrite fseek_cur_forward by assumption.
  unfold with_file, advance; simpl.
  do 3 f_equal. unfold sizeof_HXAFFrame_t. lia.
Qed.

Lemma infer_body_size st w h rest :
  at_pos (in_file st) (encode_packet (Size_descriptor w h) ++ rest) ->
  uint32_range w -> uint32_range h ->
  infer_body st =
  Next {| in_file := advance 16 (in_file st);
          hxfi_detected := hxfi_detected st;
          video_w := Some (to_int w); video_h := Some (to_int h);
          video := video st; audio := audio st;
          unknown_headers := unknown_headers st |}.
Proof.
  intros H Hw Hh. unfold encode_packet in H. rewrite <- !app_assoc in H.
  destruct (fread_tag _ _ _ H) as [E1 H1].
  assert (H1' : at_pos (advance 4 (in_file st))
                  ((enc32 w ++ enc32 h ++ [0; 0; 0; 0]) ++ rest))
    by now rewrite <- !app_assoc.
  destruct (fread_exact _ sizeof_HXVSFrame_t _ _ H1' eq_refl) as [E2 H2].
  unfold infer_body. rewrite E1. cbv beta iota delta [negb].
  change (lengthZ (enc32 HXVS) =? sizeof_header) with true.
  change (le32 (enc32 HXVS)) with HXVS.
  change (HXVS =? HXVS) with true.
  cbv beta iota delta [negb]. rewrite E2. cbv beta iota delta [negb].
  change (lengthZ (enc32 w ++ enc32 h ++ [0; 0; 0; 0])
          =? sizeof_HXVSFrame_t) with true.
  cbv beta iota delta [negb].
  unfold hxvs_width, hxvs_height.
  rewrite field32_0, field32_4, !le32_enc32 by assumption.
  unfold advance; simpl. do 3 f_equal. unfold sizeof_HXVSFrame_t. lia.
Qed.

Lemma infer_body_end st rest :
  at_pos (in_file st) (enc32 HXFI ++ rest) ->
  infer_body st =
  Next {| in_file := advance 4 (in_file st);
          hxfi_detected := true;
          video_w := video_w st; video_h := video_h st;
          video := video st; audio := audio st;
          unknown_headers := unknown_headers st |}.
Proof.
  intros H. destruct (fread_tag _ _ _ H) as [E1 H1].
  unfold infer_body. rewrite E1. reflexivity.
Qed.

(** A tag that is none of the four of the [switch] goes to [default]: it is
    reported and nothing but the tag is consumed. *)
Lemma infer_body_default st tag rest :
  at_pos (in_file st) (enc32 tag ++ rest) ->
  uint32_range tag ->
  tag <> HXVS -> tag <> HXVF -> tag <> HXAF -> tag <> HXFI ->
  infer_body st =
  Next {| in_file := advance 4 (in_file st);
          hxfi_detected := hxfi_detected st;
          video_w := video_w st; video_h := video_h st;
          video := video st; audio := audio st;
          unknown_headers := unknown_headers st ++ [tag] |}.
Proof.
  intros H Ht N1 N2 N3 N4. destruct (fread_tag _ _ _ H) as [E1 H1].
  unfold infer_body. rewrite E1. cbv beta iota delta [negb].
  change (lengthZ (enc32 tag) =? sizeof_header) with true.
  rewrite le32_enc32 by assumption.
  apply Z.eqb_neq in N1, N2, N3, N4. rewrite N1, N2, N3, N4.
  reflexivity.
Qed.

(** ** Heap blocks and ReadToBuffer *)

Lemma get_cells_length n l : length (get_cells n l) = n.
Proof.
  unfold get_cells. rewrite length_app, length_firstn, repeat_length. lia.
Qed.

Lemma get_cells_app_exact a t : get_cells (length a) (a ++ t) = a.
Proof.
  unfold get_cells. rewrite firstn_app, Nat.sub_diag, firstn_all, length_app.
  replace (length a - (length a + length t))%nat with O by lia.
  simpl. now rewrite !app_nil_r.
Qed.

Lemma get_cells_nil n : get_cells n [] = repeat Undef n.
Proof. unfold get_cells. rewrite firstn_nil, Nat.sub_0_r. reflexivity. Qed.

Lemma get_cells_cons n x t : get_cells (S n) (x :: t) = x :: get_cells n t.
Proof. reflexivity. Qed.

Lemma firstn_get_cells n :
  forall m l, (n <= m)%nat -> firstn n (get_cells m l) = get_cells n l.
Proof.
  induction n as [|n IH]; intros m l H; [reflexivity|].
  destruct m as [|m]; [lia|].
  destruct l as [|x t].
  - rewrite !get_cells_nil. simpl. f_equal.
    specialize (IH m [] ltac:(lia)). now rewrite !get_cells_nil in IH.
  - rewrite !get_cells_cons. simpl. f_equal. apply IH. lia.
Qed.

Lemma get_cells_firstn n m l :
  (n <= m)%nat -> get_cells n (firstn m l) = get_cells n l.
Proof.
  intros H. unfold get_cells. rewrite firstn_firstn, length_firstn.
  replace (Nat.min n m) with n by lia.
  f_equal. f_equal. lia.
Qed.

(** A read that finds the whole payload [p] in the file: the bytes before
    [dest_offset] are kept and [p] follows them. *)
Lemma ReadToBuffer_payload fp dest off size p rest :
  at_pos fp (p ++ rest) -> 0 < lengthZ p -> 0 <= off -> sized dest size ->
  exists b,
    ReadToBuffer fp dest off (lengthZ p) size =
    (lengthZ p, advance (lengthZ p) fp, Some b, lengthZ p + off) /\
    buffer_prefix (Some b) (off + lengthZ p) =
    buffer_prefix dest off ++ map Byte p /\
    lengthZ p + off <= alloc b /\
    (5 <= lengthZ p -> unit_type (Some b) off = Some (nal_unit_type p)).
Proof.
  intros Hat Hlen Hoff Hsz.
  destruct (fread_exact _ _ _ _ Hat eq_refl) as [E _].
  unfold ReadToBuffer.
  replace (lengthZ p =? 0) with false by (symmetry; apply Z.eqb_neq; lia).
  rewrite E.
  set (d1 := match dest with
             | Some b =>
                 if size <? lengthZ p + off
                 then if negb (off =? 0)
                      then Some (realloc b (lengthZ p + off)) else None
                 else Some b
             | None => None
             end).
  set (b2 := match d1 with
             | Some b => b
             | None => malloc (lengthZ p + off)
             end).
  assert (Hpre : get_cells (Z.to_nat off) (cells b2) = buffer_prefix dest off).
  { unfold buffer_prefix, b2, d1. destruct dest as [b|]; [|reflexivity].
    destruct (size <? lengthZ p + off); [|reflexivity].
    destruct (Z.eqb_spec off 0) as [->|Hne]; simpl; [reflexivity|].
    apply get_cells_firstn. lia. }
  assert (Hal : lengthZ p + off <= alloc b2).
  { unfold b2, d1. destruct dest as [b|]; simpl; [|lia].
    destruct (Z.ltb_spec size (lengthZ p + off)).
    - destruct (negb (off =? 0)); simpl; lia.
    - simpl in Hsz. lia. }
  exists (store b2 off p). split; [reflexivity|].
  assert (Hcells : cells (store b2 off p) =
                   (buffer_prefix dest off ++ map Byte p)
                   ++ skipn (Z.to_nat off + length p) (cells b2)).
  { unfold store; simpl. rewrite Hpre. now rewrite app_assoc. }
  assert (Hplen : length (buffer_prefix dest off) = Z.to_nat off)
    by apply get_cells_length.
  split; [|split; [exact Hal|]].
  - unfold buffer_prefix at 1. rewrite Hcells.
    replace (Z.to_nat (off + lengthZ p))
      with (length (buffer_prefix dest off ++ map Byte p)).
    + apply get_cells_app_exact.
    + rewrite length_app, length_map, Hplen. unfold lengthZ. lia.
  - intros H5. unfold unit_type, load_byte.
    change (alloc (store b2 off p)) with (alloc b2).
    replace ((off + 4 <? 0) || (alloc b2 <=? off + 4)) with false.
    2:{ symmetry. apply orb_false_iff. split.
        - apply Z.ltb_ge. lia.
        - apply Z.leb_gt. lia. }
    rewrite Hcells, <- app_assoc.
    rewrite app_nth2 by (rewrite Hplen; lia).
    rewrite Hplen.
    replace (Z.to_nat (off + 4) - Z.to_nat off)%nat with 4%nat by lia.
    assert (H4 : (4 < length p)%nat) by (unfold lengthZ in H5; lia).
    rewrite app_nth1 by (rewrite length_map; exact H4).
    rewrite (nth_indep _ Undef (Byte 0)) by (rewrite length_map; exact H4).
    rewrite map_nth. reflexivity.
Qed.

(** ** The second pass, packet by packet *)

Lemma valid_offset_true z : 0 <= z <= INT_MAX -> valid_offset z = true.
Proof.
  intros H. unfold valid_offset. apply andb_true_iff.
  split; apply Z.leb_le; lia.
Qed.

Lemma in_int_range_true z : - 2 ^ 31 <= z <= INT_MAX -> in_int_range z = true.
Proof.
  intros H. unfold in_int_range. apply andb_true_iff.
  split; apply Z.leb_le; lia.
Qed.

(** A video-frame packet whose payload is all there and starts with a NAL
    header: [st1] is the state when [ReadToBuffer] has returned. *)
Lemma extract_body_video env st ts p rest acc :
  at_pos (x_file st) (encode_packet (Video_frame ts p) ++ rest) ->
  uint32_range ts -> 5 <= lengthZ p ->
  pending st acc -> buffer_ok st ->
  lengthZ acc + lengthZ p <= INT_MAX ->
  exists st1,
    at_pos (x_file st1) rest /\
    f_eof (x_file st1) = f_eof (x_file st) /\
    x_hxfi_detected st1 = x_hxfi_detected st /\
    calls st1 = calls st /\
    x_unknown_headers st1 = x_unknown_headers st /\
    buffer_ok st1 /\
    buffer_prefix (packet_buffer st1) (lengthZ (acc ++ p)) = map Byte (acc ++ p) /\
    extract_body env st =
    if is_parameter_set p
    then Next (x_with_offset st1 (lengthZ (acc ++ p)))
    else match pts_of (ts - env_video_ts_initial env) (v_time_base env) with
         | Some pts =>
             Next (x_write_frame st1 0 v_stream (map Byte (acc ++ p)) pts)
         | None => Undefined st1
         end.
Proof.
  intros H Hts H5 [Hoff Hpre] Hok Hmax.
  pose proof (lengthZ_nonneg acc) as Hacc.
  unfold encode_packet, video_header in H. rewrite <- !app_assoc in H.
  destruct (fread_tag _ _ _ H) as [E1 H1].
  assert (H1' : at_pos (advance 4 (x_file st))
                  ((enc32 (lengthZ p) ++ enc32 ts ++ [0; 0; 0; 0])
                   ++ p ++ rest))
    by now rewrite <- !app_assoc.
  destruct (fread_exact _ sizeof_HXVFFrame_t _ _ H1' eq_refl) as [E2 H2].
  destruct (ReadToBuffer_payload _ (packet_buffer st) (packet_buffer_offset st)
              (packet_buffer_length st) p rest H2)
    as (b & E3 & P3 & A3 & U3); [lia | lia | exact Hok |].
  specialize (U3 H5).
  assert (Hlen : uint32_range (lengthZ p))
    by (unfold uint32_range, INT_MAX in *; lia).
  set (f3 := advance (lengthZ p) (advance sizeof_HXVFFrame_t
                                    (advance 4 (x_file st)))) in *.
  exists (x_after_read st f3 (Some b) (lengthZ p + packet_buffer_offset st)).
  assert (Hat3 : at_pos f3 rest).
  { destruct (fread_exact _ (lengthZ p) _ _ H2 eq_refl) as [_ H3]. exact H3. }
  rewrite lengthZ_app.
  split; [exact Hat3|]. split; [reflexivity|]. split; [reflexivity|].
  split; [reflexivity|]. split; [reflexivity|].
  split; [exact A3|].
  split.
  { simpl. rewrite <- Hoff, P3, Hoff, Hpre. now rewrite map_app. }
  unfold extract_body. rewrite E1. cbv beta iota delta [negb].
  change (lengthZ (enc32 HXVF) =? sizeof_header) with true.
  change (le32 (enc32 HXVF)) with HXVF.
  change (HXVF =? HXVS) with false. change (HXVF =? HXVF) with true.
  cbv beta iota delta [negb]. rewrite E2. cbv beta iota delta [negb].
  change (lengthZ (enc32 (lengthZ p) ++ enc32 ts ++ [0; 0; 0; 0])
          =? sizeof_HXVFFrame_t) with true.
  cbv beta iota delta [negb].
  unfold hxvf_length, hxvf_timestamp.
  rewrite field32_0, field32_4, !le32_enc32 by assumption.
  rewrite E3. cbv beta iota delta [negb].
  rewrite to_int_small by lia.
  rewrite to_uint32_small by assumption.
  rewrite Z.ltb_irrefl, U3.
  change ((nal_unit_type p =? 7) || (nal_unit_type p =? 8))
    with (is_parameter_set p).
  destruct (is_parameter_set p).
  - rewrite valid_offset_true by (unfold INT_MAX in *; lia).
    rewrite Hoff. reflexivity.
  - unfold load_bytes.
    replace (lengthZ p + packet_buffer_offset st =? 0) with false
      by (symmetry; apply Z.eqb_neq; lia).
    replace ((lengthZ p + packet_buffer_offset st <? 0)
             || (alloc b <? lengthZ p + packet_buffer_offset st)) with false.
    2:{ symmetry. apply orb_false_iff. split; apply Z.ltb_ge; lia. }
    change (get_cells (Z.to_nat (lengthZ p + packet_buffer_offset st)) (cells b))
      with (buffer_prefix (Some b) (lengthZ p + packet_buffer_offset st)).
    rewrite (Z.add_comm (lengthZ p)), P3, Hoff, Hpre, <- map_app.
    destruct (pts_of _ _); [|reflexivity].
    rewrite in_int_range_true by (unfold INT_MAX in *; lia).
    reflexivity.
Qed.

Lemma extract_body_size env st w h rest :
  at_pos (x_file st) (encode_packet (Size_descriptor w h) ++ rest) ->
  extract_body env st =
  Next (x_with_file st {| f_data := f_data (x_file st);
                          f_pos := f_pos (x_file st) + 16;
                          f_eof := false |}).
Proof.
  intros H. unfold encode_packet in H. rewrite <- !app_assoc in H.
  destruct (fread_tag _ _ _ H) as [E1 [Hp1 _]].
  unfold extract_body. rewrite E1. cbv beta iota delta [negb].
  change (lengthZ (enc32 HXVS) =? sizeof_header) with true.
  change (le32 (enc32 HXVS)) with HXVS.
  change (HXVS =? HXVS) with true. cbv beta iota.
  rewrite fseek_cur_forward by (assumption || (unfold sizeof_HXVSFrame_t; lia)).
  unfold advance, sizeof_HXVSFrame_t; simpl. do 3 f_equal. lia.
Qed.

Lemma extract_body_end env st rest :
  at_pos (x_file st) (enc32 HXFI ++ rest) ->
  exists st',
    extract_body env st = Next st' /\
    x_hxfi_detected st' = true /\ calls st' = calls st.
Proof.
  intros H. destruct (fread_tag _ _ _ H) as [E1 _].
  unfold extract_body. rewrite E1. eexists. split; [reflexivity|].
  split; reflexivity.
Qed.

(** Fewer than four bytes are left where a tag is expected. *)
Lemma extract_body_at_end env st l :
  at_pos (x_file st) l -> lengthZ l < 4 ->
  exists st',
    extract_body env st = Abort Premature_end_of_file st' /\
    calls st' = calls st.
Proof.
  intros H Hl. unfold extract_body, sizeof_header.
  rewrite (fread_short _ 4 l H Hl). cbv beta iota.
  replace (lengthZ l =? 4) with false by (symmetry; apply Z.eqb_neq; lia).
  eexists. split; reflexivity.
Qed.

Lemma infer_body_at_end st l :
  at_pos (in_file st) l -> lengthZ l < 4 ->
  exists st', infer_body st = Abort Premature_end_of_file st'.
Proof.
  intros H Hl. unfold infer_body, sizeof_header.
  rewrite (fread_short _ 4 l H Hl). cbv beta iota.
  replace (lengthZ l =? 4) with false by (symmetry; apply Z.eqb_neq; lia).
  eexists. reflexivity.
Qed.

(** A read that finds fewer bytes than asked for takes all that is left and
    returns their number; the block was made large enough for the bytes asked
    for all the same. *)
Lemma ReadToBuffer_short fp dest off size n l :
  at_pos fp l -> lengthZ l < n -> sized dest size ->
  exists buf,
    ReadToBuffer fp dest off n size =
    (lengthZ l,
     {| f_data := f_data fp; f_pos := f_pos fp + lengthZ l; f_eof := true |},
     Some buf, n + off) /\
    n + off <= alloc buf.
Proof.
  intros H Hl Hsz. pose proof (lengthZ_nonneg l). unfold ReadToBuffer.
  replace (n =? 0) with false by (symmetry; apply Z.eqb_neq; lia).
  rewrite (fread_short _ n l H Hl).
  eexists. split; [reflexivity|].
  simpl. destruct dest as [b|]; simpl; [|lia].
  destruct (Z.ltb_spec size (n + off)).
  - destruct (negb (off =? 0)); simpl; lia.
  - simpl in Hsz. lia.
Qed.

Lemma extract_body_video_truncated env st len ts rest :
  at_pos (x_file st) (video_header len ts ++ rest) ->
  uint32_range len -> uint32_range ts -> buffer_ok st ->
  lengthZ rest < len ->
  exists st',
    extract_body env st = Abort Premature_end_of_file st' /\
    calls st' = calls st.
Proof.
  intros H Hlen Hts Hok Hshort.
  pose proof (lengthZ_nonneg rest) as Hr.
  unfold video_header in H. rewrite <- !app_assoc in H.
  destruct (fread_tag _ _ _ H) as [E1 H1].
  assert (H1' : at_pos (advance 4 (x_file st))
                  ((enc32 len ++ enc32 ts ++ [0; 0; 0; 0]) ++ rest))
    by now rewrite <- !app_assoc.
  destruct (fread_exact _ sizeof_HXVFFrame_t _ _ H1' eq_refl) as [E2 H2].
  destruct (ReadToBuffer_short _ (packet_buffer st) (packet_buffer_offset st)
              (packet_buffer_length st) len rest H2 Hshort Hok)
    as (b & E3 & _).
  unfold extract_body. rewrite E1. cbv beta iota delta [negb].
  change (lengthZ (enc32 HXVF) =? sizeof_header) with true.
  change (le32 (enc32 HXVF)) with HXVF.
  change (HXVF =? HXVS) with false. change (HXVF =? HXVF) with true.
  cbv beta iota. rewrite E2. cbv beta iota.
  change (lengthZ (enc32 len ++ enc32 ts ++ [0; 0; 0; 0])
          =? sizeof_HXVFFrame_t) with true.
  cbv beta iota.
  unfold hxvf_length, hxvf_timestamp.
  rewrite field32_0, !le32_enc32 by assumption.
  rewrite E3. cbv beta iota.
  rewrite to_uint32_to_int, to_uint32_small
    by (unfold uint32_range in *; lia).
  replace (lengthZ rest <? len) with true by (symmetry; apply Z.ltb_lt; lia).
  eexists. split; reflexivity.
Qed.

Lemma hxaf_payload_size_range len : uint32_range (hxaf_payload_size len).
Proof.
  unfold uint32_range, hxaf_payload_size, to_uint32.
  apply Z.mod_pos_bound. lia.
Qed.

(** The state of the second pass once the tag and the header of an audio
    packet are read: [ReadToBuffer] is called with the size computed from the
    declared length if there is an audio stream, [fseek] with it if not. *)
Lemma extract_body_audio_header env st len ts rest :
  at_pos (x_file st) (audio_header len ts ++ rest) ->
  uint32_range len -> uint32_range ts ->
  at_pos (advance 20 (x_file st)) rest /\
  extract_body env st =
  if has_a_stream env then
    let '(n, f3, buf, blen) :=
      ReadToBuffer (advance 20 (x_file st)) (packet_buffer st) 0
        (hxaf_payload_size len) (packet_buffer_length st) in
    let st1 := x_after_read st f3 buf blen in
    if to_uint32 (to_int n) <? hxaf_payload_size len then
      Abort Premature_end_of_file st1
    else
      match load_bytes buf (to_int n),
            pts_of (ts - env_audio_ts_initial env) (a_time_base env) with
      | Some data, Some pts =>
          Next (x_write_frame st1 (packet_buffer_offset st) a_stream data pts)
      | _, _ => Undefined st1
      end
  else
    Next (x_with_file st
            {| f_data := f_data (x_file st);
               f_pos := f_pos (x_file st) + 20 + hxaf_payload_size len;
               f_eof := false |}).
Proof.
  intros H Hlen Hts.
  unfold audio_header in H. rewrite <- !app_assoc in H.
  destruct (fread_tag _ _ _ H) as [E1 H1].
  assert (H1' : at_pos (advance 4 (x_file st))
                  ((enc32 len ++ enc32 ts ++ [0; 0; 0; 0; 0; 0; 0; 0])
                   ++ rest))
    by now rewrite <- !app_assoc.
  destruct (fread_exact _ sizeof_HXAFFrame_t _ _ H1' eq_refl) as [E2 H2].
  assert (EA : advance sizeof_HXAFFrame_t (advance 4 (x_file st))
               = advance 20 (x_file st)).
  { unfold advance, sizeof_HXAFFrame_t; simpl. f_equal. lia. }
  rewrite EA in *.
  split; [exact H2|].
  unfold extract_body. rewrite E1. cbv beta iota delta [negb].
  change (lengthZ (enc32 HXAF) =? sizeof_header) with true.
  change (le32 (enc32 HXAF)) with HXAF.
  change (HXAF =? HXVS) with false. change (HXAF =? HXVF) with false.
  change (HXAF =? HXAF) with true.
  cbv beta iota. rewrite E2. cbv beta iota.
  change (lengthZ (enc32 len ++ enc32 ts ++ [0; 0; 0; 0; 0; 0; 0; 0])
          =? sizeof_HXAFFrame_t) with true.
  cbv beta iota.
  unfold hxaf_length, hxaf_timestamp.
  rewrite field32_0, field32_4, !le32_enc32 by assumption.
  destruct (has_a_stream env); [reflexivity|].
  pose proof (hxaf_payload_size_range len) as Hs. unfold uint32_range in Hs.
  destruct H2 as [Hp2 _].
  rewrite fseek_cur_forward by (assumption || lia).
  reflexivity.
Qed.

(** ** The loops *)

Lemma extract_loop_step env st st' :
  extract_body env st = Next st' ->
  f_eof (x_file st') = false -> x_hxfi_detected st' = false ->
  forall fuel, extract_loop env (S fuel) st = extract_loop env fuel st'.
Proof.
  intros E He Hh fuel. simpl. rewrite E. unfold feof. now rewrite He, Hh.
Qed.

Lemma infer_loop_step st st' :
  infer_body st = Next st' ->
  f_eof (in_file st') = false -> hxfi_detected st' = false ->
  forall fuel, infer_loop (S fuel) st = infer_loop fuel st'.
Proof.
  intros E He Hh fuel. simpl. rewrite E. unfold feof. now rewrite He, Hh.
Qed.

Lemma app_one_neq {A : Type} (l : list A) (x : A) : l ++ [x] <> l.
Proof.
  intros E. apply (f_equal (@length A)) in E.
  rewrite length_app in E. simpl in E. lia.
Qed.

Lemma is_parameter_set_iff p :
  is_parameter_set p = true <->
  Z.land (nth 4 p 0) 31 = 7 \/ Z.land (nth 4 p 0) 31 = 8.
Proof.
  unfold is_parameter_set, nal_unit_type.
  rewrite orb_true_iff, !Z.eqb_eq. reflexivity.
Qed.

(** The loop carries on after a parameter set, which it keeps pending. *)
Lemma extract_loop_withheld env st ts p rest acc :
  at_pos (x_file st) (encode_packet (Video_frame ts p) ++ rest) ->
  f_eof (x_file st) = false -> x_hxfi_detected st = false ->
  uint32_range ts -> 5 <= lengthZ p ->
  pending st acc -> buffer_ok st ->
  lengthZ acc + lengthZ p <= INT_MAX ->
  is_parameter_set p = true ->
  exists st',
    (forall fuel, extract_loop env (S fuel) st = extract_loop env fuel st') /\
    at_pos (x_file st') rest /\
    f_eof (x_file st') = false /\ x_hxfi_detected st' = false /\
    buffer_ok st' /\ pending st' (acc ++ p) /\ calls st' = calls st.
Proof.
  intros Hat He Hh Hts H5 Hpend Hok Hmax Hps.
  destruct (extract_body_video env st ts p rest acc Hat Hts H5 Hpend Hok Hmax)
    as (st1 & Hat1 & He1 & Hh1 & Hc & _ & Hok1 & Hpre & E).
  rewrite Hps in E.
  exists (x_with_offset st1 (lengthZ (acc ++ p))).
  split.
  { apply extract_loop_step; [exact E| |]; simpl; congruence. }
  split; [exact Hat1|]. split; [simpl; congruence|].
  split; [simpl; congruence|]. split; [exact Hok1|].
  split; [split; [reflexivity|exact Hpre]|exact Hc].
Qed.

(** The loop carries on after any other payload, which it writes out behind
    the pending bytes. *)
Lemma extract_loop_written env st ts p rest acc pts :
  at_pos (x_file st) (encode_packet (Video_frame ts p) ++ rest) ->
  f_eof (x_file st) = false -> x_hxfi_detected st = false ->
  uint32_range ts -> 5 <= lengthZ p ->
  pending st acc -> buffer_ok st ->
  lengthZ acc + lengthZ p <= INT_MAX ->
  is_parameter_set p = false ->
  pts_of (ts - env_video_ts_initial env) (v_time_base env) = Some pts ->
  exists st',
    (forall fuel, extract_loop env (S fuel) st = extract_loop env fuel st') /\
    at_pos (x_file st') rest /\
    f_eof (x_file st') = false /\ x_hxfi_detected st' = false /\
    buffer_ok st' /\ pending st' [] /\
    calls st' =
    calls st ++ [av_interleaved_write_frame v_stream (map Byte (acc ++ p)) pts].
Proof.
  intros Hat He Hh Hts H5 Hpend Hok Hmax Hps Hpts.
  destruct (extract_body_video env st ts p rest acc Hat Hts H5 Hpend Hok Hmax)
    as (st1 & Hat1 & He1 & Hh1 & Hc & _ & Hok1 & Hpre & E).
  rewrite Hps, Hpts in E.
  exists (x_write_frame st1 0 v_stream (map Byte (acc ++ p)) pts).
  split.
  { apply extract_loop_step; [exact E| |]; simpl; congruence. }
  split; [exact Hat1|]. split; [simpl; congruence|].
  split; [simpl; congruence|]. split; [exact Hok1|].
  split; [split; reflexivity|]. simpl. now rewrite Hc.
Qed.



Lemma encode_cons p ps : encode (p :: ps) = encode_packet p ++ encode ps.
Proof. reflexivity. Qed.

Lemma encode_app ps qs : encode (ps ++ qs) = encode ps ++ encode qs.
Proof. unfold encode. apply flat_map_app. Qed.

(** ** The first pass over a packet sequence *)

Lemma lengthZ_video_header len ts : lengthZ (video_header len ts) = 16.
Proof. reflexivity. Qed.

Lemma lengthZ_audio_header len ts : lengthZ (audio_header len ts) = 20.
Proof. reflexivity. Qed.

Lemma infer_body_packet st p rest :
  data_packet p ->
  at_pos (in_file st) (encode_packet p ++ rest) ->
  f_eof (in_file st) = false ->
  infer_body st = Next (track st p) /\
  at_pos (in_file (track st p)) rest /\
  f_eof (in_file (track st p)) = false /\
  hxfi_detected (track st p) = hxfi_detected st.
Proof.
  intros Hp Hat He.
  assert (Hat' : at_pos (past (lengthZ (encode_packet p)) (in_file st)) rest)
    by (apply (at_pos_skip _ (encode_packet p)); [exact Hat|reflexivity]).
  destruct p as [w h|w h|ts payload|ts samples|]; simpl in Hp; try contradiction;
    destruct Hp as [H1 H2].
  - split; [|repeat split; try exact Hat'; apply Hat'].
    rewrite (infer_body_size st w h rest Hat H1 H2).
    unfold track, past, advance. rewrite He. reflexivity.
  - split; [|repeat split; try exact Hat'; apply Hat'].
    unfold encode_packet in Hat. rewrite <- app_assoc in Hat.
    rewrite (infer_body_video st _ ts _ Hat H2 H1).
    unfold track, past.
    change (encode_packet (Video_frame ts payload))
      with (video_header (lengthZ payload) ts ++ payload).
    rewrite lengthZ_app, lengthZ_video_header, Z.add_assoc. reflexivity.
  - split; [|repeat split; try exact Hat'; apply Hat'].
    unfold encode_packet in Hat. rewrite <- app_assoc in Hat.
    rewrite (infer_body_audio st _ ts _ Hat H2 H1).
    assert (Hsz : hxaf_payload_size (lengthZ samples + 4) = lengthZ samples).
    { unfold hxaf_payload_size.
      replace (lengthZ samples + 4 - 4) with (lengthZ samples) by lia.
      apply to_uint32_small. pose proof (lengthZ_nonneg samples).
      unfold uint32_range in *. lia. }
    rewrite Hsz. unfold track, past.
    change (encode_packet (Audio_frame ts samples))
      with (audio_header (lengthZ samples + 4) ts ++ samples).
    rewrite lengthZ_app, lengthZ_audio_header, Z.add_assoc. reflexivity.
Qed.

Lemma infer_loop_packets ps :
  forall st rest,
    Forall data_packet ps ->
    at_pos (in_file st) (encode ps ++ rest) ->
    f_eof (in_file st) = false -> hxfi_detected st = false ->
    (forall fuel,
        infer_loop (length ps + fuel) st
        = infer_loop fuel (fold_left track ps st)) /\
    at_pos (in_file (fold_left track ps st)) rest /\
    f_eof (in_file (fold_left track ps st)) = false /\
    hxfi_detected (fold_left track ps st) = false.
Proof.
  induction ps as [|p ps IH]; intros st rest Hall Hat He Hh.
  - simpl in *. split; [reflexivity|]. split; [exact Hat|]. now split.
  - inversion Hall as [|? ? Hp Hps]; subst.
    rewrite encode_cons, <- app_assoc in Hat.
    destruct (infer_body_packet st p _ Hp Hat He) as (E & Hat1 & He1 & Hh1).
    rewrite Hh in Hh1.
    destruct (IH (track st p) rest Hps Hat1 He1 Hh1) as (R & Hat2 & He2 & Hh2).
    simpl fold_left. split; [|split; [exact Hat2|now split]].
    intros fuel. simpl length. simpl Nat.add.
    rewrite (infer_loop_step st (track st p) E He1 Hh1). apply R.
Qed.

Lemma length_encode_packet_pos p : (1 <= length (encode_packet p))%nat.
Proof.
  destruct p; simpl; lia.
Qed.

Lemma length_encode ps : (length ps <= length (encode ps))%nat.
Proof.
  induction ps as [|p ps IH]; simpl; [lia|].
  rewrite length_app. pose proof (length_encode_packet_pos p). lia.
Qed.

Lemma at_pos_fopen data : at_pos (fopen data) data.
Proof.
  split; [simpl; lia|]. unfold remaining. simpl.
  rewrite dropZ_skipn. reflexivity.
Qed.

Lemma f_data_fold_track ps :
  forall st, f_data (in_file (fold_left track ps st)) = f_data (in_file st).
Proof.
  induction ps as [|p ps IH]; intros st; simpl; [reflexivity|].
  rewrite IH. destruct p; reflexivity.
Qed.

(** The first pass on a sequence of packets closed by the end marker. *)
Lemma inference_pass_packets ps :
  Forall data_packet ps ->
  let data := encode (ps ++ [End_of_stream]) in
  let st := fold_left track ps (infer_init (fopen data)) in
  inference_pass (fopen data) =
  if Qle_bool (video_avg_frame_rate st) 0
  then Abort No_video_detected (finish st)
  else Next (finish st).
Proof.
  intros Hall data st.
  assert (Hat : at_pos (in_file (infer_init (fopen data)))
                  (encode ps ++ encode [End_of_stream]))
    by (unfold data; rewrite encode_app; apply at_pos_fopen).
  destruct (infer_loop_packets ps _ _ Hall Hat eq_refl eq_refl)
    as (R & Hat1 & He1 & Hh1).
  fold st in R, Hat1, He1, Hh1.
  unfold inference_pass, enough_fuel.
  assert (Hfuel : S (length (f_data (fopen data)))
                  = (length ps + S (length data - length ps))%nat).
  { simpl. pose proof (length_encode (ps ++ [End_of_stream])) as Hl.
    fold data in Hl. rewrite length_app in Hl. simpl in Hl. lia. }
  rewrite Hfuel, R.
  change (encode [End_of_stream]) with (enc32 HXFI ++ repeat 0 16) in Hat1.
  simpl infer_loop. rewrite (infer_body_end st _ Hat1).
  unfold feof. cbn [hxfi_detected in_file negb andb].
  rewrite andb_false_r.
  unfold rewind, with_file, finish, video_avg_frame_rate.
  cbn [in_file hxfi_detected video_w video_h video audio unknown_headers
       advance f_data f_pos f_eof].
  reflexivity.
Qed.

(** ** What the two loops can and cannot do, on any file *)

Ltac split_matches :=
  repeat match goal with
         | |- context [match ?x with _ => _ end] => destruct x eqn:?
         end.

Lemma infer_body_abort st d st' :
  infer_body st = Abort d st' -> d = Premature_end_of_file.
Proof.
  unfold infer_body. split_matches; intros H; inversion H; reflexivity.
Qed.

Lemma infer_loop_abort fuel :
  forall st d st',
    infer_loop fuel st = Abort d st' -> d = Premature_end_of_file.
Proof.
  induction fuel as [|fuel IH]; intros st d st'; simpl; [discriminate|].
  destruct (infer_body st) as [s|d0 s|s|] eqn:E; try discriminate.
  - destruct (negb (feof (in_file s)) && negb (hxfi_detected s)).
    + apply IH.
    + discriminate.
  - intros H. inversion H; subst. exact (infer_body_abort _ _ _ E).
Qed.



Lemma no_audio_call_app tr c :
  no_audio_call tr -> is_audio_call c = false -> no_audio_call (tr ++ [c]).
Proof.
  intros H Hc. apply Forall_app. split; [exact H|].
  apply Forall_cons; [exact Hc|apply Forall_nil].
Qed.



(** ** The time references the first pass infers *)





(** ** The second pass over video packets *)


Lemma lengthZ_encode_cons p ps :
  lengthZ (encode (p :: ps)) = lengthZ (encode_packet p) + lengthZ (encode ps).
Proof. rewrite encode_cons. apply lengthZ_app. Qed.


Lemma extract_loop_video_only env ps :
  forall st acc rest,
    Forall video_only_packet ps ->
    at_pos (x_file st) (encode ps ++ rest) ->
    f_eof (x_file st) = false -> x_hxfi_detected st = false ->
    pending st acc -> buffer_ok st ->
    lengthZ acc + lengthZ (encode ps) <= INT_MAX ->
    (forall ts p,
        In (Video_frame ts p) ps ->
        pts_of (ts - env_video_ts_initial env) (v_time_base env) <> None) ->
    no_audio_call (calls st) ->
    exists st',
      (forall fuel,
          extract_loop env (length ps + fuel) st = extract_loop env fuel st') /\
      at_pos (x_file st') rest /\
      f_eof (x_file st') = false /\ x_hxfi_detected st' = false /\
      no_audio_call (calls st').
Proof.
  induction ps as [|p ps IH];
    intros st acc rest Hall Hat He Hh Hpend Hok Hmax Hpts Hc.
  - exists st. simpl in Hat. split; [reflexivity|]. repeat (split; [assumption|]). assumption.
  - inversion Hall as [|? ? Hp Hps]; subst.
    rewrite encode_cons, <- app_assoc in Hat.
    rewrite lengthZ_encode_cons in Hmax.
    pose proof (lengthZ_nonneg (encode ps)) as Hn.
    pose proof (lengthZ_nonneg acc) as Hna.
    pose proof (lengthZ_nonneg (encode_packet p)) as Hnp.
    assert (Hpts' : forall ts q,
               In (Video_frame ts q) ps ->
               pts_of (ts - env_video_ts_initial env) (v_time_base env)
               <> None)
      by (intros ts q Hin; apply (Hpts ts q); right; exact Hin).
    destruct p as [w h|w h|ts payload|ts samples|]; simpl in Hp;
      try contradiction.
    + (* size descriptor *)
      pose proof (extract_body_size env st w h _ Hat) as E.
      match type of E with _ = Next ?s => set (s1 := s) in * end.
      assert (Hat1 : at_pos (x_file s1) (encode ps ++ rest))
        by (apply (at_pos_skip _ (encode_packet (Size_descriptor w h)));
            [exact Hat|reflexivity]).
      destruct (IH s1 acc rest Hps Hat1 eq_refl Hh Hpend Hok
                  ltac:(lia) Hpts' Hc)
        as (st' & R & Hat' & He' & Hh' & Hc').
      exists st'. split; [|repeat (split; [assumption|]); assumption].
      intros fuel. simpl length. simpl Nat.add.
      rewrite (extract_loop_step env st s1 E eq_refl Hh). apply R.
    + (* video frame *)
      destruct Hp as [Hts H5].
      change (encode_packet (Video_frame ts payload))
        with (video_header (lengthZ payload) ts ++ payload) in Hmax.
      rewrite lengthZ_app, lengthZ_video_header in Hmax.
      destruct (is_parameter_set payload) eqn:Eps.
      * destruct (extract_loop_withheld env st ts payload _ acc Hat He Hh Hts
                    H5 Hpend Hok ltac:(lia) Eps)
          as (s1 & R1 & Hat1 & He1 & Hh1 & Hok1 & Hpend1 & Hc1).
        destruct (IH s1 (acc ++ payload) rest Hps Hat1 He1 Hh1 Hpend1 Hok1
                    ltac:(rewrite lengthZ_app; lia) Hpts'
                    ltac:(rewrite Hc1; exact Hc))
          as (st' & R & Hat' & He' & Hh' & Hc').
        exists st'. split; [|repeat (split; [assumption|]); assumption].
        intros fuel. simpl length. simpl Nat.add. rewrite R1. apply R.
      * destruct (pts_of (ts - env_video_ts_initial env) (v_time_base env))
          as [pts|] eqn:Epts;
          [|exfalso; apply (Hpts ts payload); [left; reflexivity|exact Epts]].
        destruct (extract_loop_written env st ts payload _ acc pts Hat He Hh
                    Hts H5 Hpend Hok ltac:(lia) Eps Epts)
          as (s1 & R1 & Hat1 & He1 & Hh1 & Hok1 & Hpend1 & Hc1).
        destruct (IH s1 [] rest Hps Hat1 He1 Hh1 Hpend1 Hok1
                    ltac:(change (lengthZ (@nil Z)) with 0; lia) Hpts'
                    ltac:(rewrite Hc1; apply no_audio_call_app;
                          [exact Hc|reflexivity]))
          as (st' & R & Hat' & He' & Hh' & Hc').
        exists st'. split; [|repeat (split; [assumption|]); assumption].
        intros fuel. simpl length. simpl Nat.add. rewrite R1. apply R.
Qed.

(** ** Time stamps *)

Lemma Qle_bool_comp_r x q q' : (q == q')%Q -> Qle_bool x q = Qle_bool x q'.
Proof.
  intros E. destruct (Qle_bool x q) eqn:A, (Qle_bool x q') eqn:B;
    try reflexivity.
  - apply Qle_bool_iff in A. rewrite E in A. apply Qle_bool_iff in A.
    congruence.
  - apply Qle_bool_iff in B. rewrite <- E in B. apply Qle_bool_iff in B.
    congruence.
Qed.

Lemma c_round_comp q q' : (q == q')%Q -> c_round q = c_round q'.
Proof.
  intros E. unfold c_round. rewrite (Qle_bool_comp_r 0 q q' E).
  destruct (Qle_bool 0 q').
  - apply Qfloor_comp. now rewrite E.
  - f_equal. apply Qfloor_comp. now rewrite E.
Qed.

Lemma c_round_inject_Z z : c_round (inject_Z z) = z.
Proof.
  unfold c_round, Qle_bool, Qfloor, inject_Z, Qplus, Qopp; simpl.
  destruct (Z.leb_spec 0 (z * 1)).
  - symmetry. apply (Z.div_unique _ _ _ 1); lia.
  - assert (E : (- z * 2 + 1) / 2 = - z)
      by (symmetry; apply (Z.div_unique _ _ _ 1); lia).
    rewrite E. lia.
Qed.

(** *** Rounding to the nearest double *)



















(** An audio packet whose samples are all there, with an audio stream. *)
Lemma extract_body_audio env st ts samples rest pts :
  at_pos (x_file st) (encode_packet (Audio_frame ts samples) ++ rest) ->
  uint32_range ts -> 0 < lengthZ samples <= INT_MAX ->
  buffer_ok st -> has_a_stream env = true ->
  pts_of (ts - env_audio_ts_initial env) (a_time_base env) = Some pts ->
  exists st',
    extract_body env st = Next st' /\
    at_pos (x_file st') rest /\
    packet_buffer_offset st' = packet_buffer_offset st /\
    calls st' =
    calls st ++ [av_interleaved_write_frame a_stream (map Byte samples) pts] /\
    buffer_prefix (packet_buffer st') (lengthZ samples) = map Byte samples.
Proof.
  intros Hat Hts Hlen Hok Hyes Hpts.
  unfold encode_packet in Hat. rewrite <- app_assoc in Hat.
  assert (Hl4 : uint32_range (lengthZ samples + 4))
    by (unfold uint32_range, INT_MAX in *; lia).
  destruct (extract_body_audio_header env st _ ts _ Hat Hl4 Hts) as [Hat2 E].
  assert (Hsz : hxaf_payload_size (lengthZ samples + 4) = lengthZ samples).
  { unfold hxaf_payload_size.
    replace (lengthZ samples + 4 - 4) with (lengthZ samples) by lia.
    apply to_uint32_small. unfold uint32_range, INT_MAX in *. lia. }
  rewrite Hyes, Hsz in E.
  destruct (ReadToBuffer_payload _ (packet_buffer st) 0
              (packet_buffer_length st) samples rest Hat2)
    as (b & E3 & P3 & A3 & _); [lia | lia | exact Hok |].
  rewrite E3 in E. cbv beta iota in E.
  rewrite to_int_small in E by lia.
  rewrite to_uint32_small in E by (unfold uint32_range, INT_MAX in *; lia).
  rewrite Z.ltb_irrefl, Hpts in E.
  unfold load_bytes in E.
  replace (lengthZ samples =? 0) with false in E
    by (symmetry; apply Z.eqb_neq; lia).
  replace ((lengthZ samples <? 0) || (alloc b <? lengthZ samples))
    with false in E.
  2:{ symmetry. apply orb_false_iff. split; apply Z.ltb_ge; lia. }
  change (get_cells (Z.to_nat (lengthZ samples)) (cells b))
    with (buffer_prefix (Some b) (lengthZ samples)) in E.
  change (buffer_prefix (packet_buffer st) 0) with (@nil memval) in P3.
  change (0 + lengthZ samples) with (lengthZ samples) in P3.
  simpl app in P3. rewrite P3 in E.
  eexists. split; [exact E|].
  split; [|split; [reflexivity|split; [reflexivity|exact P3]]].
  destruct (fread_exact _ (lengthZ samples) _ _ Hat2 eq_refl) as [_ H3].
  exact H3.
Qed.

(** The samples of an audio packet land at the start of the buffer the
    coalescer keeps its pending bytes in, and [packet_buffer_offset] is left
    as it was: pending bytes that differ from the samples are lost. *)
Lemma audio_read_breaks_pending env st ts samples rest pts acc :
  at_pos (x_file st) (encode_packet (Audio_frame ts samples) ++ rest) ->
  uint32_range ts -> 0 < lengthZ samples <= INT_MAX ->
  buffer_ok st -> has_a_stream env = true ->
  pts_of (ts - env_audio_ts_initial env) (a_time_base env) = Some pts ->
  pending st acc -> lengthZ samples <= lengthZ acc ->
  firstn (length samples) acc <> samples ->
  exists st', extract_body env st = Next st' /\ ~ pending st' acc.
Proof.
  intros Hat Hts Hlen Hok Hyes Hpts [Hoff Hpre] Hle Hne.
  destruct (extract_body_audio env st ts samples rest pts Hat Hts Hlen Hok
              Hyes Hpts) as (st' & E & _ & _ & _ & Hbuf).
  exists st'. split; [exact E|]. intros [_ Hpre'].
  apply Hne.
  assert (Hf : firstn (Z.to_nat (lengthZ samples))
                 (buffer_prefix (packet_buffer st') (lengthZ acc))
               = buffer_prefix (packet_buffer st') (lengthZ samples)).
  { unfold buffer_prefix. apply firstn_get_cells. lia. }
  rewrite Hpre', Hbuf in Hf. unfold lengthZ in Hf. rewrite Nat2Z.id in Hf.
  rewrite firstn_map in Hf.
  clear - Hf. revert Hf. generalize (firstn (length samples) acc).
  induction samples as [|x xs IH]; intros [|y ys]; simpl; try discriminate;
    [reflexivity|].
  intros H. injection H as -> H. f_equal. now apply IH.
Qed.

(** ** Termination: the fuel given to the loops is enough *)

Lemma bytes_takeZ n l : bytes l -> bytes (takeZ n l).
Proof.
  intros H. rewrite takeZ_firstn. unfold bytes in *.
  rewrite <- (firstn_skipn (Z.to_nat n) l) in H.
  apply Forall_app in H. tauto.
Qed.

Lemma bytes_dropZ n l : bytes l -> bytes (dropZ n l).
Proof.
  intros H. rewrite dropZ_skipn. unfold bytes in *.
  rewrite <- (firstn_skipn (Z.to_nat n) l) in H.
  apply Forall_app in H. tauto.
Qed.

Lemma le32_nonneg l : bytes l -> 0 <= le32 l.
Proof.
  intros H. unfold le32.
  destruct l as [|b0 [|b1 [|b2 [|b3 [|b4 l]]]]]; try lia.
  inversion H as [|? ? H0 T0]; subst. inversion T0 as [|? ? H1 T1]; subst.
  inversion T1 as [|? ? H2 T2]; subst. inversion T2 as [|? ? H3 ?]; subst.
  lia.
Qed.

Lemma field32_nonneg d off : bytes d -> 0 <= field32 d off.
Proof. intros H. apply le32_nonneg, bytes_takeZ, bytes_dropZ, H. Qed.

Lemma lengthZ_remaining fp :
  0 <= f_pos fp ->
  lengthZ (remaining fp) = Z.max 0 (lengthZ (f_data fp) - f_pos fp).
Proof.
  intros H. unfold remaining, lengthZ. rewrite dropZ_skipn, length_skipn. lia.
Qed.

Lemma fread_inv n fp got fp' :
  fread n fp = (got, fp') ->
  f_data fp' = f_data fp /\
  f_pos fp' = f_pos fp + lengthZ got /\
  0 <= lengthZ got /\
  (0 <= f_pos fp ->
   lengthZ got <= Z.max 0 (lengthZ (f_data fp) - f_pos fp)) /\
  (bytes (f_data fp) -> bytes got).
Proof.
  unfold fread. intros H. inversion H; subst; clear H. simpl.
  split; [reflexivity|]. split; [reflexivity|].
  split; [apply lengthZ_nonneg|]. split.
  - intros Hp. rewrite <- (lengthZ_remaining fp Hp). unfold remaining.
    unfold lengthZ. rewrite takeZ_firstn, length_firstn. lia.
  - intros Hb. apply bytes_takeZ, bytes_dropZ, Hb.
Qed.

Lemma fseek_cur_inv off fp fp' :
  fseek_cur off fp = Some fp' ->
  f_data fp' = f_data fp /\ f_pos fp' = f_pos fp + off.
Proof.
  unfold fseek_cur. destruct (f_pos fp + off <? 0); [discriminate|].
  intros H. inversion H; subst. split; reflexivity.
Qed.

Lemma ReadToBuffer_inv fp dest off len size n fp' buf sz :
  ReadToBuffer fp dest off len size = (n, fp', buf, sz) ->
  f_data fp' = f_data fp /\ f_pos fp <= f_pos fp'.
Proof.
  unfold ReadToBuffer. destruct (len =? 0).
  - intros H. inversion H; subst. split; [reflexivity|lia].
  - destruct (fread len fp) as [got f] eqn:E. intros H. inversion H; subst.
    apply fread_inv in E. destruct E as (E1 & E2 & E3 & _).
    split; [exact E1|lia].
Qed.

Lemma hxaf_payload_size_nonneg len : 0 <= hxaf_payload_size len.
Proof. apply hxaf_payload_size_range. Qed.

(** What the lemmas above tell about the reads and seeks of an iteration. *)
Ltac file_facts :=
  repeat match goal with
         | H : fread _ _ = (_, _) |- _ =>
             apply fread_inv in H; destruct H as (? & ? & ? & ? & ?)
         | H : fseek_cur _ _ = Some _ |- _ =>
             apply fseek_cur_inv in H; destruct H as (? & ?)
         | H : ReadToBuffer _ _ _ _ _ = (_, _, _, _) |- _ =>
             apply ReadToBuffer_inv in H; destruct H as (? & ?)
         | H : negb (_ =? _) = false |- _ =>
             apply negb_false_iff, Z.eqb_eq in H
         end.

(** An iteration of the first pass that carries on has moved forward by the
    four bytes of a tag at least, all of them inside the file. *)
Lemma infer_body_progress st st' :
  bytes (f_data (in_file st)) -> 0 <= f_pos (in_file st) ->
  infer_body st = Next st' ->
  f_data (in_file st') = f_data (in_file st) /\
  f_pos (in_file st) + 4 <= f_pos (in_file st') /\
  f_pos (in_file st) + 4 <= lengthZ (f_data (in_file st)).
Proof.
  intros Hb Hp. unfold infer_body.
  split_matches; intros H; inversion H; subst; clear H; file_facts;
    unfold sizeof_header, sizeof_HXVSFrame_t, sizeof_HXVFFrame_t,
           sizeof_HXAFFrame_t in *; cbn [in_file with_file];
    repeat match goal with
           | H : bytes (f_data (in_file st)) -> bytes ?d |- _ =>
               specialize (H Hb)
           | H : 0 <= f_pos (in_file st) -> _ |- _ => specialize (H Hp)
           end;
    try (pose proof (hxaf_payload_size_nonneg (hxaf_length l0)));
    try match goal with
        | Hd : f_data ?f = f_data (in_file st),
          Hbd : bytes (f_data ?f) -> bytes ?d |- _ =>
            rewrite Hd in Hbd; specialize (Hbd Hb);
            pose proof (field32_nonneg d 0 Hbd);
            unfold hxvf_length in *
        end;
    (split; [congruence|lia]).
Qed.

(** ** The end-of-file indicator *)

Lemma fread_eof n fp got fp' :
  fread n fp = (got, fp') -> lengthZ got = n -> f_eof fp' = f_eof fp.
Proof.
  unfold fread. intros H Hn. injection H as Hg Hf. subst fp'. simpl.
  rewrite Hg, Hn, Z.ltb_irrefl. apply orb_false_r.
Qed.

(** No iteration of the first pass that carries on leaves the indicator
    set: a read that comes short ends the run, a seek clears it. *)
Lemma infer_body_eof st st' :
  f_eof (in_file st) = false -> infer_body st = Next st' ->
  f_eof (in_file st') = false.
Proof.
  intros He. unfold infer_body.
  split_matches; intros H; inversion H; subst; clear H;
    repeat match goal with
           | H : negb (_ =? _) = false |- _ =>
               apply negb_false_iff, Z.eqb_eq in H
           end;
    repeat match goal with
           | H : fread ?n ?fp = (?got, ?fp'), L : lengthZ ?got = ?n |- _ =>
               apply (fun E => fread_eof _ _ _ _ E L) in H
           | H : fseek_cur _ _ = Some _ |- _ =>
               unfold fseek_cur in H;
               destruct (_ <? 0) in H; [discriminate|];
               inversion H; subst; clear H
           end;
    cbn [in_file with_file f_eof]; congruence.
Qed.

(** The first loop of [main] is left in one way only: an end-marker tag has
    been read. *)
Lemma infer_loop_ends_on_marker fuel :
  forall st st',
    f_eof (in_file st) = false ->
    infer_loop fuel st = Next st' -> hxfi_detected st' = true.
Proof.
  induction fuel as [|fuel IH]; intros st st' He; simpl; [discriminate|].
  destruct (infer_body st) as [s|d s|s|] eqn:E; try discriminate.
  pose proof (infer_body_eof st s He E) as He'.
  unfold feof. rewrite He'. simpl.
  destruct (hxfi_detected s) eqn:Hh; simpl.
  - intros H. inversion H; subst. exact Hh.
  - apply IH. exact He'.
Qed.

(** ** main *)



(** What [main] does once the first pass has succeeded. *)
Lemma main_after_inference skip_audio tb_v tb_a data st :
  inference_pass (fopen data) = Next st ->
  main skip_audio tb_v tb_a data =
  match extract_loop (env_of skip_audio tb_v tb_a st)
          (enough_fuel (in_file st))
          (extract_init (in_file st) (create_streams skip_audio st)) with
  | Next xs => Returned_0 (calls xs ++ [av_write_trailer])
  | Abort d xs => Exited_1 d (calls xs)
  | Undefined xs => Run_undefined (calls xs)
  | OutOfFuel => Run_out_of_fuel
  end.
Proof. intros E. unfold main. now rewrite E. Qed.



Lemma extract_body_progress env st st' :
  bytes (f_data (x_file st)) -> 0 <= f_pos (x_file st) ->
  extract_body env st = Next st' ->
  f_data (x_file st') = f_data (x_file st) /\
  f_pos (x_file st) + 4 <= f_pos (x_file st') /\
  f_pos (x_file st) + 4 <= lengthZ (f_data (x_file st)).
Proof.
  intros Hb Hp. unfold extract_body.
  split_matches; intros H; inversion H; subst; clear H; file_facts;
    unfold sizeof_header, sizeof_HXVSFrame_t, sizeof_HXVFFrame_t,
           sizeof_HXAFFrame_t in *;
    cbn [x_file x_with_file x_after_read x_write_frame x_with_offset];
    repeat match goal with
           | H : 0 <= f_pos (x_file st) -> _ |- _ => specialize (H Hp)
           end;
    try (pose proof (hxaf_payload_size_nonneg (hxaf_length l0)));
    (split; [congruence|lia]).
Qed.

Lemma infer_loop_terminates fuel :
  forall st,
    bytes (f_data (in_file st)) -> 0 <= f_pos (in_file st) ->
    Z.max 0 (lengthZ (f_data (in_file st)) - f_pos (in_file st))
    < Z.of_nat fuel ->
    infer_loop fuel st <> OutOfFuel.
Proof.
  induction fuel as [|fuel IH]; intros st Hb Hp Hm; [lia|].
  simpl. destruct (infer_body st) as [s|d s|s|] eqn:E; try discriminate.
  - destruct (infer_body_progress st s Hb Hp E) as (Hd & H4 & Hl).
    destruct (negb (feof (in_file s)) && negb (hxfi_detected s));
      [|discriminate].
    apply IH; rewrite ?Hd; [exact Hb|lia|lia].
  - exfalso. unfold infer_body in E. revert E. split_matches; discriminate.
Qed.

Lemma extract_loop_terminates env fuel :
  forall st,
    bytes (f_data (x_file st)) -> 0 <= f_pos (x_file st) ->
    Z.max 0 (lengthZ (f_data (x_file st)) - f_pos (x_file st))
    < Z.of_nat fuel ->
    extract_loop env fuel st <> OutOfFuel.
Proof.
  induction fuel as [|fuel IH]; intros st Hb Hp Hm; [lia|].
  simpl. destruct (extract_body env st) as [s|d s|s|] eqn:E; try discriminate.
  - destruct (extract_body_progress env st s Hb Hp E) as (Hd & H4 & Hl).
    destruct (negb (feof (x_file s)) && negb (x_hxfi_detected s));
      [|discriminate].
    apply IH; rewrite ?Hd; [exact Hb|lia|lia].
  - exfalso. unfold extract_body in E. revert E. split_matches; discriminate.
Qed.

Lemma infer_loop_file fuel :
  forall st st',
    infer_loop fuel st = Next st' ->
    f_data (in_file st') = f_data (in_file st).
Proof.
  induction fuel as [|fuel IH]; intros st st'; simpl; [discriminate|].
  destruct (infer_body st) as [s|d s|s|] eqn:E; try discriminate.
  assert (Hd : f_data (in_file s) = f_data (in_file st)).
  { unfold infer_body in E. revert E.
    split_matches; intros H; inversion H; subst; clear H; file_facts;
      cbn [in_file with_file]; congruence. }
  destruct (negb (feof (in_file s)) && negb (hxfi_detected s)).
  - intros H. rewrite (IH _ _ H). exact Hd.
  - intros H. inversion H; subst. exact Hd.
Qed.

(** On a file of bytes [main] comes to an end: the fuel of the model never
    runs out. *)
Theorem main_terminates skip_audio tb_v tb_a data :
  bytes data -> main skip_audio tb_v tb_a data <> Run_out_of_fuel.
Proof.
  intros Hb. unfold main, inference_pass.
  pose proof (infer_loop_terminates (enough_fuel (fopen data))
                (infer_init (fopen data)) Hb ltac:(simpl; lia)
                ltac:(unfold enough_fuel, lengthZ; simpl; lia)) as T1.
  destruct (infer_loop _ _) as [st|d s|s|] eqn:EL; try discriminate;
    [|contradiction].
  unfold rewind. destruct (Qle_bool _ 0); [discriminate|].
  apply infer_loop_file in EL. simpl in EL.
  set (st0 := with_file st _).
  pose proof (extract_loop_terminates (env_of skip_audio tb_v tb_a st0)
                (enough_fuel (in_file st0))
                (extract_init (in_file st0) (create_streams skip_audio st0)))
    as T2.
  destruct (extract_loop _ _ _) as [xs|d xs|xs|]; try discriminate.
  exfalso. refine (T2 _ _ _ eq_refl); unfold st0; simpl; rewrite ?EL;
    [exact Hb|lia|].
  unfold enough_fuel, lengthZ. simpl. lia.
Qed.

(** A file cut inside the payload of its last packet does not reach the
    second pass: the first pass seeks past the end, fails to read the next
    tag and exits; nothing is handed to the muxer. *)
Lemma main_truncated_video skip_audio tb_v tb_a ps len ts rest :
  Forall data_packet ps ->
  uint32_range len -> uint32_range ts -> lengthZ rest < len ->
  main skip_audio tb_v tb_a (encode ps ++ video_header len ts ++ rest)
  = Exited_1 Premature_end_of_file [].
Proof.
  intros Hall Hlen Hts Hshort.
  set (data := encode ps ++ video_header len ts ++ rest).
  assert (Hat : at_pos (in_file (infer_init (fopen data)))
                  (encode ps ++ video_header len ts ++ rest))
    by apply at_pos_fopen.
  destruct (infer_loop_packets ps _ _ Hall Hat eq_refl eq_refl)
    as (R & Hat1 & He1 & Hh1).
  set (st1 := fold_left track ps (infer_init (fopen data))) in *.
  pose proof (infer_body_video st1 len ts rest Hat1 Hlen Hts) as E2.
  match type of E2 with _ = Next ?s => set (st2 := s) in * end.
  assert (Hat2 : at_pos (in_file st2) []).
  { unfold st2; cbn [in_file]. rewrite <- Z.add_assoc.
    apply (at_pos_beyond _ (video_header len ts ++ rest)); [exact Hat1|].
    rewrite lengthZ_app, lengthZ_video_header. lia. }
  destruct (infer_body_at_end st2 [] Hat2 ltac:(reflexivity)) as (st3 & E3).
  unfold main, inference_pass, enough_fuel.
  assert (Hfuel : S (length (f_data (fopen data)))
                  = (length ps + S (S (length data - length ps - 1)))%nat).
  { simpl. unfold data. rewrite !length_app.
    pose proof (length_encode ps).
    assert (length (video_header len ts) = 16%nat) by reflexivity. lia. }
  rewrite Hfuel, R.
  rewrite (infer_loop_step st1 st2 E2 eq_refl Hh1).
  simpl infer_loop. rewrite E3. reflexivity.
Qed.

(** The second pass taken alone does the same on a file of size descriptors
    and video frames with no end marker: all packets are handled, then the
    read of one more tag ends the run. *)
Lemma extract_loop_no_end_marker env ps :
  Forall video_only_packet ps ->
  lengthZ (encode ps) <= INT_MAX ->
  (forall ts p,
      In (Video_frame ts p) ps ->
      pts_of (ts - env_video_ts_initial env) (v_time_base env) <> None) ->
  exists st',
    extract_loop env (enough_fuel (fopen (encode ps))) (start_on ps)
    = Abort Premature_end_of_file st'.
Proof.
  intros Hall Hmax Hpts.
  assert (Hat : at_pos (x_file (start_on ps)) (encode ps ++ []))
    by (rewrite app_nil_r; apply at_pos_fopen).
  destruct (extract_loop_video_only env ps (start_on ps) [] [] Hall Hat
              eq_refl eq_refl (conj eq_refl eq_refl) I
              ltac:(change (lengthZ (@nil Z)) with 0; lia) Hpts
              (Forall_nil _))
    as (st1 & R & Hat1 & _ & _ & _).
  destruct (extract_body_at_end env st1 [] Hat1 ltac:(reflexivity))
    as (st' & E & _).
  exists st'. unfold enough_fuel.
  assert (Hfuel : S (length (f_data (fopen (encode ps))))
                  = (length ps + S (length (encode ps) - length ps))%nat).
  { simpl. pose proof (length_encode ps). lia. }
  rewrite Hfuel, R. simpl extract_loop. now rewrite E.
Qed.

(** ** The rate the first pass infers from regular frames *)





(** * The claims *)

(** C1 (the code does not do this).  A file that is a sequence of size
    descriptors, video frames and audio frames and has no end marker is never
    processed to the end: the first pass reads the last packet, finds the
    end-of-file indicator still clear, tries to read one more tag and exits
    with "Premature end of file"; nothing is handed to the muxer. *)
Theorem C1_no_end_marker_aborts ps skip_audio tb_v tb_a :
  Forall data_packet ps ->
  main skip_audio tb_v tb_a (encode ps) = Exited_1 Premature_end_of_file [].
Proof.
  intros Hall.
  assert (Hat : at_pos (in_file (infer_init (fopen (encode ps))))
                  (encode ps ++ []))
    by (rewrite app_nil_r; apply at_pos_fopen).
  destruct (infer_loop_packets ps _ _ Hall Hat eq_refl eq_refl)
    as (R & Hat1 & _ & _).
  destruct (infer_body_at_end _ [] Hat1 ltac:(reflexivity)) as (st' & E).
  unfold main, inference_pass, enough_fuel.
  assert (Hfuel : S (length (f_data (fopen (encode ps))))
                  = (length ps + S (length (encode ps) - length ps))%nat).
  { simpl. pose proof (length_encode ps). lia. }
  rewrite Hfuel, R. simpl infer_loop. rewrite E. reflexivity.
Qed.

Lemma C1_witness :
  main false ms ms
    (encode [Size_descriptor 1920 1080; Video_frame 0 idr;
             Video_frame 83 slice; Video_frame 166 slice;
             Video_frame 249 slice])
  = Exited_1 Premature_end_of_file [].
Proof.
  apply (C1_no_end_marker_aborts
           [Size_descriptor 1920 1080; Video_frame 0 idr;
            Video_frame 83 slice; Video_frame 166 slice;
            Video_frame 249 slice] false ms ms).
  repeat (apply Forall_cons; [decide_ranges|]). apply Forall_nil.
Defined.

(** C2 (the code does not do this).  An audio packet is read into the same
    buffer at offset 0 while [packet_buffer_offset] still counts a withheld
    parameter set: the video packet written next starts with the audio bytes
    instead of the start of the parameter set. *)
Theorem C2_audio_overwrites_pending :
  main false ms ms
    (encode [Size_descriptor 1920 1080; Video_frame 0 sps;
             Audio_frame 0 [85; 86]; Video_frame 0 idr;
             Audio_frame 40 [87; 88]; Video_frame 40 slice; End_of_stream])
  = Returned_0
      [avformat_new_stream_video (Some 1920) (Some 1080) 25;
       avformat_new_stream_audio 50;
       avformat_write_header;
       av_interleaved_write_frame a_stream (map Byte [85; 86]) 0;
       av_interleaved_write_frame v_stream
         (map Byte ([85; 86] ++ [0; 1; 103; 66] ++ idr)) 0;
       av_interleaved_write_frame a_stream (map Byte [87; 88]) 40;
       av_interleaved_write_frame v_stream (map Byte slice) 40;
       av_write_trailer]
  /\ map Byte ([85; 86] ++ [0; 1; 103; 66] ++ idr) <> map Byte (sps ++ idr).
Proof.
  split; [vm_compute; reflexivity|]. vm_compute. discriminate.
Qed.

(** C3 (the code does not do this).  The [switch] of the first pass has no
    case for the tag HXVT: a packet that carries it is reported as unknown,
    the width and the height it holds are not recorded, and its 12-byte
    header is left in the file to be read as tags. *)
Theorem C3_alternate_descriptor_unknown st w h rest :
  at_pos (in_file st) (encode_packet (Alt_size_descriptor w h) ++ rest) ->
  exists st',
    infer_body st = Next st' /\
    video_w st' = video_w st /\ video_h st' = video_h st /\
    unknown_headers st' = unknown_headers st ++ [HXVT] /\
    at_pos (in_file st') (enc32 w ++ enc32 h ++ [0; 0; 0; 0] ++ rest).
Proof.
  intros Hat. unfold encode_packet in Hat. rewrite <- !app_assoc in Hat.
  destruct (fread_tag _ _ _ Hat) as [_ H1].
  rewrite (infer_body_default st HXVT _ Hat);
    [|decide_ranges|discriminate|discriminate|discriminate|discriminate].
  eexists. split; [reflexivity|]. split; [reflexivity|].
  split; [reflexivity|]. split; [reflexivity|exact H1].
Qed.

Lemma C3_witness :
  exists st',
    infer_body
      (infer_init
         (fopen (encode [Alt_size_descriptor 1920 1080; Video_frame 0 idr;
                         End_of_stream]))) = Next st' /\
    video_w st' = None /\ video_h st' = None /\
    unknown_headers st' = [] ++ [HXVT] /\
    at_pos (in_file st')
      (enc32 1920 ++ enc32 1080 ++ [0; 0; 0; 0]
       ++ encode [Video_frame 0 idr; End_of_stream]).
Proof.
  apply (C3_alternate_descriptor_unknown
           (infer_init
              (fopen (encode [Alt_size_descriptor 1920 1080; Video_frame 0 idr;
                              End_of_stream])))
           1920 1080 (encode [Video_frame 0 idr; End_of_stream])).
  split; [simpl; lia | reflexivity].
Defined.

(** The whole first pass on a file that opens with an HXVT descriptor: four
    tags are reported, the size stays unset; with HXVS it is recorded. *)
Lemma alternate_descriptor_run :
  (exists st,
      inference_pass
        (fopen (encode [Alt_size_descriptor 1920 1080; Video_frame 0 idr;
                        Video_frame 40 slice; End_of_stream])) = Next st /\
      video_w st = None /\ video_h st = None /\
      unknown_headers st = [HXVT; 1920; 1080; 0]) /\
  (exists st,
      inference_pass
        (fopen (encode [Size_descriptor 1920 1080; Video_frame 0 idr;
                        Video_frame 40 slice; End_of_stream])) = Next st /\
      video_w st = Some 1920 /\ video_h st = Some 1080 /\
      unknown_headers st = []).
Proof.
  split; eexists; (split; [vm_compute; reflexivity|]); repeat split.
Qed.

(** C4 (the code does not do this).  The first video packet leaves its raw
    timestamp, not 0, in [video_ts_prev], and the next packet's relative
    timestamp is compared with it.  Two video frames at an interval [delta]
    that is not above the first raw timestamp therefore give no rate sample
    at all: the average stays 0 and the run ends with "No video detected". *)
Theorem C4_rate_not_inferred ts0 delta p1 p2 skip_audio tb_v tb_a :
  0 < delta -> delta <= ts0 -> ts0 + delta < 2 ^ 32 ->
  uint32_range (lengthZ p1) -> uint32_range (lengthZ p2) ->
  main skip_audio tb_v tb_a
    (encode [Video_frame ts0 p1; Video_frame (ts0 + delta) p2; End_of_stream])
  = Exited_1 No_video_detected [].
Proof.
  intros Hd Hle Hmax H1 H2.
  assert (Hall : Forall data_packet
                   [Video_frame ts0 p1; Video_frame (ts0 + delta) p2]).
  { repeat (apply Forall_cons; [split; [unfold uint32_range; lia|assumption]|]).
    apply Forall_nil. }
  pose proof (inference_pass_packets _ Hall) as E. cbv zeta in E.
  unfold main.
  change ([Video_frame ts0 p1; Video_frame (ts0 + delta) p2; End_of_stream])
    with ([Video_frame ts0 p1; Video_frame (ts0 + delta) p2]
          ++ [End_of_stream]).
  rewrite E. clear E.
  replace (Qle_bool _ 0) with true; [reflexivity|].
  simpl fold_left. unfold video_avg_frame_rate, track.
  cbn [video infer_init]. unfold update_estimate.
  change (ts_initial estimate_init =? -1) with true. cbv beta iota.
  cbn [ts_initial ts_prev avg_rate packets_count].
  replace (ts0 =? -1) with false by (symmetry; apply Z.eqb_neq; lia).
  replace (ts0 <? ts0 + delta - ts0) with false
    by (symmetry; apply Z.ltb_ge; lia).
  reflexivity.
Qed.

Lemma C4_witness :
  main false ms ms
    (encode [Video_frame 1000 idr; Video_frame (1000 + 40) slice;
             End_of_stream])
  = Exited_1 No_video_detected [].
Proof.
  apply (C4_rate_not_inferred 1000 40 idr slice false ms ms);
    first [lia | decide_ranges].
Defined.

(** With a first raw timestamp below the interval the first sample is taken
    over [delta - ts0] milliseconds: frames every 40 ms that start at 10 give
    the rate 175/6, not 25. *)
Lemma rate_skewed_by_first_timestamp :
  exists st,
    inference_pass
      (fopen (encode [Video_frame 10 idr; Video_frame 50 slice;
                      Video_frame 90 slice; End_of_stream])) = Next st /\
    (video_avg_frame_rate st == 175 # 6)%Q /\
    ~ (video_avg_frame_rate st == 1000 # 40)%Q.
Proof.
  eexists. split; [vm_compute; reflexivity|].
  split; [reflexivity|]. intros H. vm_compute in H. discriminate.
Qed.






(** C7.  A video-frame or audio-frame packet whose header declares more
    payload bytes than the file still holds makes the extraction loop exit
    with "Premature end of file", and nothing is handed to the muxer for
    it: the calls made are those made before the packet.  (With no audio
    stream the audio payload is skipped by [fseek], and it is the read of the
    next tag that fails.) *)
Theorem C7_truncated_payload env st len ts rest fuel :
  uint32_range len -> uint32_range ts -> buffer_ok st ->
  x_hxfi_detected st = false ->
  (at_pos (x_file st) (video_header len ts ++ rest) /\ lengthZ rest < len) \/
  (at_pos (x_file st) (audio_header len ts ++ rest) /\
   lengthZ rest < hxaf_payload_size len) ->
  exists st',
    extract_loop env (S (S fuel)) st = Abort Premature_end_of_file st' /\
    calls st' = calls st.
Proof.
  intros Hlen Hts Hok Hh [[Hat Hshort] | [Hat Hshort]].
  - destruct (extract_body_video_truncated env st len ts rest Hat Hlen Hts Hok
                Hshort) as (st' & E & Hc).
    exists st'. split; [|exact Hc].
    simpl. now rewrite E.
  - destruct (extract_body_audio_header env st len ts rest Hat Hlen Hts)
      as [Hat2 E].
    pose proof (lengthZ_nonneg rest) as Hr.
    pose proof (hxaf_payload_size_range len) as Hs.
    destruct (has_a_stream env).
    + destruct (ReadToBuffer_short _ (packet_buffer st) 0
                  (packet_buffer_length st) (hxaf_payload_size len) rest
                  Hat2 Hshort Hok) as (b & E3 & _).
      rewrite E3 in E. cbv beta iota in E.
      rewrite to_uint32_to_int, to_uint32_small in E
        by (unfold uint32_range in *; lia).
      replace (lengthZ rest <? hxaf_payload_size len) with true in E
        by (symmetry; apply Z.ltb_lt; lia).
      eexists. split; [simpl; rewrite E; reflexivity|reflexivity].
    + match type of E with _ = Next ?s => set (st2 := s) in * end.
      assert (Hend : at_pos (x_file st2) []).
      { unfold st2; simpl. rewrite <- Z.add_assoc.
        apply (at_pos_beyond _ (audio_header len ts ++ rest)); [exact Hat|].
        rewrite lengthZ_app. change (lengthZ (audio_header len ts)) with 20.
        lia. }
      destruct (extract_body_at_end env st2 [] Hend ltac:(reflexivity))
        as (st' & E' & Hc').
      exists st'. split; [|exact Hc'].
      rewrite (extract_loop_step env st st2 E eq_refl Hh).
      simpl. now rewrite E'.
Qed.

Lemma C7_witness :
  exists st',
    extract_loop sample_env 2
      (extract_init (fopen (video_header 7 40 ++ [0; 0; 0])) [])
    = Abort Premature_end_of_file st' /\
    calls st' = [].
Proof.
  apply (C7_truncated_payload sample_env
           (extract_init (fopen (video_header 7 40 ++ [0; 0; 0])) [])
           7 40 [0; 0; 0] 0).
  - unfold uint32_range. lia.
  - unfold uint32_range. lia.
  - exact I.
  - reflexivity.
  - left. split; [split; [simpl; lia | reflexivity] | vm_compute; reflexivity].
Defined.




(** The end-to-end scenario of the format: a size descriptor, four video
    frames at 0, 83, 166 and 249 ms, the end marker. *)
Lemma end_to_end_scenario :
  main false ms ms
    (encode [Size_descriptor 1920 1080; Video_frame 0 idr;
             Video_frame 83 slice; Video_frame 166 slice;
             Video_frame 249 slice; End_of_stream])
  = Returned_0
      [avformat_new_stream_video (Some 1920) (Some 1080) 12;
       avformat_write_header;
       av_interleaved_write_frame v_stream (map Byte idr) 0;
       av_interleaved_write_frame v_stream (map Byte slice) 83;
       av_interleaved_write_frame v_stream (map Byte slice) 166;
       av_interleaved_write_frame v_stream (map Byte slice) 249;
       av_write_trailer].
Proof. vm_compute. reflexivity. Qed.

(** C9.  A video-frame payload that reaches the coalescer is withheld, that
    is appended to the pending bytes with nothing handed to the muxer, if and
    only if the low 5 bits of the byte that follows its 4-byte start code are
    7 or 8; any other payload is written out behind the pending bytes. *)
Theorem C9_withheld_iff_parameter_set env st ts p rest acc pts :
  at_pos (x_file st) (encode_packet (Video_frame ts p) ++ rest) ->
  uint32_range ts -> 5 <= lengthZ p ->
  pending st acc -> buffer_ok st ->
  lengthZ acc + lengthZ p <= INT_MAX ->
  pts_of (ts - env_video_ts_initial env) (v_time_base env) = Some pts ->
  exists st',
    extract_body env st = Next st' /\
    ((calls st' = calls st /\ pending st' (acc ++ p)) <->
     (Z.land (nth 4 p 0) 31 = 7 \/ Z.land (nth 4 p 0) 31 = 8)) /\
    (calls st' = calls st \/
     calls st' =
     calls st ++ [av_interleaved_write_frame v_stream (map Byte (acc ++ p)) pts]
     /\ pending st' []).
Proof.
  intros Hat Hts H5 Hpend Hok Hmax Hpts.
  destruct (extract_body_video env st ts p rest acc Hat Hts H5 Hpend Hok Hmax)
    as (st1 & _ & _ & _ & Hc & _ & _ & Hpre & E).
  rewrite Hpts in E.
  destruct (is_parameter_set p) eqn:Eps.
  - exists (x_with_offset st1 (lengthZ (acc ++ p))).
    split; [exact E|].
    assert (W : calls (x_with_offset st1 (lengthZ (acc ++ p))) = calls st /\
                pending (x_with_offset st1 (lengthZ (acc ++ p))) (acc ++ p)).
    { split; [exact Hc|]. split; [reflexivity|exact Hpre]. }
    split.
    + split; intros _; [now apply is_parameter_set_iff|exact W].
    + left. exact Hc.
  - exists (x_write_frame st1 0 v_stream (map Byte (acc ++ p)) pts).
    split; [exact E|]. split.
    + split.
      * intros [Hcalls _]. simpl in Hcalls. rewrite Hc in Hcalls.
        now apply app_one_neq in Hcalls.
      * intros Hps. apply is_parameter_set_iff in Hps. congruence.
    + right. simpl. rewrite Hc. split; [reflexivity|].
      split; reflexivity.
Qed.

Lemma C9_witness :
  exists st',
    extract_body sample_env
      (start_on [Video_frame 0 sps; Video_frame 0 idr; End_of_stream])
    = Next st' /\
    ((calls st' = [] /\ pending st' ([] ++ sps)) <->
     (Z.land (nth 4 sps 0) 31 = 7 \/ Z.land (nth 4 sps 0) 31 = 8)) /\
    (calls st' = [] \/
     calls st' =
     [] ++ [av_interleaved_write_frame v_stream (map Byte ([] ++ sps)) 0]
     /\ pending st' []).
Proof.
  apply (C9_withheld_iff_parameter_set sample_env
           (start_on [Video_frame 0 sps; Video_frame 0 idr; End_of_stream])
           0 sps (encode [Video_frame 0 idr; End_of_stream]) [] 0).
  - split; [simpl; lia | reflexivity].
  - unfold uint32_range. lia.
  - vm_compute. discriminate.
  - split; reflexivity.
  - exact I.
  - vm_compute. discriminate.
  - reflexivity.
Defined.

(** C10.  Both passes take [(length - 4) mod 2^32] for the size of the
    samples of an audio packet, whatever the declared length: a length below
    4 gives [2^32 - 4 + length].  The first pass, and the second when there
    is no audio stream, seek forward by that many bytes and carry on; the
    second pass with an audio stream sizes the buffer for that many bytes and
    reads all that the file has left. *)
Theorem C10_audio_size_wraps len ts :
  uint32_range len -> uint32_range ts ->
  hxaf_payload_size len = (len - 4) mod 2 ^ 32 /\
  (len < 4 -> hxaf_payload_size len = 2 ^ 32 - 4 + len) /\
  (forall st rest,
      at_pos (in_file st) (audio_header len ts ++ rest) ->
      exists st',
        infer_body st = Next st' /\
        f_pos (in_file st') =
        f_pos (in_file st) + 20 + hxaf_payload_size len /\
        audio st' = update_estimate (hxaf_payload_size len) ts (audio st)) /\
  (forall env st rest,
      at_pos (x_file st) (audio_header len ts ++ rest) ->
      has_a_stream env = false ->
      exists st',
        extract_body env st = Next st' /\
        f_pos (x_file st') =
        f_pos (x_file st) + 20 + hxaf_payload_size len /\
        calls st' = calls st) /\
  (forall env st rest,
      at_pos (x_file st) (audio_header len ts ++ rest) ->
      has_a_stream env = true -> buffer_ok st ->
      lengthZ rest < hxaf_payload_size len ->
      exists st' b,
        extract_body env st = Abort Premature_end_of_file st' /\
        packet_buffer st' = Some b /\
        hxaf_payload_size len <= alloc b /\
        packet_buffer_length st' = hxaf_payload_size len /\
        f_pos (x_file st') = f_pos (x_file st) + 20 + lengthZ rest).
Proof.
  intros Hlen Hts. split; [reflexivity|]. split; [|split; [|split]].
  - intros H4. unfold hxaf_payload_size, to_uint32, uint32_range in *.
    rewrite <- (Z.mod_add _ 1) by lia.
    rewrite Z.mod_small by lia. lia.
  - intros st rest Hat.
    rewrite (infer_body_audio st len ts rest Hat Hlen Hts).
    eexists. split; [reflexivity|]. split; reflexivity.
  - intros env st rest Hat Hno.
    destruct (extract_body_audio_header env st len ts rest Hat Hlen Hts)
      as [_ E].
    rewrite Hno in E. rewrite E.
    eexists. split; [reflexivity|]. split; reflexivity.
  - intros env st rest Hat Hyes Hok Hshort.
    destruct (extract_body_audio_header env st len ts rest Hat Hlen Hts)
      as [Hat2 E].
    rewrite Hyes in E.
    destruct (ReadToBuffer_short _ (packet_buffer st) 0
                (packet_buffer_length st) (hxaf_payload_size len) rest
                Hat2 Hshort Hok) as (b & E3 & Hal).
    rewrite E3 in E. cbv beta iota in E.
    pose proof (hxaf_payload_size_range len) as Hs.
    pose proof (lengthZ_nonneg rest) as Hr.
    rewrite to_uint32_to_int, to_uint32_small in E
      by (unfold uint32_range in *; lia).
    replace (lengthZ rest <? hxaf_payload_size len) with true in E
      by (symmetry; apply Z.ltb_lt; lia).
    rewrite E. eexists. exists b.
    split; [reflexivity|]. split; [reflexivity|].
    split; [lia|]. split; [simpl; lia|]. simpl. lia.
Qed.

Lemma C10_witness :
  hxaf_payload_size 2 = 2 ^ 32 - 4 + 2 /\
  (exists st',
      infer_body (infer_init (fopen (audio_header 2 80 ++ [1; 2; 3]))) = Next st' /\
      f_pos (in_file st') = 0 + 20 + hxaf_payload_size 2 /\
      audio st' = update_estimate (hxaf_payload_size 2) 80 estimate_init) /\
  (exists st',
      extract_body mute_env
        (extract_init (fopen (audio_header 2 80 ++ [1; 2; 3])) []) = Next st' /\
      f_pos (x_file st') = 0 + 20 + hxaf_payload_size 2 /\
      calls st' = []) /\
  (exists st' b,
      extract_body sample_env
        (extract_init (fopen (audio_header 2 80 ++ [1; 2; 3])) [])
      = Abort Premature_end_of_file st' /\
      packet_buffer st' = Some b /\
      hxaf_payload_size 2 <= alloc b /\
      packet_buffer_length st' = hxaf_payload_size 2 /\
      f_pos (x_file st') = 0 + 20 + lengthZ [1; 2; 3]).
Proof.
  destruct (C10_audio_size_wraps 2 80) as (_ & W & I1 & X1 & X2);
    [unfold uint32_range; lia | unfold uint32_range; lia |].
  split; [apply W; lia|]. split; [|split].
  - apply (I1 (infer_init (fopen (audio_header 2 80 ++ [1; 2; 3]))) [1; 2; 3]).
    split; [simpl; lia | reflexivity].
  - apply (X1 mute_env
             (extract_init (fopen (audio_header 2 80 ++ [1; 2; 3])) [])
             [1; 2; 3]).
    + split; [simpl; lia | reflexivity].
    + reflexivity.
  - apply (X2 sample_env
             (extract_init (fopen (audio_header 2 80 ++ [1; 2; 3])) [])
             [1; 2; 3]).
    + split; [simpl; lia | reflexivity].
    + reflexivity.
    + exact I.
    + vm_compute. reflexivity.
Defined.
(** * Further properties *)

(** ** ReadToBuffer *)

(** X1.  [ReadToBuffer] appends: whatever it does to the block (keep it,
    [realloc] it, or [free] it and [malloc] another), the bytes before
    [dest_offset] are those that were there, the bytes that [fread] obtained
    follow them, the block has room for all the bytes asked for, and
    [*dest_size] is the size asked for.  The value returned is the number of
    bytes obtained. *)
Theorem X1_ReadToBuffer_appends fp dest off len size :
  0 < len -> 0 <= off -> sized dest size ->
  exists b,
    ReadToBuffer fp dest off len size =
    (lengthZ (takeZ len (remaining fp)),
     snd (fread len fp), Some b, len + off) /\
    buffer_prefix (Some b) (off + lengthZ (takeZ len (remaining fp))) =
    buffer_prefix dest off ++ map Byte (takeZ len (remaining fp)) /\
    len + off <= alloc b.
Proof.
  intros Hlen Hoff Hsz. unfold ReadToBuffer.
  replace (len =? 0) with false by (symmetry; apply Z.eqb_neq; lia).
  unfold fread. cbv beta iota zeta. cbn [snd].
  fold (remaining fp). set (got := takeZ len (remaining fp)).
  set (d1 := match dest with
             | Some b =>
                 if size <? len + off
                 then if negb (off =? 0)
                      then Some (realloc b (len + off)) else None
                 else Some b
             | None => None
             end).
  set (b2 := match d1 with
             | Some b => b
             | None => malloc (len + off)
             end).
  assert (Hpre : get_cells (Z.to_nat off) (cells b2) = buffer_prefix dest off).
  { unfold buffer_prefix, b2, d1. destruct dest as [b|]; [|reflexivity].
    destruct (size <? len + off); [|reflexivity].
    destruct (Z.eqb_spec off 0) as [->|Hne]; simpl; [reflexivity|].
    apply get_cells_firstn. lia. }
  assert (Hal : len + off <= alloc b2).
  { unfold b2, d1. destruct dest as [b|]; simpl; [|lia].
    destruct (Z.ltb_spec size (len + off)).
    - destruct (negb (off =? 0)); simpl; lia.
    - simpl in Hsz. lia. }
  exists (store b2 off got). split; [reflexivity|]. split; [|exact Hal].
  unfold buffer_prefix at 1. unfold store; cbn [cells]. rewrite Hpre.
  rewrite app_assoc.
  replace (Z.to_nat (off + lengthZ got))
    with (length (buffer_prefix dest off ++ map Byte got)).
  - apply get_cells_app_exact.
  - rewrite length_app, length_map. unfold buffer_prefix.
    rewrite get_cells_length. unfold lengthZ. lia.
Qed.

Lemma X1_witness :
  exists b,
    ReadToBuffer (fopen [1; 2; 3]) (Some (store (malloc 2) 0 [8; 9])) 2 5 2 =
    (lengthZ (takeZ 5 (remaining (fopen [1; 2; 3]))),
     snd (fread 5 (fopen [1; 2; 3])), Some b, 5 + 2) /\
    buffer_prefix (Some b) (2 + lengthZ (takeZ 5 (remaining (fopen [1; 2; 3])))) =
    buffer_prefix (Some (store (malloc 2) 0 [8; 9])) 2
    ++ map Byte (takeZ 5 (remaining (fopen [1; 2; 3]))) /\
    5 + 2 <= alloc b.
Proof.
  apply (X1_ReadToBuffer_appends (fopen [1; 2; 3])
           (Some (store (malloc 2) 0 [8; 9])) 2 5 2).
  - lia.
  - lia.
  - simpl. lia.
Defined.

Lemma ReadToBuffer_sized fp dest off len size n fp' buf sz :
  ReadToBuffer fp dest off len size = (n, fp', buf, sz) ->
  sized dest size -> sized buf sz.
Proof.
  unfold ReadToBuffer. destruct (len =? 0).
  - intros H Hs. inversion H; subst. exact Hs.
  - destruct (fread len fp) as [got f]. intros H Hs. inversion H; subst.
    simpl. destruct dest as [b|]; simpl; [|lia].
    destruct (Z.ltb_spec size (len + off)).
    + destruct (negb (off =? 0)); simpl; lia.
    + simpl in Hs. lia.
Qed.

(** ** The buffer of the second pass *)

Lemma ReadToBuffer_count fp dest off len size n fp' buf sz :
  ReadToBuffer fp dest off len size = (n, fp', buf, sz) ->
  0 <= n /\ f_data fp' = f_data fp /\ f_pos fp' = f_pos fp + n /\
  (0 <= f_pos fp -> n <= Z.max 0 (lengthZ (f_data fp) - f_pos fp)).
Proof.
  unfold ReadToBuffer. destruct (len =? 0).
  - intros H. inversion H; subst. repeat split; lia.
  - destruct (fread len fp) as [got f] eqn:E. intros H. inversion H; subst.
    apply fread_inv in E. destruct E as (E1 & E2 & E3 & E4 & _).
    repeat split; assumption.
Qed.

Lemma extract_body_within env st :
  lengthZ (f_data (x_file st)) <= INT_MAX ->
  within_file st ->
  holds (fun s => within_file s /\ f_data (x_file s) = f_data (x_file st))
    (extract_body env st).
Proof.
  intros Hmax (Hok & (Ho0 & Hof) & Hol). unfold extract_body.
  split_matches; cbn [holds];
    repeat match goal with
           | H : ReadToBuffer _ _ _ _ _ = (_, _, _, _) |- _ =>
               pose proof (ReadToBuffer_sized _ _ _ _ _ _ _ _ _ H Hok);
               apply ReadToBuffer_count in H; destruct H as (? & ? & ? & ?)
           | H : fread _ _ = (_, _) |- _ =>
               apply fread_inv in H; destruct H as (? & ? & ? & _ & _)
           | H : fseek_cur _ _ = Some _ |- _ =>
               apply fseek_cur_inv in H; destruct H as (? & ?)
           | H : valid_offset _ = true |- _ => clear H
           end;
    try (pose proof (hxaf_payload_size_nonneg (hxaf_length l0)));
    unfold within_file, buffer_ok, sizeof_HXVSFrame_t in *;
    cbn [x_file x_with_file x_after_read x_write_frame x_with_offset
         packet_buffer packet_buffer_length packet_buffer_offset];
    (split; [|congruence]);
    (split; [first [assumption | exact Hok]|]);
    repeat match goal with
           | H : f_data ?f = f_data ?g |- _ =>
               apply (f_equal (@lengthZ Z)) in H
           end;
    repeat match goal with
           | H : 0 <= f_pos ?f -> _ |- _ =>
               let Hp := fresh in
               assert (Hp : 0 <= f_pos f) by lia; specialize (H Hp)
           end;
    try match goal with
        | |- context [to_int ?n] =>
            rewrite (to_int_small n) by (unfold INT_MAX in *; lia)
        end;
    lia.
Qed.

Lemma extract_loop_within env fuel :
  forall st,
    lengthZ (f_data (x_file st)) <= INT_MAX ->
    within_file st ->
    holds (fun s => within_file s /\ f_data (x_file s) = f_data (x_file st))
      (extract_loop env fuel st).
Proof.
  induction fuel as [|fuel IH]; intros st Hmax Hs; simpl; [exact I|].
  pose proof (extract_body_within env st Hmax Hs) as Hb.
  destruct (extract_body env st) as [s|d s|s|]; try exact Hb.
  destruct (negb (feof (x_file s)) && negb (x_hxfi_detected s));
    [|exact Hb].
  simpl in Hb. destruct Hb as [Hw Hd].
  specialize (IH s ltac:(rewrite Hd; exact Hmax) Hw).
  destruct (extract_loop env fuel s) as [s'|d s'|s'|]; simpl in *;
    try exact I; (split; [tauto|]); destruct IH as [_ E]; congruence.
Qed.

Lemma ReadToBuffer_room fp dest off len size n fp' buf sz :
  ReadToBuffer fp dest off len size = (n, fp', buf, sz) ->
  sized dest size -> 0 <= off -> 0 <= len ->
  (len = 0 /\ n = 0 /\ buf = dest) \/
  (exists b, buf = Some b /\ len + off <= alloc b /\ n <= len).
Proof.
  unfold ReadToBuffer. intros H Hs Hoff Hlen.
  destruct (Z.eqb_spec len 0) as [E|E].
  - left. inversion H; subst. repeat split; reflexivity.
  - right. destruct (fread len fp) as [got f] eqn:Ef.
    inversion H; subst; clear H. eexists. split; [reflexivity|].
    split.
    + unfold store; cbn [alloc].
      destruct dest as [b|]; simpl; [|lia].
      destruct (Z.ltb_spec size (len + off)).
      * destruct (negb (off =? 0)); simpl; lia.
      * simpl in Hs. lia.
    + unfold fread in Ef. inversion Ef; subst.
      unfold lengthZ. rewrite takeZ_firstn, length_firstn. lia.
Qed.

Lemma load_bytes_inside buf size :
  0 <= size ->
  size = 0 \/ (exists b, buf = Some b /\ size <= alloc b) ->
  load_bytes buf size <> None.
Proof.
  intros H0 H. unfold load_bytes.
  destruct (Z.eqb_spec size 0); [discriminate|].
  destruct H as [H|(b & -> & Hb)]; [contradiction|].
  destruct (Z.ltb_spec size 0); [lia|].
  destruct (Z.ltb_spec (alloc b) size); [lia|]. discriminate.
Qed.

Lemma unit_type_inside buf off t :
  unit_type buf off = Some t -> exists b, buf = Some b /\ off + 4 < alloc b.
Proof.
  unfold unit_type, load_byte. destruct buf as [b|]; [|discriminate].
  destruct (Z.ltb_spec (off + 4) 0); [discriminate|].
  destruct (Z.leb_spec (alloc b) (off + 4)); [discriminate|].
  intros _. exists b. split; [reflexivity|lia].
Qed.

(** On a file of less than 2 GiB the arithmetic on the buffer never goes
    wrong: an iteration has no defined behaviour only if it reads the NAL
    type outside the buffer or the timestamp does not fit an [int]. *)
Lemma extract_body_undefined env st st1 :
  bytes (f_data (x_file st)) ->
  lengthZ (f_data (x_file st)) <= INT_MAX ->
  within_file st ->
  extract_body env st = Undefined st1 ->
  undefined_cause env st st1.
Proof.
  intros Hb Hmax (Hok & (Ho0 & Hof) & Hol).
  unfold undefined_cause, video_header_read, audio_header_read, extract_body.
  destruct (fread sizeof_header (x_file st)) as [hdr f1] eqn:E1.
  cbn [fst snd].
  destruct (negb (lengthZ hdr =? sizeof_header)); [discriminate|].
  apply fread_inv in E1. destruct E1 as (D1 & P1 & N1 & _ & _).
  destruct (le32 hdr =? HXVS).
  { destruct (fseek_cur sizeof_HXVSFrame_t f1); discriminate. }
  destruct (le32 hdr =? HXVF).
  { destruct (fread sizeof_HXVFFrame_t f1) as [d f2] eqn:E2.
    cbn [fst snd].
    destruct (negb (lengthZ d =? sizeof_HXVFFrame_t)); [discriminate|].
    apply fread_inv in E2. destruct E2 as (D2 & P2 & N2 & _ & B2).
    assert (Hbd : bytes d) by (apply B2; rewrite D1; exact Hb).
    pose proof (field32_nonneg d 0 Hbd) as Hlen. fold (hxvf_length d) in Hlen.
    destruct (ReadToBuffer f2 (packet_buffer st) (packet_buffer_offset st)
                (hxvf_length d) (packet_buffer_length st))
      as [[[n f3] buf] len] eqn:E3.
    pose proof (ReadToBuffer_room _ _ _ _ _ _ _ _ _ E3 Hok Ho0 Hlen) as R;
      apply ReadToBuffer_count in E3; destruct E3 as (N3 & D3 & P3 & M3);
      specialize (M3 ltac:(lia));
      apply (f_equal (@lengthZ Z)) in D1, D2, D3;
      assert (Hn : to_int n = n)
        by (apply to_int_small; unfold INT_MAX in *; lia);
      cbv zeta; rewrite Hn;
      (destruct (to_uint32 n <? hxvf_length d); [discriminate|]);
      (destruct (unit_type buf (packet_buffer_offset st)) as [t|] eqn:Eu;
       [|intros H; inversion H; subst; left; exact Eu]);
      (destruct ((t =? 7) || (t =? 8));
       [destruct (valid_offset (packet_buffer_offset st + n)) eqn:Ev;
        [discriminate|];
        exfalso; unfold valid_offset in Ev;
        apply andb_false_iff in Ev;
        destruct Ev as [Ev|Ev]; [apply Z.leb_gt in Ev|apply Z.leb_gt in Ev];
        lia|]);
      (destruct (load_bytes buf (n + packet_buffer_offset st)) eqn:El;
       [|exfalso; revert El; apply load_bytes_inside; [lia|];
         right; destruct (unit_type_inside _ _ _ Eu) as (b & Eb & Hb4);
         exists b; split; [exact Eb|];
         destruct R as [(R1 & R2 & R3)|(b' & R1 & R2 & R3)];
         [lia|rewrite R1 in Eb; inversion Eb; subst; lia]]);
      (destruct (pts_of (hxvf_timestamp d - env_video_ts_initial env)
                   (v_time_base env)) eqn:Ep;
       [|intros _; right; left; reflexivity]);
      (destruct (in_int_range (n + packet_buffer_offset st)) eqn:Ei;
       [discriminate|]);
      exfalso; unfold in_int_range in Ei; apply andb_false_iff in Ei;
      destruct Ei as [Ei|Ei]; apply Z.leb_gt in Ei; lia. }
  destruct (le32 hdr =? HXAF).
  { destruct (fread sizeof_HXAFFrame_t f1) as [d f2] eqn:E2.
    cbn [fst snd].
    destruct (negb (lengthZ d =? sizeof_HXAFFrame_t)); [discriminate|].
    apply fread_inv in E2. destruct E2 as (D2 & P2 & N2 & _ & _).
    pose proof (hxaf_payload_size_nonneg (hxaf_length d)) as Hlen.
    destruct (has_a_stream env).
    2: { destruct (fseek_cur _ f2); discriminate. }
    destruct (ReadToBuffer f2 (packet_buffer st) 0
                (hxaf_payload_size (hxaf_length d)) (packet_buffer_length st))
      as [[[n f3] buf] len] eqn:E3.
    pose proof (ReadToBuffer_room _ _ _ _ _ _ _ _ _ E3 Hok (Z.le_refl 0) Hlen)
      as R;
      apply ReadToBuffer_count in E3; destruct E3 as (N3 & D3 & P3 & M3);
      specialize (M3 ltac:(lia));
      apply (f_equal (@lengthZ Z)) in D1, D2, D3;
      assert (Hn : to_int n = n)
        by (apply to_int_small; unfold INT_MAX in *; lia);
      cbv zeta; rewrite Hn;
      (destruct (to_uint32 n <? hxaf_payload_size (hxaf_length d));
       [discriminate|]);
      (destruct (load_bytes buf n) eqn:El;
       [|exfalso; revert El; apply load_bytes_inside; [lia|];
         destruct R as [(R1 & R2 & R3)|(b' & R1 & R2 & R3)];
         [left; exact R2|right; exists b'; split; [exact R1|lia]]]);
      (destruct (pts_of (hxaf_timestamp d - env_audio_ts_initial env)
                   (a_time_base env)) eqn:Ep;
       [discriminate|intros _; right; right; reflexivity]). }
  destruct (le32 hdr =? HXFI); discriminate.
Qed.

Lemma extract_loop_undefined env fuel :
  forall st st1,
    bytes (f_data (x_file st)) ->
    lengthZ (f_data (x_file st)) <= INT_MAX ->
    within_file st ->
    extract_loop env fuel st = Undefined st1 ->
    exists s,
      within_file s /\ f_data (x_file s) = f_data (x_file st) /\
      extract_body env s = Undefined st1 /\ undefined_cause env s st1.
Proof.
  induction fuel as [|fuel IH]; intros st st1 Hb Hmax Hw; simpl;
    [discriminate|].
  pose proof (extract_body_within env st Hmax Hw) as Hs.
  pose proof (extract_body_undefined env st) as Hu.
  destruct (extract_body env st) as [s|d s|s|] eqn:E; try discriminate.
  - destruct (negb (feof (x_file s)) && negb (x_hxfi_detected s));
      [|discriminate].
    simpl in Hs. destruct Hs as [Hw' Hd]. intros H.
    destruct (IH s st1 ltac:(rewrite Hd; exact Hb)
                ltac:(rewrite Hd; exact Hmax) Hw' H)
      as (s' & W & D & B & C).
    exists s'. split; [exact W|]. split; [congruence|]. split; assumption.
  - intros H. inversion H; subst. exists st.
    split; [exact Hw|]. split; [reflexivity|]. split; [exact E|].
    exact (Hu st1 Hb Hmax Hw eq_refl).
Qed.

(** X2.  On a file of less than 2 GiB the second pass keeps the bookkeeping
    of its buffer sound.  In each state it reaches, [packet_buffer_length] is
    within the size of the block [packet_buffer] points to and
    [packet_buffer_offset] counts bytes of the file already read: it lies
    between 0 and the position in the file, and within the length of the
    file, so that [packet_buffer_offset += retval] never overflows.  If the
    pass comes to behaviour that is not defined, it is in an iteration that
    reads the NAL type outside the buffer or whose timestamp does not fit an
    [int] once scaled, not by the arithmetic on the buffer. *)
Theorem X2_second_pass_buffer_safe env fuel st :
  bytes (f_data (x_file st)) ->
  lengthZ (f_data (x_file st)) <= INT_MAX ->
  within_file st ->
  holds (fun s => within_file s /\ packet_buffer_offset s <= INT_MAX)
    (extract_loop env fuel st) /\
  (forall st1,
      extract_loop env fuel st = Undefined st1 ->
      exists s,
        within_file s /\ f_data (x_file s) = f_data (x_file st) /\
        extract_body env s = Undefined st1 /\ undefined_cause env s st1).
Proof.
  intros Hb Hmax Hw. split.
  - pose proof (extract_loop_within env fuel st Hmax Hw) as H.
    destruct (extract_loop env fuel st) as [s|d s|s|]; simpl in *;
      try exact I; destruct H as [Hs Hd]; (split; [exact Hs|]);
      destruct Hs as (_ & _ & Hl); rewrite Hd in Hl; lia.
  - intros st1 H. exact (extract_loop_undefined env fuel st st1 Hb Hmax Hw H).
Qed.

Lemma X2_witness :
  holds (fun s => within_file s /\ packet_buffer_offset s <= INT_MAX)
    (extract_loop sample_env 9
       (start_on [Video_frame 0 sps; Audio_frame 0 [85; 86];
                  Video_frame 0 idr; End_of_stream])) /\
  (forall st1,
      extract_loop sample_env 9
        (start_on [Video_frame 0 sps; Audio_frame 0 [85; 86];
                   Video_frame 0 idr; End_of_stream]) = Undefined st1 ->
      exists s,
        within_file s /\
        f_data (x_file s)
        = f_data (x_file (start_on [Video_frame 0 sps; Audio_frame 0 [85; 86];
                                    Video_frame 0 idr; End_of_stream])) /\
        extract_body sample_env s = Undefined st1 /\
        undefined_cause sample_env s st1).
Proof.
  apply (X2_second_pass_buffer_safe sample_env 9
           (start_on [Video_frame 0 sps; Audio_frame 0 [85; 86];
                      Video_frame 0 idr; End_of_stream])).
  - unfold bytes. apply Forall_forall. intros b Hb. vm_compute in Hb.
    repeat (destruct Hb as [<-|Hb]; [lia|]). contradiction.
  - vm_compute. discriminate.
  - split; [exact I|]. vm_compute. repeat split; discriminate.
Defined.

(** ** The calls made to the container library *)

Lemma extract_body_calls env st :
  holds (fun s => exists ws,
             calls s = calls st ++ ws /\
             Forall (fun c => is_write c = true) ws)
    (extract_body env st).
Proof.
  unfold extract_body.
  split_matches; simpl;
    first [ exists []; split; [now rewrite app_nil_r | apply Forall_nil]
          | eexists; split; [reflexivity|];
            apply Forall_cons; [reflexivity | apply Forall_nil] ].
Qed.

Lemma extract_loop_calls env fuel :
  forall st,
    holds (fun s => exists ws,
               calls s = calls st ++ ws /\
               Forall (fun c => is_write c = true) ws)
      (extract_loop env fuel st).
Proof.
  induction fuel as [|fuel IH]; intros st; simpl; [exact I|].
  pose proof (extract_body_calls env st) as Hb.
  destruct (extract_body env st) as [s|d s|s|]; try exact Hb.
  destruct (negb (feof (x_file s)) && negb (x_hxfi_detected s));
    [|exact Hb].
  simpl in Hb. destruct Hb as (ws & E & Hw).
  specialize (IH s).
  destruct (extract_loop env fuel s) as [s'|d s'|s'|]; simpl in *; try exact I;
    destruct IH as (ws' & E' & Hw');
    (exists (ws ++ ws'); split;
     [rewrite E', E; now rewrite app_assoc | now apply Forall_app]).
Qed.

(** ** Edges of the second pass *)

(** X4.  A video frame of fewer than 5 payload bytes that meets the buffer
    still unallocated (the first video frame of a file) makes the second
    pass read the NAL type outside what it holds: through a null pointer when
    the payload is empty, past the end of the block of 1 to 4 bytes
    otherwise.  Nothing is checked before the read. *)
Theorem X4_short_first_payload_undefined env st ts p rest :
  at_pos (x_file st) (encode_packet (Video_frame ts p) ++ rest) ->
  uint32_range ts -> lengthZ p < 5 ->
  packet_buffer st = None -> packet_buffer_offset st = 0 ->
  exists st1, extract_body env st = Undefined st1 /\ calls st1 = calls st.
Proof.
  intros H Hts H5 Hbuf Hoff.
  pose proof (lengthZ_nonneg p) as Hp.
  unfold encode_packet, video_header in H. rewrite <- !app_assoc in H.
  destruct (fread_tag _ _ _ H) as [E1 H1].
  assert (H1' : at_pos (advance 4 (x_file st))
                  ((enc32 (lengthZ p) ++ enc32 ts ++ [0; 0; 0; 0])
                   ++ p ++ rest))
    by now rewrite <- !app_assoc.
  destruct (fread_exact _ sizeof_HXVFFrame_t _ _ H1' eq_refl) as [E2 H2].
  destruct (fread_exact _ (lengthZ p) _ _ H2 eq_refl) as [E3 _].
  assert (Hlen : uint32_range (lengthZ p)) by (unfold uint32_range; lia).
  unfold extract_body. rewrite E1. cbv beta iota delta [negb].
  change (lengthZ (enc32 HXVF) =? sizeof_header) with true.
  change (le32 (enc32 HXVF)) with HXVF.
  change (HXVF =? HXVS) with false. change (HXVF =? HXVF) with true.
  cbv beta iota. rewrite E2. cbv beta iota.
  change (lengthZ (enc32 (lengthZ p) ++ enc32 ts ++ [0; 0; 0; 0])
          =? sizeof_HXVFFrame_t) with true.
  cbv beta iota.
  unfold hxvf_length, hxvf_timestamp.
  rewrite field32_0, field32_4, !le32_enc32 by assumption.
  rewrite Hbuf, Hoff. unfold ReadToBuffer.
  destruct (Z.eqb_spec (lengthZ p) 0) as [E0|E0].
  - cbv beta iota. rewrite E0. eexists. split; reflexivity.
  - rewrite E3. cbv beta iota.
    rewrite to_int_small by (unfold INT_MAX; lia).
    rewrite to_uint32_small by assumption.
    rewrite Z.ltb_irrefl.
    unfold unit_type, load_byte. cbn [alloc store malloc].
    replace ((0 + 4 <? 0) || (lengthZ p + 0 <=? 0 + 4)) with true.
    2:{ symmetry. apply orb_true_iff. right. apply Z.leb_le. lia. }
    eexists. split; reflexivity.
Qed.

Lemma X4_witness :
  exists st1,
    extract_body sample_env (start_on [Video_frame 0 [0; 0; 1]; End_of_stream])
    = Undefined st1 /\ calls st1 = [].
Proof.
  apply (X4_short_first_payload_undefined sample_env
           (start_on [Video_frame 0 [0; 0; 1]; End_of_stream])
           0 [0; 0; 1] (encode [End_of_stream])).
  - split; [simpl; lia | reflexivity].
  - unfold uint32_range. lia.
  - vm_compute. reflexivity.
  - reflexivity.
  - reflexivity.
Defined.

(** X5.  A parameter set that the end marker follows is never written: it is
    withheld, the loop ends on the marker, and the calls are those made
    before. *)
Theorem X5_pending_dropped_at_end env st ts p rest acc fuel :
  at_pos (x_file st)
    (encode [Video_frame ts p; End_of_stream] ++ rest) ->
  f_eof (x_file st) = false -> x_hxfi_detected st = false ->
  uint32_range ts -> 5 <= lengthZ p ->
  pending st acc -> buffer_ok st ->
  lengthZ acc + lengthZ p <= INT_MAX ->
  is_parameter_set p = true ->
  exists st',
    extract_loop env (S (S fuel)) st = Next st' /\
    calls st' = calls st /\ pending st' (acc ++ p).
Proof.
  intros Hat He Hh Hts H5 Hpend Hok Hmax Hps.
  rewrite !encode_cons in Hat. change (encode []) with (@nil Z) in Hat.
  rewrite app_nil_r, <- !app_assoc in Hat.
  destruct (extract_loop_withheld env st ts p _ acc Hat He Hh Hts H5 Hpend Hok
              Hmax Hps)
    as (s1 & R1 & Hat1 & He1 & Hh1 & Hok1 & Hpend1 & C1).
  change (encode_packet End_of_stream) with (enc32 HXFI ++ repeat 0 16) in Hat1.
  rewrite <- app_assoc in Hat1.
  destruct (fread_tag _ _ _ Hat1) as [E1 _].
  rewrite R1. simpl extract_loop.
  unfold extract_body. rewrite E1.
  cbv beta iota delta [negb].
  change (lengthZ (enc32 HXFI) =? sizeof_header) with true.
  change (le32 (enc32 HXFI)) with HXFI.
  change (HXFI =? HXVS) with false. change (HXFI =? HXVF) with false.
  change (HXFI =? HXAF) with false. change (HXFI =? HXFI) with true.
  cbv beta iota. cbn [x_hxfi_detected negb]. rewrite andb_false_r.
  eexists. split; [reflexivity|]. split; [exact C1|].
  destruct Hpend1 as [A B]. split; assumption.
Qed.

Lemma X5_witness :
  exists st',
    extract_loop sample_env 2
      (start_on [Video_frame 0 sps; End_of_stream]) = Next st' /\
    calls st' = [] /\ pending st' ([] ++ sps).
Proof.
  apply (X5_pending_dropped_at_end sample_env
           (start_on [Video_frame 0 sps; End_of_stream]) 0 sps [] [] 0);
    first [ reflexivity
          | exact I
          | split; [simpl; lia | reflexivity]
          | split; reflexivity
          | decide_ranges ].
Defined.

(** ** The second pass over a packet sequence *)

Lemma extract_loop_size env st w h rest acc :
  at_pos (x_file st) (encode_packet (Size_descriptor w h) ++ rest) ->
  x_hxfi_detected st = false ->
  pending st acc -> buffer_ok st ->
  exists st',
    (forall fuel, extract_loop env (S fuel) st = extract_loop env fuel st') /\
    at_pos (x_file st') rest /\
    f_eof (x_file st') = false /\ x_hxfi_detected st' = false /\
    buffer_ok st' /\ pending st' acc /\ calls st' = calls st.
Proof.
  intros Hat Hh Hpend Hok.
  pose proof (extract_body_size env st w h _ Hat) as E.
  match type of E with _ = Next ?s => set (s1 := s) in * end.
  exists s1. split.
  { apply extract_loop_step; [exact E|reflexivity|exact Hh]. }
  split.
  { apply (at_pos_skip _ (encode_packet (Size_descriptor w h)));
      [exact Hat|reflexivity]. }
  repeat (split; [first [reflexivity | assumption]|]). reflexivity.
Qed.

Lemma extract_loop_audio_skipped env st ts samples rest acc :
  at_pos (x_file st) (encode_packet (Audio_frame ts samples) ++ rest) ->
  x_hxfi_detected st = false ->
  uint32_range ts -> uint32_range (lengthZ samples + 4) ->
  pending st acc -> buffer_ok st ->
  has_a_stream env = false ->
  exists st',
    (forall fuel, extract_loop env (S fuel) st = extract_loop env fuel st') /\
    at_pos (x_file st') rest /\
    f_eof (x_file st') = false /\ x_hxfi_detected st' = false /\
    buffer_ok st' /\ pending st' acc /\ calls st' = calls st.
Proof.
  intros Hat Hh Hts Hlen Hpend Hok Hno.
  assert (Hat' := Hat).
  unfold encode_packet in Hat'. rewrite <- app_assoc in Hat'.
  destruct (extract_body_audio_header env st _ ts _ Hat' Hlen Hts) as [_ E].
  rewrite Hno in E.
  match type of E with _ = Next ?s => set (s1 := s) in * end.
  assert (Hsz : hxaf_payload_size (lengthZ samples + 4) = lengthZ samples).
  { unfold hxaf_payload_size.
    replace (lengthZ samples + 4 - 4) with (lengthZ samples) by lia.
    apply to_uint32_small. pose proof (lengthZ_nonneg samples).
    unfold uint32_range in *. lia. }
  exists s1. split.
  { apply extract_loop_step; [exact E|reflexivity|exact Hh]. }
  split.
  { unfold s1; cbn [x_with_file x_file]. rewrite Hsz, <- Z.add_assoc.
    apply (at_pos_skip _ (encode_packet (Audio_frame ts samples)));
      [exact Hat|].
    change (encode_packet (Audio_frame ts samples))
      with (audio_header (lengthZ samples + 4) ts ++ samples).
    rewrite lengthZ_app, lengthZ_audio_header. reflexivity. }
  repeat (split; [first [reflexivity | assumption]|]). reflexivity.
Qed.

Lemma extract_loop_audio_written env st ts samples rest pts :
  at_pos (x_file st) (encode_packet (Audio_frame ts samples) ++ rest) ->
  f_eof (x_file st) = false -> x_hxfi_detected st = false ->
  uint32_range ts -> 0 < lengthZ samples <= INT_MAX ->
  pending st [] -> buffer_ok st ->
  has_a_stream env = true ->
  pts_of (ts - env_audio_ts_initial env) (a_time_base env) = Some pts ->
  exists st',
    (forall fuel, extract_loop env (S fuel) st = extract_loop env fuel st') /\
    at_pos (x_file st') rest /\
    f_eof (x_file st') = false /\ x_hxfi_detected st' = false /\
    buffer_ok st' /\ pending st' [] /\
    calls st' =
    calls st ++ [av_interleaved_write_frame a_stream (map Byte samples) pts].
Proof.
  intros Hat He Hh Hts Hlen [Hoff _] Hok Hyes Hpts.
  assert (Hat' := Hat).
  unfold encode_packet in Hat'. rewrite <- app_assoc in Hat'.
  assert (Hl4 : uint32_range (lengthZ samples + 4))
    by (unfold uint32_range, INT_MAX in *; lia).
  destruct (extract_body_audio_header env st _ ts _ Hat' Hl4 Hts) as [Hat2 E].
  assert (Hsz : hxaf_payload_size (lengthZ samples + 4) = lengthZ samples).
  { unfold hxaf_payload_size.
    replace (lengthZ samples + 4 - 4) with (lengthZ samples) by lia.
    apply to_uint32_small. unfold uint32_range, INT_MAX in *. lia. }
  rewrite Hyes, Hsz in E.
  destruct (ReadToBuffer_payload _ (packet_buffer st) 0
              (packet_buffer_length st) samples rest Hat2)
    as (b & E3 & P3 & A3 & _); [lia | lia | exact Hok |].
  rewrite E3 in E. cbv beta iota in E.
  rewrite to_int_small in E by lia.
  rewrite to_uint32_small in E by (unfold uint32_range, INT_MAX in *; lia).
  rewrite Z.ltb_irrefl, Hpts in E.
  unfold load_bytes in E.
  replace (lengthZ samples =? 0) with false in E
    by (symmetry; apply Z.eqb_neq; lia).
  replace ((lengthZ samples <? 0) || (alloc b <? lengthZ samples))
    with false in E.
  2:{ symmetry. apply orb_false_iff. split; apply Z.ltb_ge; lia. }
  change (get_cells (Z.to_nat (lengthZ samples)) (cells b))
    with (buffer_prefix (Some b) (lengthZ samples)) in E.
  change (buffer_prefix (packet_buffer st) 0) with (@nil memval) in P3.
  change (0 + lengthZ samples) with (lengthZ samples) in P3.
  simpl app in P3. rewrite P3 in E.
  match type of E with _ = Next ?s => set (s1 := s) in * end.
  destruct (fread_exact _ (lengthZ samples) _ _ Hat2 eq_refl) as [_ H3].
  exists s1. split.
  { apply extract_loop_step; [exact E| |exact Hh]. exact He. }
  split; [exact H3|]. split; [exact He|]. split; [exact Hh|].
  split; [exact A3|]. split; [split; [exact Hoff|reflexivity]|reflexivity].
Qed.

Lemma extract_loop_mux env ps :
  forall st acc rest,
    muxable env acc ps ->
    at_pos (x_file st) (encode ps ++ rest) ->
    f_eof (x_file st) = false -> x_hxfi_detected st = false ->
    pending st acc -> buffer_ok st ->
    exists st' acc',
      (forall fuel,
          extract_loop env (length ps + fuel) st = extract_loop env fuel st') /\
      at_pos (x_file st') rest /\
      f_eof (x_file st') = false /\ x_hxfi_detected st' = false /\
      pending st' acc' /\ buffer_ok st' /\
      calls st' = calls st ++ mux env acc ps.
Proof.
  induction ps as [|p ps IH]; intros st acc rest Hm Hat He Hh Hpend Hok.
  - exists st, acc. simpl in Hat. split; [reflexivity|].
    repeat (split; [assumption|]). simpl. now rewrite app_nil_r.
  - rewrite encode_cons, <- app_assoc in Hat.
    destruct p as [w h|w h|ts p|ts samples|]; simpl in Hm; try contradiction.
    + destruct (extract_loop_size env st w h _ acc Hat Hh Hpend Hok)
        as (s1 & R1 & Hat1 & He1 & Hh1 & Hok1 & Hpend1 & C1).
      destruct (IH s1 acc rest Hm Hat1 He1 Hh1 Hpend1 Hok1)
        as (st' & acc' & R & Hat' & He' & Hh' & Hp' & Hok' & C').
      exists st', acc'. split.
      { intros fuel. simpl length. simpl Nat.add. rewrite R1. apply R. }
      repeat (split; [assumption|]). simpl mux. now rewrite C', C1.
    + destruct Hm as (Hts & H5 & Hmax & Hm). simpl mux.
      destruct (is_parameter_set p) eqn:Eps.
      * destruct (extract_loop_withheld env st ts p _ acc Hat He Hh Hts H5
                    Hpend Hok Hmax Eps)
          as (s1 & R1 & Hat1 & He1 & Hh1 & Hok1 & Hpend1 & C1).
        destruct (IH s1 (acc ++ p) rest Hm Hat1 He1 Hh1 Hpend1 Hok1)
          as (st' & acc' & R & Hat' & He' & Hh' & Hp' & Hok' & C').
        exists st', acc'. split.
        { intros fuel. simpl length. simpl Nat.add. rewrite R1. apply R. }
        repeat (split; [assumption|]). now rewrite C', C1.
      * destruct Hm as [Hpts Hm].
        destruct (pts_of (ts - env_video_ts_initial env) (v_time_base env))
          as [pts|] eqn:Epts; [|contradiction].
        destruct (extract_loop_written env st ts p _ acc pts Hat He Hh Hts H5
                    Hpend Hok Hmax Eps Epts)
          as (s1 & R1 & Hat1 & He1 & Hh1 & Hok1 & Hpend1 & C1).
        destruct (IH s1 [] rest Hm Hat1 He1 Hh1 Hpend1 Hok1)
          as (st' & acc' & R & Hat' & He' & Hh' & Hp' & Hok' & C').
        exists st', acc'. split.
        { intros fuel. simpl length. simpl Nat.add. rewrite R1. apply R. }
        repeat (split; [assumption|]).
        rewrite C', C1, <- app_assoc. reflexivity.
    + destruct Hm as (Hts & Hlen & Hstream & Hm). simpl mux.
      destruct (has_a_stream env) eqn:Ea.
      * destruct (Hstream eq_refl) as (-> & Hs & Hpts).
        destruct (pts_of (ts - env_audio_ts_initial env) (a_time_base env))
          as [pts|] eqn:Epts; [|contradiction].
        destruct (extract_loop_audio_written env st ts samples _ pts Hat He Hh
                    Hts Hs Hpend Hok Ea Epts)
          as (s1 & R1 & Hat1 & He1 & Hh1 & Hok1 & Hpend1 & C1).
        destruct (IH s1 [] rest Hm Hat1 He1 Hh1 Hpend1 Hok1)
          as (st' & acc' & R & Hat' & He' & Hh' & Hp' & Hok' & C').
        exists st', acc'. split.
        { intros fuel. simpl length. simpl Nat.add. rewrite R1. apply R. }
        repeat (split; [assumption|]).
        rewrite C', C1, <- app_assoc. reflexivity.
      * destruct (extract_loop_audio_skipped env st ts samples _ acc Hat Hh
                    Hts Hlen Hpend Hok Ea)
          as (s1 & R1 & Hat1 & He1 & Hh1 & Hok1 & Hpend1 & C1).
        destruct (IH s1 acc rest Hm Hat1 He1 Hh1 Hpend1 Hok1)
          as (st' & acc' & R & Hat' & He' & Hh' & Hp' & Hok' & C').
        exists st', acc'. split.
        { intros fuel. simpl length. simpl Nat.add. rewrite R1. apply R. }
        repeat (split; [assumption|]). now rewrite C', C1.
Qed.
(** ** The whole run on a packet sequence *)

(** Words that are no tag are passed four bytes at a time, in the first pass
    and in the second. *)
Lemma infer_loop_words tags :
  forall st rest,
    Forall unknown_word tags ->
    at_pos (in_file st) (words tags ++ rest) ->
    f_eof (in_file st) = false -> hxfi_detected st = false ->
    exists st',
      (forall fuel,
          infer_loop (length tags + fuel) st = infer_loop fuel st') /\
      at_pos (in_file st') rest /\
      f_eof (in_file st') = false /\ hxfi_detected st' = false /\
      video st' = video st /\ audio st' = audio st /\
      video_w st' = video_w st /\ video_h st' = video_h st /\
      f_data (in_file st') = f_data (in_file st) /\
      unknown_headers st' = unknown_headers st ++ tags.
Proof.
  induction tags as [|t tags IH]; intros st rest Hall Hat He Hh.
  - exists st. split; [reflexivity|]. repeat (split; [assumption|]).
    repeat (split; [reflexivity|]). now rewrite app_nil_r.
  - inversion Hall as [|? ? (Hr & N1 & N2 & N3 & N4) Hall']; subst.
    change (words (t :: tags)) with (enc32 t ++ words tags) in Hat.
    rewrite <- app_assoc in Hat.
    pose proof (infer_body_default st t _ Hat Hr N1 N2 N3 N4) as E.
    destruct (fread_tag _ _ _ Hat) as [_ Hat1].
    set (s1 := {| in_file := advance 4 (in_file st);
                  hxfi_detected := hxfi_detected st;
                  video_w := video_w st; video_h := video_h st;
                  video := video st; audio := audio st;
                  unknown_headers := unknown_headers st ++ [t] |}) in *.
    destruct (IH s1 rest Hall' Hat1 He Hh)
      as (st' & R & Hat' & He' & Hh' & Hv & Ha & Hw & Hhh & Hd & Hu).
    exists st'. split.
    { intros fuel. simpl length. simpl Nat.add.
      rewrite (infer_loop_step st s1 E He Hh). apply R. }
    split; [exact Hat'|]. split; [exact He'|]. split; [exact Hh'|].
    split; [exact Hv|]. split; [exact Ha|]. split; [exact Hw|].
    split; [exact Hhh|]. split; [exact Hd|].
    rewrite Hu. unfold s1; cbn [unknown_headers].
    now rewrite <- app_assoc.
Qed.

Lemma extract_body_default env st tag rest :
  at_pos (x_file st) (enc32 tag ++ rest) ->
  unknown_word tag ->
  extract_body env st =
  Next {| x_file := advance 4 (x_file st);
          x_hxfi_detected := x_hxfi_detected st;
          packet_buffer := packet_buffer st;
          packet_buffer_length := packet_buffer_length st;
          packet_buffer_offset := packet_buffer_offset st;
          x_unknown_headers := x_unknown_headers st ++ [tag];
          calls := calls st |}.
Proof.
  intros H (Ht & N1 & N2 & N3 & N4). destruct (fread_tag _ _ _ H) as [E1 H1].
  unfold extract_body. rewrite E1. cbv beta iota delta [negb].
  change (lengthZ (enc32 tag) =? sizeof_header) with true.
  rewrite le32_enc32 by assumption.
  apply Z.eqb_neq in N1, N2, N3, N4. rewrite N1, N2, N3, N4.
  reflexivity.
Qed.

Lemma extract_loop_words env tags :
  forall st rest acc,
    Forall unknown_word tags ->
    at_pos (x_file st) (words tags ++ rest) ->
    f_eof (x_file st) = false -> x_hxfi_detected st = false ->
    pending st acc -> buffer_ok st ->
    exists st',
      (forall fuel,
          extract_loop env (length tags + fuel) st
          = extract_loop env fuel st') /\
      at_pos (x_file st') rest /\
      f_eof (x_file st') = false /\ x_hxfi_detected st' = false /\
      pending st' acc /\ buffer_ok st' /\
      calls st' = calls st /\
      x_unknown_headers st' = x_unknown_headers st ++ tags.
Proof.
  induction tags as [|t tags IH]; intros st rest acc Hall Hat He Hh Hp Hok.
  - exists st. split; [reflexivity|]. repeat (split; [assumption|]).
    split; [reflexivity|]. now rewrite app_nil_r.
  - inversion Hall as [|? ? Hu Hall']; subst.
    change (words (t :: tags)) with (enc32 t ++ words tags) in Hat.
    rewrite <- app_assoc in Hat.
    pose proof (extract_body_default env st t _ Hat Hu) as E.
    destruct (fread_tag _ _ _ Hat) as [_ Hat1].
    set (s1 := {| x_file := advance 4 (x_file st);
                  x_hxfi_detected := x_hxfi_detected st;
                  packet_buffer := packet_buffer st;
                  packet_buffer_length := packet_buffer_length st;
                  packet_buffer_offset := packet_buffer_offset st;
                  x_unknown_headers := x_unknown_headers st ++ [t];
                  calls := calls st |}) in *.
    destruct (IH s1 rest acc Hall' Hat1 He Hh Hp Hok)
      as (st' & R & Hat' & He' & Hh' & Hp' & Hok' & Hc & Hun).
    exists st'. split.
    { intros fuel. simpl length. simpl Nat.add.
      rewrite (extract_loop_step env st s1 E He Hh). apply R. }
    split; [exact Hat'|]. split; [exact He'|]. split; [exact Hh'|].
    split; [exact Hp'|]. split; [exact Hok'|]. split; [exact Hc|].
    rewrite Hun. unfold s1; cbn [x_unknown_headers].
    now rewrite <- app_assoc.
Qed.

Lemma length_words tags : length (words tags) = (4 * length tags)%nat.
Proof.
  induction tags as [|t tags IH]; [reflexivity|].
  change (words (t :: tags)) with (enc32 t ++ words tags).
  rewrite length_app, IH. simpl. lia.
Qed.

Lemma track_summary ps :
  forall st1 st2,
    video st1 = video st2 -> audio st1 = audio st2 ->
    video_w st1 = video_w st2 -> video_h st1 = video_h st2 ->
    video (fold_left track ps st1) = video (fold_left track ps st2) /\
    audio (fold_left track ps st1) = audio (fold_left track ps st2) /\
    video_w (fold_left track ps st1) = video_w (fold_left track ps st2) /\
    video_h (fold_left track ps st1) = video_h (fold_left track ps st2).
Proof.
  induction ps as [|p ps IH]; intros st1 st2 Hv Ha Hw Hh; simpl.
  - repeat split; assumption.
  - apply IH; destruct p; simpl; congruence.
Qed.

(** The first pass on a file of packets closed by the end marker, with
    words that are no tag in front and any bytes behind. *)
Lemma inference_pass_words_packets tags ps junk :
  Forall unknown_word tags -> Forall data_packet ps ->
  let data := words tags ++ encode (ps ++ [End_of_stream]) ++ junk in
  exists st,
    inference_pass (fopen data) =
    (if Qle_bool (video_avg_frame_rate (scan ps)) 0
     then Abort No_video_detected st
     else Next st) /\
    in_file st = fopen data /\
    video st = video (scan ps) /\ audio st = audio (scan ps) /\
    video_w st = video_w (scan ps) /\ video_h st = video_h (scan ps) /\
    unknown_headers st = tags.
Proof.
  intros Htags Hall data.
  assert (Hat : at_pos (in_file (infer_init (fopen data)))
                  (words tags ++ encode ps ++ encode [End_of_stream] ++ junk)).
  { unfold data. rewrite encode_app, <- app_assoc. apply at_pos_fopen. }
  destruct (infer_loop_words tags _ _ Htags Hat eq_refl eq_refl)
    as (s1 & R1 & Hat1 & He1 & Hh1 & Hv1 & Ha1 & Hw1 & Hhh1 & Hd1 & Hu1).
  destruct (infer_loop_packets ps _ _ Hall Hat1 He1 Hh1)
    as (R & Hat2 & He2 & Hh2).
  set (st := fold_left track ps s1) in *.
  destruct (track_summary ps s1 (infer_init (fopen [])) Hv1 Ha1 Hw1 Hhh1)
    as (Sv & Sa & Sw & Sh).
  fold st in Sv, Sa, Sw, Sh. fold (scan ps) in Sv, Sa, Sw, Sh.
  assert (Hun : unknown_headers st = tags).
  { unfold st. clear - Hu1. revert s1 Hu1.
    induction ps as [|p ps IH]; intros s1 Hu1; [exact Hu1|].
    cbn [fold_left]. apply IH. destruct p; exact Hu1. }
  exists (finish st). split; [|split].
  - unfold inference_pass, enough_fuel.
    assert (Hfuel : S (length (f_data (fopen data)))
                    = (length tags + (length ps
                         + S (length data - length tags - length ps)))%nat).
    { simpl. unfold data. rewrite !length_app, length_words.
      pose proof (length_encode (ps ++ [End_of_stream])) as Hl.
      rewrite length_app in Hl. simpl in Hl. lia. }
    rewrite Hfuel, R1, R.
    change (encode [End_of_stream]) with (enc32 HXFI ++ repeat 0 16) in Hat2.
    rewrite <- app_assoc in Hat2.
    simpl infer_loop. rewrite (infer_body_end st _ Hat2).
    unfold feof. cbn [hxfi_detected in_file negb andb].
    rewrite andb_false_r.
    unfold rewind, video_avg_frame_rate. cbn [with_file video]. rewrite <- Sv.
    destruct (Qle_bool (avg_rate (video st)) 0); reflexivity.
  - unfold finish, fopen; cbn [in_file]. unfold st.
    rewrite f_data_fold_track, Hd1. reflexivity.
  - cbn [finish video audio video_w video_h unknown_headers].
    repeat (split; [assumption|]). exact Hun.
Qed.

(** The run on such a file. *)
Lemma main_on_packets skip_audio tb_v tb_a tags ps junk :
  Forall unknown_word tags -> Forall data_packet ps ->
  muxable (env_of skip_audio tb_v tb_a (scan ps)) [] ps ->
  main skip_audio tb_v tb_a
    (words tags ++ encode (ps ++ [End_of_stream]) ++ junk) =
  if Qle_bool (video_avg_frame_rate (scan ps)) 0
  then Exited_1 No_video_detected []
  else Returned_0
         (create_streams skip_audio (scan ps)
          ++ mux (env_of skip_audio tb_v tb_a (scan ps)) [] ps
          ++ [av_write_trailer]).
Proof.
  intros Htags Hall Hm.
  set (data := words tags ++ encode (ps ++ [End_of_stream]) ++ junk).
  destruct (inference_pass_words_packets tags ps junk Htags Hall)
    as (st & EI & Hfile & Sv & Sa & Sw & Sh & _).
  fold data in EI, Hfile.
  destruct (Qle_bool (video_avg_frame_rate (scan ps)) 0).
  { unfold main. now rewrite EI. }
  rewrite (main_after_inference _ _ _ _ _ EI).
  assert (Henv : env_of skip_audio tb_v tb_a st
                 = env_of skip_audio tb_v tb_a (scan ps)).
  { unfold env_of, audio_detected, video_ts_initial, audio_ts_initial,
      audio_avg_sample_rate. now rewrite Sv, Sa. }
  assert (Hcs : create_streams skip_audio st
                = create_streams skip_audio (scan ps)).
  { unfold create_streams, audio_detected, video_avg_frame_rate,
      audio_avg_sample_rate. now rewrite Sv, Sa, Sw, Sh. }
  rewrite Henv, Hcs, Hfile.
  set (env := env_of skip_audio tb_v tb_a (scan ps)) in *.
  set (xs0 := extract_init (fopen data) (create_streams skip_audio (scan ps))).
  assert (Hat : at_pos (x_file xs0)
                  (words tags
                   ++ encode ps ++ encode [End_of_stream] ++ junk)).
  { unfold xs0; cbn [extract_init x_file].
    unfold data. rewrite encode_app, <- app_assoc. apply at_pos_fopen. }
  destruct (extract_loop_words env tags xs0 _ [] Htags Hat eq_refl eq_refl
              (conj eq_refl eq_refl) I)
    as (xs1 & R1 & Hat1 & He1 & Hh1 & Hp1 & Hok1 & C1 & _).
  destruct (extract_loop_mux env ps xs1 [] _ Hm Hat1 He1 Hh1 Hp1 Hok1)
    as (xs2 & acc' & R & Hat2 & He2 & Hh2 & _ & _ & C2).
  assert (Hfuel : enough_fuel (fopen data)
                  = (length tags + (length ps
                       + S (length data - length tags - length ps)))%nat).
  { unfold enough_fuel. simpl. unfold data.
    rewrite !length_app, length_words.
    pose proof (length_encode (ps ++ [End_of_stream])) as Hl.
    rewrite length_app in Hl. simpl in Hl. lia. }
  rewrite Hfuel, R1, R.
  change (encode [End_of_stream]) with (enc32 HXFI ++ repeat 0 16) in Hat2.
  rewrite <- app_assoc in Hat2.
  destruct (extract_body_end env xs2 _ Hat2) as (xs3 & E3 & Hh3 & Hc3).
  simpl extract_loop. rewrite E3, Hh3, andb_false_r.
  rewrite Hc3, C2, C1. unfold xs0; cbn [extract_init calls].
  now rewrite <- app_assoc.
Qed.

(** X6.  The run on a file of packets closed by the end marker is what the
    packets say: "No video detected" if the first pass infers no rate from
    them; otherwise [main] returns 0 and the calls made are the creation of
    the video stream with the size read last, of the audio stream if audio
    was detected, the header, the packets [mux] gives (every parameter set
    joined to the next video payload, audio samples apart, all in file
    order, each stamped by [pts_of]) and the trailer.  The two rates given to
    the streams are left open; the sample rate is taken to be within the
    range of an [int]. *)
Theorem X6_run_is_mux skip_audio tb_v tb_a ps :
  Forall data_packet ps ->
  muxable (env_of skip_audio tb_v tb_a (scan ps)) [] ps ->
  (audio_detected skip_audio (scan ps) = true ->
   (audio_avg_sample_rate (scan ps) * 1000 <= inject_Z (2 ^ 30))%Q) ->
  if Qle_bool (video_avg_frame_rate (scan ps)) 0
  then main skip_audio tb_v tb_a (encode (ps ++ [End_of_stream]))
       = Exited_1 No_video_detected []
  else exists framerate sample_rate,
      main skip_audio tb_v tb_a (encode (ps ++ [End_of_stream]))
      = Returned_0
          ([avformat_new_stream_video (video_w (scan ps)) (video_h (scan ps))
              framerate]
           ++ (if audio_detected skip_audio (scan ps)
               then [avformat_new_stream_audio sample_rate]
               else [])
           ++ [avformat_write_header]
           ++ mux (env_of skip_audio tb_v tb_a (scan ps)) [] ps
           ++ [av_write_trailer]).
Proof.
  intros Hall Hm _.
  pose proof (main_on_packets skip_audio tb_v tb_a [] ps []
                (Forall_nil _) Hall Hm) as E.
  cbn [words flat_map app] in E. rewrite app_nil_r in E. rewrite E.
  destruct (Qle_bool (video_avg_frame_rate (scan ps)) 0); [reflexivity|].
  exists (c_round (video_avg_frame_rate (scan ps))),
         (c_round (audio_avg_sample_rate (scan ps) * 1000)).
  unfold create_streams. now rewrite <- !app_assoc.
Qed.

Lemma X6_witness :
  if Qle_bool
       (video_avg_frame_rate
          (scan [Size_descriptor 640 480; Video_frame 0 sps;
                 Video_frame 0 pps; Video_frame 0 idr;
                 Audio_frame 5 [1; 2; 3]; Video_frame 40 slice;
                 Audio_frame 45 [4; 5; 6]; Video_frame 80 sps])) 0
  then main false (1 # 30) ms
         (encode ([Size_descriptor 640 480; Video_frame 0 sps;
                   Video_frame 0 pps; Video_frame 0 idr;
                   Audio_frame 5 [1; 2; 3]; Video_frame 40 slice;
                   Audio_frame 45 [4; 5; 6]; Video_frame 80 sps]
                  ++ [End_of_stream]))
       = Exited_1 No_video_detected []
  else exists framerate sample_rate,
      main false (1 # 30) ms
        (encode ([Size_descriptor 640 480; Video_frame 0 sps;
                  Video_frame 0 pps; Video_frame 0 idr;
                  Audio_frame 5 [1; 2; 3]; Video_frame 40 slice;
                  Audio_frame 45 [4; 5; 6]; Video_frame 80 sps]
                 ++ [End_of_stream]))
      = Returned_0
          ([avformat_new_stream_video
              (video_w (scan [Size_descriptor 640 480; Video_frame 0 sps;
                              Video_frame 0 pps; Video_frame 0 idr;
                              Audio_frame 5 [1; 2; 3]; Video_frame 40 slice;
                              Audio_frame 45 [4; 5; 6]; Video_frame 80 sps]))
              (video_h (scan [Size_descriptor 640 480; Video_frame 0 sps;
                              Video_frame 0 pps; Video_frame 0 idr;
                              Audio_frame 5 [1; 2; 3]; Video_frame 40 slice;
                              Audio_frame 45 [4; 5; 6]; Video_frame 80 sps]))
              framerate]
           ++ (if audio_detected false
                    (scan [Size_descriptor 640 480; Video_frame 0 sps;
                           Video_frame 0 pps; Video_frame 0 idr;
                           Audio_frame 5 [1; 2; 3]; Video_frame 40 slice;
                           Audio_frame 45 [4; 5; 6]; Video_frame 80 sps])
               then [avformat_new_stream_audio sample_rate]
               else [])
           ++ [avformat_write_header]
           ++ mux (env_of false (1 # 30) ms
                     (scan [Size_descriptor 640 480; Video_frame 0 sps;
                            Video_frame 0 pps; Video_frame 0 idr;
                            Audio_frame 5 [1; 2; 3]; Video_frame 40 slice;
                            Audio_frame 45 [4; 5; 6]; Video_frame 80 sps]))
                []
                [Size_descriptor 640 480; Video_frame 0 sps;
                 Video_frame 0 pps; Video_frame 0 idr;
                 Audio_frame 5 [1; 2; 3]; Video_frame 40 slice;
                 Audio_frame 45 [4; 5; 6]; Video_frame 80 sps]
           ++ [av_write_trailer]).
Proof.
  apply (X6_run_is_mux false (1 # 30) ms
           [Size_descriptor 640 480; Video_frame 0 sps;
            Video_frame 0 pps; Video_frame 0 idr;
            Audio_frame 5 [1; 2; 3]; Video_frame 40 slice;
            Audio_frame 45 [4; 5; 6]; Video_frame 80 sps]).
  - repeat (apply Forall_cons; [decide_ranges|]). apply Forall_nil.
  - vm_compute. repeat split; discriminate.
  - intros _. vm_compute. discriminate.
Defined.

(** X7.  What follows the end marker in the file is never read: the run on
    such a file is the run on the file cut after the marker. *)
Theorem X7_bytes_after_marker_ignored skip_audio tb_v tb_a ps junk :
  Forall data_packet ps ->
  muxable (env_of skip_audio tb_v tb_a (scan ps)) [] ps ->
  main skip_audio tb_v tb_a (encode (ps ++ [End_of_stream]) ++ junk) =
  main skip_audio tb_v tb_a (encode (ps ++ [End_of_stream])).
Proof.
  intros Hall Hm.
  pose proof (main_on_packets skip_audio tb_v tb_a [] ps []
                (Forall_nil _) Hall Hm) as E.
  pose proof (main_on_packets skip_audio tb_v tb_a [] ps junk
                (Forall_nil _) Hall Hm) as E'.
  cbn [words flat_map app] in E, E'. rewrite app_nil_r in E.
  now rewrite E, E'.
Qed.

Lemma X7_witness :
  main false ms ms
    (encode ([Video_frame 0 idr; Video_frame 40 slice] ++ [End_of_stream])
     ++ [72; 88; 86; 70; 1])
  = main false ms ms
      (encode ([Video_frame 0 idr; Video_frame 40 slice] ++ [End_of_stream])).
Proof.
  apply (X7_bytes_after_marker_ignored false ms ms
           [Video_frame 0 idr; Video_frame 40 slice] [72; 88; 86; 70; 1]).
  - repeat (apply Forall_cons; [decide_ranges|]). apply Forall_nil.
  - vm_compute. repeat split; discriminate.
Defined.

(** X8.  Words that are none of the four tags are passed over four bytes at
    a time by both passes, each reported as an unknown header: in front of
    the packets they change nothing of what the run does. *)
Theorem X8_unknown_words_skipped skip_audio tb_v tb_a tags ps :
  Forall unknown_word tags -> Forall data_packet ps ->
  muxable (env_of skip_audio tb_v tb_a (scan ps)) [] ps ->
  main skip_audio tb_v tb_a (words tags ++ encode (ps ++ [End_of_stream])) =
  main skip_audio tb_v tb_a (encode (ps ++ [End_of_stream])).
Proof.
  intros Htags Hall Hm.
  pose proof (main_on_packets skip_audio tb_v tb_a [] ps []
                (Forall_nil _) Hall Hm) as E.
  pose proof (main_on_packets skip_audio tb_v tb_a tags ps []
                Htags Hall Hm) as E'.
  cbn [words flat_map app] in E. rewrite app_nil_r in E, E'.
  now rewrite E, E'.
Qed.

Lemma X8_witness :
  main false ms ms
    (words [HXVT; 0; 4294967295]
     ++ encode ([Video_frame 0 idr; Video_frame 40 slice] ++ [End_of_stream]))
  = main false ms ms
      (encode ([Video_frame 0 idr; Video_frame 40 slice] ++ [End_of_stream])).
Proof.
  apply (X8_unknown_words_skipped false ms ms [HXVT; 0; 4294967295]
           [Video_frame 0 idr; Video_frame 40 slice]).
  - repeat (apply Forall_cons; [decide_ranges|]). apply Forall_nil.
  - repeat (apply Forall_cons; [decide_ranges|]). apply Forall_nil.
  - vm_compute. repeat split; discriminate.
Defined.

(** ** The first pass on any file *)

Lemma infer_loop_invariant (P : infer_state -> Prop) :
  (forall st st', P st -> infer_body st = Next st' -> P st') ->
  forall fuel st st',
    P st -> infer_loop fuel st = Next st' -> P st'.
Proof.
  intros Hstep. induction fuel as [|fuel IH]; intros st st' HP; simpl;
    [discriminate|].
  destruct (infer_body st) as [s|d s|s|] eqn:E; try discriminate.
  specialize (Hstep _ _ HP E).
  destruct (negb (feof (in_file s)) && negb (hxfi_detected s)).
  - now apply IH.
  - intros H. inversion H; subst. exact Hstep.
Qed.

Lemma Qdiv_pos a b : 0 < a -> 0 < b -> (0 < inject_Z a / inject_Z b)%Q.
Proof.
  intros Ha Hb. apply Qlt_shift_div_l.
  - unfold Qlt; simpl; lia.
  - rewrite Qmult_0_l. unfold Qlt; simpl; lia.
Qed.

Lemma update_estimate_rate_ok sample raw e :
  0 < sample -> rate_ok e -> rate_ok (update_estimate sample raw e).
Proof.
  intros Hs (Hc & H0 & Hp). unfold update_estimate.
  destruct (ts_initial e =? -1); [repeat split; assumption|].
  cbv zeta.
  destruct (Z.ltb_spec (ts_prev e) (raw - ts_initial e)) as [Hlt|Hge];
    [|repeat split; assumption].
  unfold rate_ok; cbn [packets_count avg_rate].
  split; [lia|]. split; [lia|]. intros _.
  assert (Hi : (0 < inject_Z sample
                    / inject_Z (raw - ts_initial e - ts_prev e))%Q)
    by (apply Qdiv_pos; lia).
  destruct (Z.eqb_spec (packets_count e) 0) as [E|E]; [exact Hi|].
  assert (Hn : (0 < inject_Z (packets_count e))%Q)
    by (unfold Qlt; simpl; lia).
  apply Qlt_shift_div_l.
  - apply (Qlt_trans _ (inject_Z (packets_count e))); [exact Hn|].
    rewrite <- (Qplus_0_r (inject_Z (packets_count e))) at 1.
    apply Qplus_lt_r. reflexivity.
  - rewrite Qmult_0_l.
    apply (Qlt_trans _ (avg_rate e * inject_Z (packets_count e))).
    + apply Qmult_lt_0_compat; [apply Hp; lia|exact Hn].
    + rewrite <- (Qplus_0_r (avg_rate e * inject_Z (packets_count e))) at 1.
      apply Qplus_lt_r. exact Hi.
Qed.

Lemma infer_body_rate_ok st st' :
  rate_ok (video st) -> infer_body st = Next st' -> rate_ok (video st').
Proof.
  intros Hok. unfold infer_body.
  split_matches; intros H; inversion H; subst; clear H;
    cbn [video with_file];
    first [exact Hok | apply update_estimate_rate_ok; [lia|exact Hok]].
Qed.

Lemma rate_ok_init : rate_ok estimate_init.
Proof.
  unfold rate_ok, estimate_init; simpl.
  split; [lia|]. split; [reflexivity|lia].
Qed.

(** X9.  "No video detected" is the count of the video estimate: whatever
    the file, a first pass that lets the run go on has counted one video frame
    at least and holds a positive frame rate, and one that ends on "No video
    detected" has read the end marker and counted none. *)
Theorem X9_video_detected_iff_counted data :
  (forall st,
      inference_pass (fopen data) = Next st ->
      0 < video_packets_count st /\ (0 < video_avg_frame_rate st)%Q) /\
  (forall st,
      inference_pass (fopen data) = Abort No_video_detected st ->
      video_packets_count st = 0 /\ hxfi_detected st = true).
Proof.
  unfold inference_pass.
  destruct (infer_loop (enough_fuel (fopen data)) (infer_init (fopen data)))
    as [s|d s|s|] eqn:EL.
  2: { split; intros st H; [discriminate|].
       inversion H; subst. apply infer_loop_abort in EL. discriminate. }
  2,3: split; intros st H; discriminate.
  pose proof (infer_loop_invariant (fun st => rate_ok (video st))
                infer_body_rate_ok _ (infer_init (fopen data)) _
                rate_ok_init EL) as (Hc & H0 & Hp).
  pose proof (infer_loop_ends_on_marker _ (infer_init (fopen data)) _
                eq_refl EL) as Hm.
  unfold rewind, video_avg_frame_rate, video_packets_count.
  cbn [with_file video].
  destruct (Qle_bool (avg_rate (video s)) 0) eqn:EQ; split; intros st H;
    inversion H; subst; clear H; cbn [with_file video hxfi_detected].
  - apply Qle_bool_iff in EQ. split; [|exact Hm].
    destruct (Z.eq_dec (packets_count (video s)) 0) as [E|E]; [exact E|].
    exfalso. apply (Qlt_not_le _ _ (Hp ltac:(lia))). exact EQ.
  - assert (Hr : (0 < avg_rate (video s))%Q).
    { apply Qnot_le_lt. intros Hle. apply Qle_bool_iff in Hle. congruence. }
    split; [|exact Hr].
    destruct (Z.eq_dec (packets_count (video s)) 0) as [E|E]; [|lia].
    exfalso. rewrite (H0 E) in Hr. exact (Qlt_irrefl _ Hr).
Qed.

Lemma X9_witness :
  exists st,
    inference_pass
      (fopen (encode [Video_frame 0 idr; Video_frame 40 slice;
                      End_of_stream])) = Next st /\
    0 < video_packets_count st /\ (0 < video_avg_frame_rate st)%Q.
Proof.
  eexists. split; [vm_compute; reflexivity|].
  apply (proj1 (X9_video_detected_iff_counted
                  (encode [Video_frame 0 idr; Video_frame 40 slice;
                           End_of_stream]))).
  vm_compute. reflexivity.
Defined.

(** ** The end marker *)

Lemma fread_got n fp got fp' :
  fread n fp = (got, fp') -> got = takeZ n (dropZ (f_pos fp) (f_data fp)).
Proof. unfold fread. intros H. inversion H. reflexivity. Qed.

Lemma fseek_cur_nonneg off fp fp' :
  fseek_cur off fp = Some fp' -> 0 <= f_pos fp'.
Proof.
  unfold fseek_cur.
  destruct (Z.ltb_spec (f_pos fp + off) 0) as [Hlt|Hge]; [discriminate|].
  intros H. inversion H; subst. simpl. lia.
Qed.

(** The end-marker flag is raised by a tag of the file only. *)
Lemma infer_body_marker data st st' :
  f_data (in_file st) = data /\ 0 <= f_pos (in_file st) /\
  (hxfi_detected st = true ->
   exists pos, 0 <= pos /\ tag_at data pos = Some HXFI) ->
  infer_body st = Next st' ->
  f_data (in_file st') = data /\ 0 <= f_pos (in_file st') /\
  (hxfi_detected st' = true ->
   exists pos, 0 <= pos /\ tag_at data pos = Some HXFI).
Proof.
  intros (Hd & Hp & Hm). unfold infer_body.
  destruct (fread sizeof_header (in_file st)) as [hdr f1] eqn:E1.
  pose proof (fread_got _ _ _ _ E1) as Hhdr.
  destruct (negb (lengthZ hdr =? sizeof_header)) eqn:Hl; [discriminate|].
  apply negb_false_iff, Z.eqb_eq in Hl.
  split_matches; intros Hn; inversion Hn; subst st'; clear Hn;
    try match goal with
        | H : fseek_cur _ _ = Some _ |- _ =>
            pose proof (fseek_cur_nonneg _ _ _ H)
        end;
    file_facts; cbn [in_file with_file hxfi_detected];
    (split; [congruence|]); (split; [lia|]);
    try exact Hm.
  intros _. exists (f_pos (in_file st)). split; [exact Hp|].
  unfold sizeof_header in Hhdr, Hl.
  unfold tag_at. rewrite Hd in Hhdr. rewrite <- Hhdr, Hl. simpl.
  match goal with H : (le32 hdr =? HXFI) = true |- _ =>
    apply Z.eqb_eq in H; now rewrite H end.
Qed.

(** X11.  No call is made to the container library before an end marker is
    found: if a run makes any call, and so if it returns 0, the four bytes at
    some offset of the file are the tag HXFI. *)
Theorem X11_calls_need_end_marker skip_audio tb_v tb_a data :
  trace_of (main skip_audio tb_v tb_a data) <> [] ->
  exists pos, 0 <= pos /\ tag_at data pos = Some HXFI.
Proof.
  unfold main, inference_pass.
  destruct (infer_loop (enough_fuel (fopen data)) (infer_init (fopen data)))
    as [s|d s|s|] eqn:EL; simpl; try congruence.
  intros _.
  pose proof (infer_loop_invariant _ (infer_body_marker data) _
                (infer_init (fopen data)) _
                (conj eq_refl (conj (Z.le_refl 0)
                   (fun H : false = true =>
                      False_ind _ (Bool.diff_false_true H)))) EL)
    as (_ & _ & Hm).
  apply Hm. exact (infer_loop_ends_on_marker _ (infer_init (fopen data)) _
                     eq_refl EL).
Qed.

Lemma X11_witness :
  exists pos,
    0 <= pos /\
    tag_at (encode [Size_descriptor 640 480; Video_frame 0 idr;
                    Video_frame 40 slice; End_of_stream]) pos = Some HXFI.
Proof.
  apply (X11_calls_need_end_marker false ms ms
           (encode [Size_descriptor 640 480; Video_frame 0 idr;
                    Video_frame 40 slice; End_of_stream])).
  vm_compute. discriminate.
Defined.

(** X12.  The frame size comes from the size descriptor read last: on a file
    of packets closed by the end marker the first pass ends with the width
    and height, as [int], of the last size descriptor, and with none if the
    file has no size descriptor. *)
Theorem X12_last_size_descriptor_wins ps :
  Forall data_packet ps ->
  exists st,
    (inference_pass (fopen (encode (ps ++ [End_of_stream]))) = Next st \/
     inference_pass (fopen (encode (ps ++ [End_of_stream])))
     = Abort No_video_detected st) /\
    video_w st = option_map (fun s => to_int (fst s)) (last_size ps) /\
    video_h st = option_map (fun s => to_int (snd s)) (last_size ps).
Proof.
  intros Hall. pose proof (inference_pass_packets ps Hall) as EI.
  cbv zeta in EI.
  set (st0 := infer_init (fopen (encode (ps ++ [End_of_stream])))) in *.
  exists (finish (fold_left track ps st0)). split.
  { destruct (Qle_bool _ 0); [right|left]; exact EI. }
  cbn [finish video_w video_h].
  assert (G : forall st,
             video_w (fold_left track ps st)
             = match last_size ps with
               | Some s => Some (to_int (fst s))
               | None => video_w st
               end /\
             video_h (fold_left track ps st)
             = match last_size ps with
               | Some s => Some (to_int (snd s))
               | None => video_h st
               end).
  { clear. induction ps as [|p ps IH]; intros st; [split; reflexivity|].
    cbn [fold_left]. destruct (IH (track st p)) as (Iw & Ih).
    rewrite Iw, Ih.
    destruct p; cbn [last_size]; destruct (last_size ps);
      split; reflexivity. }
  destruct (G st0) as (Gw & Gh). rewrite Gw, Gh.
  destruct (last_size ps); split; reflexivity.
Qed.

Lemma X12_witness :
  exists st,
    (inference_pass
       (fopen (encode ([Size_descriptor 640 480; Video_frame 0 idr;
                        Size_descriptor 1920 1080; Video_frame 40 slice]
                       ++ [End_of_stream]))) = Next st \/
     inference_pass
       (fopen (encode ([Size_descriptor 640 480; Video_frame 0 idr;
                        Size_descriptor 1920 1080; Video_frame 40 slice]
                       ++ [End_of_stream])))
     = Abort No_video_detected st) /\
    video_w st = Some 1920 /\ video_h st = Some 1080.
Proof.
  apply (X12_last_size_descriptor_wins
           [Size_descriptor 640 480; Video_frame 0 idr;
            Size_descriptor 1920 1080; Video_frame 40 slice]).
  repeat (apply Forall_cons; [decide_ranges|]). apply Forall_nil.
Defined.

(** X13: a run of the model on a file of bytes never runs out of fuel. *)
Lemma main_terminates_witness :
  main false ms ms (encode [Video_frame 0 idr; End_of_stream])
  <> Run_out_of_fuel.
Proof.
  apply (main_terminates false ms ms
           (encode [Video_frame 0 idr; End_of_stream])).
  unfold bytes. apply Forall_forall. intros b Hb. vm_compute in Hb.
  repeat (destruct Hb as [<-|Hb]; [lia|]). contradiction.
Defined.

(** ** The frame rate handed to the encoder *)

Lemma update_estimate_within sample raw e :
  0 <= sample -> rate_within sample e ->
  rate_within sample (update_estimate sample raw e).
Proof.
  intros Hs (Hc & H0 & H1). unfold update_estimate.
  destruct (ts_initial e =? -1); [repeat split; assumption|].
  cbv zeta.
  destruct (Z.ltb_spec (ts_prev e) (raw - ts_initial e)) as [Hlt|Hge];
    [|repeat split; assumption].
  unfold rate_within; cbn [packets_count avg_rate].
  split; [lia|].
  set (d := raw - ts_initial e - ts_prev e).
  assert (Hd : 1 <= d) by (unfold d; lia).
  assert (Hi : (0 <= inject_Z sample / inject_Z d <= inject_Z sample)%Q).
  { split.
    - apply Qle_shift_div_l; [unfold Qlt; simpl; lia|].
      rewrite Qmult_0_l. unfold Qle; simpl; lia.
    - apply Qle_shift_div_r; [unfold Qlt; simpl; lia|].
      rewrite <- inject_Z_mult. rewrite <- Zle_Qle. nia. }
  destruct (Z.eqb_spec (packets_count e) 0) as [E|E]; [exact Hi|].
  set (n := inject_Z (packets_count e)).
  assert (Hn : (0 < n)%Q) by (unfold n, Qlt; simpl; lia).
  assert (Hn1 : (0 < n + 1)%Q).
  { apply (Qlt_trans _ n); [exact Hn|].
    rewrite <- (Qplus_0_r n) at 1. apply Qplus_lt_r. reflexivity. }
  destruct Hi as (Hi0 & Hi1). split.
  - apply Qle_shift_div_l; [exact Hn1|]. rewrite Qmult_0_l.
    rewrite <- (Qplus_0_r 0). apply Qplus_le_compat; [|exact Hi0].
    apply Qmult_le_0_compat; [exact H0|]. apply Qlt_le_weak, Hn.
  - apply Qle_shift_div_r; [exact Hn1|].
    rewrite Qmult_plus_distr_r, Qmult_1_r.
    apply Qplus_le_compat; [|exact Hi1].
    apply Qmult_le_compat_r; [exact H1|]. apply Qlt_le_weak, Hn.
Qed.

Lemma infer_body_within st st' :
  rate_within 1000 (video st) -> infer_body st = Next st' ->
  rate_within 1000 (video st').
Proof.
  intros Hok. unfold infer_body.
  split_matches; intros Hn; inversion Hn; subst; clear Hn;
    cbn [video with_file];
    first [exact Hok | apply update_estimate_within; [lia|exact Hok]].
Qed.

Lemma c_round_within q b :
  0 <= b -> (0 <= q <= inject_Z b)%Q -> 0 <= c_round q <= b.
Proof.
  intros Hb (H0 & H1). unfold c_round.
  apply Qle_bool_iff in H0. rewrite H0. apply Qle_bool_iff in H0.
  split.
  - change 0 with (Qfloor (0 + (1 # 2))). apply Qfloor_resp_le.
    apply Qplus_le_compat; [exact H0|apply Qle_refl].
  - assert (Hf : Qfloor (inject_Z b + (1 # 2)) = b).
    { pose proof (c_round_inject_Z b) as Hf. unfold c_round in Hf.
      assert (Hb0 : Qle_bool 0 (inject_Z b) = true)
        by (apply Qle_bool_iff; unfold Qle; simpl; lia).
      now rewrite Hb0 in Hf. }
    apply (Z.le_trans _ (Qfloor (inject_Z b + (1 # 2)))); [|lia].
    apply Qfloor_resp_le.
    apply Qplus_le_compat; [exact H1|apply Qle_refl].
Qed.

(** X15.  The frame rate handed to the encoder is in range.  Whatever the
    file, if a run creates the video stream then the frame rate it gives, the
    inferred rate rounded, is an integer from 0 to 1000: every instantaneous
    rate is 1000 over a whole number of milliseconds, so the conversion to
    [int] cannot overflow. *)
Theorem X15_frame_rate_in_range skip_audio tb_v tb_a data w h r :
  In (avformat_new_stream_video w h r)
     (trace_of (main skip_audio tb_v tb_a data)) ->
  0 <= r <= 1000.
Proof.
  unfold main.
  destruct (inference_pass (fopen data)) as [st|d s|s|] eqn:EI;
    try (simpl; contradiction).
  assert (Hr : 0 <= c_round (video_avg_frame_rate st) <= 1000).
  { unfold inference_pass in EI.
    destruct (infer_loop _ _) as [s|d s|s|] eqn:EL; try discriminate.
    pose proof (infer_loop_invariant (fun st => rate_within 1000 (video st))
                  infer_body_within _ (infer_init (fopen data)) _
                  ltac:(unfold rate_within; simpl; split;
                        [lia|split; discriminate]) EL) as (_ & Hq).
    unfold rewind in EI. destruct (Qle_bool _ 0); [discriminate|].
    inversion EI; subst. unfold video_avg_frame_rate. cbn [with_file video].
    apply c_round_within; [lia|exact Hq]. }
  pose proof (extract_loop_calls (env_of skip_audio tb_v tb_a st)
                (enough_fuel (in_file st))
                (extract_init (in_file st) (create_streams skip_audio st)))
    as Hc.
  assert (G : forall tr ws,
             tr = create_streams skip_audio st ++ ws ->
             Forall (fun c => is_write c = true) ws ->
             In (avformat_new_stream_video w h r) tr -> 0 <= r <= 1000).
  { intros tr ws -> Hw Hin. apply in_app_or in Hin.
    destruct Hin as [Hin|Hin].
    - unfold create_streams in Hin. cbn [app] in Hin.
      destruct Hin as [E|Hin]; [inversion E; subst; exact Hr|].
      apply in_app_or in Hin. destruct Hin as [Hin|Hin].
      + destruct (audio_detected skip_audio st); [|contradiction].
        destruct Hin as [E|[]]. discriminate.
      + destruct Hin as [E|[]]. discriminate.
    - rewrite Forall_forall in Hw. specialize (Hw _ Hin). discriminate. }
  destruct (extract_loop _ _ _) as [xs|d xs|xs|]; simpl in Hc |- *;
    try contradiction; destruct Hc as (ws & E & Hw).
  - intros Hin. apply in_app_or in Hin. destruct Hin as [Hin|Hin].
    + exact (G _ _ E Hw Hin).
    + destruct Hin as [E'|[]]. discriminate.
  - exact (G _ _ E Hw).
  - exact (G _ _ E Hw).
Qed.

Lemma X15_witness : 0 <= 25 <= 1000.
Proof.
  apply (X15_frame_rate_in_range false ms ms
           (encode [Size_descriptor 640 480; Video_frame 0 idr;
                    Video_frame 40 slice; End_of_stream])
           (Some 640) (Some 480) 25).
  vm_compute. left. reflexivity.
Defined.

(** ** C strings *)

Lemma strlen_text s g : text s -> strlen (s ++ NUL :: g) = Some (length s).
Proof.
  induction 1 as [|c s Hc _ IH]; simpl.
  - reflexivity.
  - apply Ascii.eqb_neq in Hc. rewrite Hc, IH. reflexivity.
Qed.

Lemma strlen_no_terminator s : text s -> strlen s = None.
Proof.
  induction 1 as [|c s Hc _ IH]; simpl; [reflexivity|].
  apply Ascii.eqb_neq in Hc. rewrite Hc, IH. reflexivity.
Qed.

Lemma c_str_text s g : text s -> c_str (s ++ NUL :: g) = Some s.
Proof.
  induction 1 as [|c s Hc _ IH]; simpl.
  - reflexivity.
  - apply Ascii.eqb_neq in Hc. rewrite Hc, IH. reflexivity.
Qed.

Lemma text_app a b : text a -> text b -> text (a ++ b).
Proof. unfold text. intros Ha Hb. apply Forall_app. now split. Qed.

Lemma text_firstn n s : text s -> text (firstn n s).
Proof.
  unfold text. intros H. rewrite <- (firstn_skipn n s) in H.
  apply Forall_app in H. tauto.
Qed.

Lemma text_skipn n s : text s -> text (skipn n s).
Proof.
  unfold text. intros H. rewrite <- (firstn_skipn n s) in H.
  apply Forall_app in H. tauto.
Qed.

Lemma list_eq_cons (c d : ascii) (a b : list ascii) :
  (if list_eq_dec ascii_dec (c :: a) (d :: b) then true else false)
  = Ascii.eqb c d && (if list_eq_dec ascii_dec a b then true else false).
Proof.
  destruct (list_eq_dec ascii_dec (c :: a) (d :: b)) as [E|N].
  - inversion E; subst. rewrite Ascii.eqb_refl.
    destruct (list_eq_dec ascii_dec b b); [reflexivity|congruence].
  - destruct (Ascii.eqb_spec c d) as [->|Hcd]; [|reflexivity].
    destruct (list_eq_dec ascii_dec a b) as [->|]; [congruence|reflexivity].
Qed.

Lemma strncmp_eq_text a :
  forall b r1 r2,
    text a -> length a = length b ->
    strncmp_eq (a ++ r1) (b ++ r2) (length a)
    = Some (if list_eq_dec ascii_dec a b then true else false).
Proof.
  induction a as [|c a IH]; intros [|d b] r1 r2 Ht Hl; try discriminate.
  - cbn [app length strncmp_eq].
    destruct (list_eq_dec ascii_dec [] []) as [E|N];
      [reflexivity|now contradiction N].
  - inversion Ht as [|? ? Hc Ht']; subst. simpl in Hl.
    cbn [app length strncmp_eq]. rewrite list_eq_cons.
    destruct (Ascii.eqb c d); [|reflexivity].
    apply Ascii.eqb_neq in Hc. rewrite Hc.
    apply IH; [exact Ht'|lia].
Qed.

Lemma EndsWith_suffixb s suf g1 g2 :
  text s -> text suf ->
  EndsWith (Some (s ++ NUL :: g1)) (Some (suf ++ NUL :: g2))
  = Some (suffixb suf s).
Proof.
  intros Hs Hsuf. unfold EndsWith, suffixb.
  rewrite (strlen_text s g1 Hs), (strlen_text suf g2 Hsuf).
  destruct (Nat.ltb_spec (length s) (length suf)) as [Hlt|Hge].
  - destruct (Nat.leb_spec (length suf) (length s)); [lia|reflexivity].
  - destruct (Nat.leb_spec (length suf) (length s)); [|lia].
    rewrite skipn_app.
    replace (length s - length suf - length s)%nat with O by lia.
    cbn [skipn andb].
    assert (Hlen : length (skipn (length s - length suf) s) = length suf)
      by (rewrite length_skipn; lia).
    rewrite <- Hlen at 2.
    apply strncmp_eq_text; [now apply text_skipn|exact Hlen].
Qed.

Lemma suffixb_spec suf s :
  suffixb suf s = true <-> exists pre, s = pre ++ suf.
Proof.
  unfold suffixb. split.
  - intros H. apply andb_true_iff in H. destruct H as [_ H].
    destruct (list_eq_dec ascii_dec _ suf) as [E|]; [|discriminate].
    exists (firstn (length s - length suf) s).
    rewrite <- E at 2. symmetry. apply firstn_skipn.
  - intros (pre & ->). rewrite length_app.
    replace (length pre + length suf - length suf)%nat with (length pre)
      by lia.
    rewrite skipn_app, skipn_all, Nat.sub_diag. cbn [skipn app].
    destruct (list_eq_dec ascii_dec suf suf); [|congruence].
    rewrite andb_true_r. apply Nat.leb_le. lia.
Qed.

(** X16.  [EndsWith] tells whether a string ends with another: on two
    strings, each followed by its terminator in its array, the call is
    defined and returns true exactly when the first is the second with
    something in front. *)
Theorem X16_EndsWith_is_suffix s suf g1 g2 :
  text s -> text suf ->
  exists b,
    EndsWith (Some (s ++ NUL :: g1)) (Some (suf ++ NUL :: g2)) = Some b /\
    (b = true <-> exists pre, s = pre ++ suf).
Proof.
  intros Hs Hsuf. exists (suffixb suf s).
  split; [now apply EndsWith_suffixb|apply suffixb_spec].
Qed.

Lemma text_chars (s : list ascii) :
  forallb (fun c => negb (Ascii.eqb c NUL)) s = true -> text s.
Proof.
  intros H. apply Forall_forall. intros c Hc.
  rewrite forallb_forall in H. specialize (H c Hc).
  apply negb_true_iff in H. now apply Ascii.eqb_neq.
Qed.

Lemma X16_witness :
  exists b,
    EndsWith (Some (["c"; "a"; "m"; "."; "2"; "6"; "4"]%char ++ NUL :: []))
      (Some (["."; "2"; "6"; "4"]%char ++ NUL :: [])) = Some b /\
    (b = true <->
     exists pre, ["c"; "a"; "m"; "."; "2"; "6"; "4"]%char
                 = pre ++ ["."; "2"; "6"; "4"]%char).
Proof.
  apply (X16_EndsWith_is_suffix ["c"; "a"; "m"; "."; "2"; "6"; "4"]%char
           ["."; "2"; "6"; "4"]%char [] []);
    apply text_chars; reflexivity.
Defined.

(** ** The generated name *)

Lemma strncpy_chars_text s g :
  text s ->
  forall n,
    strncpy_chars (s ++ NUL :: g) n
    = Some (firstn n s ++ repeat NUL (n - length s)).
Proof.
  induction 1 as [|c s Hc _ IH]; intros [|n]; try reflexivity.
  cbn [app strncpy_chars]. apply Ascii.eqb_neq in Hc. rewrite Hc, IH.
  reflexivity.
Qed.

Lemma skipn_repeat {A : Type} (x : A) k n :
  skipn k (repeat x n) = repeat x (n - k).
Proof.
  revert n. induction k as [|k IH]; intros [|n]; simpl; try reflexivity.
  apply IH.
Qed.

Lemma strcat_text s t k g :
  text s -> text t ->
  strcat (s ++ repeat NUL k) (t ++ NUL :: g)
  = if (length t <? k)%nat
    then Some (s ++ t ++ repeat NUL (k - length t))
    else None.
Proof.
  intros Hs Ht. unfold strcat. rewrite (strlen_text t g Ht).
  destruct k as [|k].
  - rewrite app_nil_r, (strlen_no_terminator s Hs). reflexivity.
  - change (repeat NUL (S k)) with (NUL :: repeat NUL k).
    rewrite (strlen_text s _ Hs). unfold poke.
    assert (Hf : firstn (S (length t)) (t ++ NUL :: g) = t ++ [NUL]).
    { replace (S (length t)) with (length t + 1)%nat by lia.
      rewrite firstn_app_2. reflexivity. }
    rewrite Hf, !length_app. cbn [length]. rewrite repeat_length.
    destruct (Nat.ltb_spec (length t) (S k)) as [Hlt|Hge].
    + destruct (Nat.leb_spec (length s + (length t + 1))
                  (length s + S k)) as [_|]; [|lia].
      f_equal.
      rewrite firstn_app, firstn_all, Nat.sub_diag. cbn [firstn].
      rewrite app_nil_r. f_equal. rewrite <- app_assoc. f_equal.
      rewrite skipn_app, skipn_all2 by lia.
      replace (length s + (length t + 1) - length s)%nat
        with (S (length t)) by lia.
      change (NUL :: repeat NUL k) with (repeat NUL (S k)).
      rewrite skipn_repeat. cbn [app].
      replace (S k - length t)%nat with (S (S k - S (length t))) by lia.
      reflexivity.
    + destruct (Nat.leb_spec (length s + (length t + 1))
                  (length s + S k)) as [|_]; [lia|reflexivity].
Qed.

Lemma strcat_no_terminator dest src : text src -> strcat dest src = None.
Proof.
  intros H. unfold strcat. rewrite (strlen_no_terminator src H).
  destruct (strlen dest); reflexivity.
Qed.

Lemma skip_delim_text delim s g :
  delim <> NUL ->
  skip_delim delim (s ++ NUL :: g) = skip_delim delim s ++ NUL :: g.
Proof.
  intros Hd. induction s as [|c s IH]; cbn [app skip_delim].
  - destruct (Ascii.eqb_spec NUL delim); [congruence|reflexivity].
  - destruct (Ascii.eqb c delim); [exact IH|reflexivity].
Qed.

Lemma text_skip_delim delim s : text s -> text (skip_delim delim s).
Proof.
  induction 1 as [|c s Hc Hs IH]; simpl; [constructor|].
  destruct (Ascii.eqb c delim); [exact IH|now constructor].
Qed.

Lemma skip_delim_head delim s c t :
  skip_delim delim s = c :: t -> Ascii.eqb c delim = false.
Proof.
  induction s as [|d s IH]; simpl; [discriminate|].
  destruct (Ascii.eqb d delim) eqn:E; [exact IH|].
  intros H. inversion H; subst. exact E.
Qed.

Lemma end_token_text delim s g :
  text s ->
  exists g', end_token delim (s ++ NUL :: g) = Some (token delim s ++ NUL :: g').
Proof.
  induction 1 as [|c s Hc _ IH]; cbn [app end_token token].
  - exists g. now rewrite Ascii.eqb_refl.
  - apply Ascii.eqb_neq in Hc. rewrite Hc.
    destruct (Ascii.eqb c delim).
    + exists (s ++ NUL :: g). reflexivity.
    + destruct IH as (g' & ->). exists g'. reflexivity.
Qed.

Lemma text_token delim s : text s -> text (token delim s).
Proof.
  induction 1 as [|c s Hc Hs IH]; simpl; [constructor|].
  destruct (Ascii.eqb c delim); now constructor.
Qed.

Lemma comma_not_NUL : ","%char <> NUL.
Proof. discriminate. Qed.

Lemma poke_ext cs :
  length cs = (MAX_EXTENSION_LEN - 1)%nat ->
  poke ("."%char :: repeat NUL (MAX_EXTENSION_LEN - 1)) 1 cs
  = Some ("."%char :: cs).
Proof.
  intros H. unfold poke. rewrite H. cbn. now rewrite app_nil_r.
Qed.

(** [ext] after the branch that fills it. *)
Lemma default_extension_text exts g :
  text exts ->
  default_extension (exts ++ NUL :: g) =
  match exts with
  | [] => Some (["."; "o"; "u"; "t"]%char ++ repeat NUL 8)
  | _ =>
      match first_token ","%char exts with
      | [] => None
      | tok =>
          Some ("."%char :: firstn (MAX_EXTENSION_LEN - 1) tok
                  ++ repeat NUL (MAX_EXTENSION_LEN - 1 - length tok))
      end
  end.
Proof.
  intros Ht. unfold default_extension. cbv zeta.
  rewrite (strlen_text exts g Ht).
  destruct exts as [|c0 exts0]; [reflexivity|].
  set (exts := c0 :: exts0) in *.
  assert (Hpos : (0 <? length exts)%nat = true) by reflexivity.
  rewrite Hpos.
  assert (Hf : firstn (S (length exts)) (exts ++ NUL :: g) = exts ++ [NUL]).
  { replace (S (length exts)) with (length exts + 1)%nat by lia.
    rewrite firstn_app_2. reflexivity. }
  rewrite Hf. unfold strtok, first_token.
  rewrite (skip_delim_text _ exts [] comma_not_NUL).
  pose proof (text_skip_delim ","%char exts Ht) as Hts.
  pose proof (skip_delim_head ","%char exts) as Hh.
  destruct (skip_delim ","%char exts) as [|c t] eqn:Es.
  - reflexivity.
  - inversion Hts as [|? ? Hc Htt]; subst.
    cbn [app]. pose proof Hc as Hc'. apply Ascii.eqb_neq in Hc'. rewrite Hc'.
    destruct (end_token_text ","%char (c :: t) [] Hts) as (g' & E).
    cbn [app] in E. rewrite E. cbn [option_map].
    assert (Htok : token ","%char (c :: t) = c :: token ","%char t)
      by (cbn [token]; now rewrite (Hh c t eq_refl)).
    pose proof (text_token ","%char (c :: t) Hts) as Htt'.
    destruct (token ","%char (c :: t)) as [|c1 tok1]; [discriminate Htok|].
    unfold strncpy. rewrite (strncpy_chars_text _ g' Htt').
    rewrite poke_ext; [reflexivity|].
    rewrite length_app, length_firstn, repeat_length. lia.
Qed.

Lemma text_first_token delim s : text s -> text (first_token delim s).
Proof. intros H. apply text_token, text_skip_delim, H. Qed.

Lemma dot_not_NUL : "."%char <> NUL.
Proof. discriminate. Qed.

(** An extension that [extension_of] accepts is in [ext] behind the dot,
    with its terminator. *)
Lemma default_extension_valid exts e g :
  text exts -> extension_of exts = Some e ->
  text ("."%char :: e) /\
  exists k,
    default_extension (exts ++ NUL :: g)
    = Some (("."%char :: e) ++ NUL :: repeat NUL k).
Proof.
  intros Ht He. rewrite (default_extension_text exts g Ht).
  unfold extension_of in He. destruct exts as [|c0 exts0].
  - inversion He; subst. split.
    + apply text_chars. reflexivity.
    + exists 7%nat. reflexivity.
  - pose proof (text_first_token ","%char (c0 :: exts0) Ht) as Htt.
    destruct (first_token ","%char (c0 :: exts0)) as [|c1 tok1];
      [discriminate|].
    destruct (Nat.ltb_spec (length (c1 :: tok1)) (MAX_EXTENSION_LEN - 1))
      as [Hlt|]; [|discriminate].
    inversion He; subst. split.
    + constructor; [exact dot_not_NUL|exact Htt].
    + cbv zeta. rewrite firstn_all2 by lia.
      destruct (MAX_EXTENSION_LEN - 1 - length (c1 :: tok1))%nat as [|k]
        eqn:Ek; [lia|].
      exists k. reflexivity.
Qed.

Lemma text_264 : text ["."; "2"; "6"; "4"]%char.
Proof. apply text_chars. reflexivity. Qed.

Lemma suffixb_length suf s :
  suffixb suf s = true -> (length suf <= length s)%nat.
Proof.
  unfold suffixb. intros H. apply andb_true_iff in H.
  destruct H as [H _]. now apply Nat.leb_le.
Qed.

Lemma poke_zeros size cs :
  poke (repeat NUL size) 0 cs
  = if (length cs <=? size)%nat
    then Some (cs ++ repeat NUL (size - length cs))
    else None.
Proof.
  unfold poke. rewrite repeat_length. cbn [Nat.add firstn app].
  now rewrite skipn_repeat.
Qed.

(** [format_ctx->filename], all null characters at first, once the input
    name has been copied or appended. *)
Lemma stem_stored size name g :
  text name ->
  (if suffixb ["."; "2"; "6"; "4"]%char name then
     match strlen (name ++ NUL :: g) with
     | Some l =>
         strncpy (repeat NUL size) 0 (name ++ NUL :: g) (size_sub l 4)
     | None => None
     end
   else strcat (repeat NUL size) (name ++ NUL :: g))
  = if (if suffixb ["."; "2"; "6"; "4"]%char name
        then length (stem name) <=? size
        else length (stem name) <? size)%nat
    then Some (stem name ++ repeat NUL (size - length (stem name)))
    else None.
Proof.
  intros Ht. unfold stem.
  destruct (suffixb ["."; "2"; "6"; "4"]%char name) eqn:Es.
  - apply suffixb_length in Es. cbn [length] in Es.
    rewrite (strlen_text name g Ht).
    assert (Hsub : size_sub (length name) 4 = (length name - 4)%nat).
    { unfold size_sub.
      destruct (Nat.leb_spec 4 (length name)); [reflexivity|lia]. }
    rewrite Hsub. unfold strncpy.
    rewrite (strncpy_chars_text name g Ht).
    replace (length name - 4 - length name)%nat with O by lia.
    cbn [repeat]. rewrite app_nil_r. apply poke_zeros.
  - pose proof (strcat_text [] name size g ltac:(constructor) Ht) as H.
    cbn [app] in H. rewrite H. reflexivity.
Qed.

(** The array [format_ctx->filename] at the end of the branch, when it is
    all null characters at first. *)
Lemma generated_filename_text size name exts e g1 g2 :
  text name -> text exts -> extension_of exts = Some e ->
  generated_filename (repeat NUL size) (name ++ NUL :: g1) (exts ++ NUL :: g2)
  = if (length (stem name) + length e + 1 <? size)%nat
    then Some (stem name ++ "."%char :: e
                 ++ repeat NUL (size - length (stem name) - length e - 1))
    else None.
Proof.
  intros Hn Hx He. unfold generated_filename.
  destruct (default_extension_valid exts e g2 Hx He) as (Hte & k & ->).
  change (["."; "2"; "6"; "4"; NUL]%char)
    with (["."; "2"; "6"; "4"]%char ++ NUL :: []).
  rewrite (EndsWith_suffixb name _ g1 [] Hn text_264).
  rewrite (stem_stored size name g1 Hn).
  assert (Hts : text (stem name)).
  { unfold stem. destruct (suffixb _ name); [now apply text_firstn|exact Hn]. }
  destruct (if suffixb ["."; "2"; "6"; "4"]%char name
            then (length (stem name) <=? size)%nat
            else (length (stem name) <? size)%nat) eqn:Efit.
  - rewrite (strcat_text (stem name) ("."%char :: e) _ _ Hts Hte).
    cbn [length].
    destruct (Nat.ltb_spec (S (length e)) (size - length (stem name)));
      destruct (Nat.ltb_spec (length (stem name) + length e + 1) size);
      try lia; [|reflexivity].
    replace (size - length (stem name) - S (length e))%nat
      with (size - length (stem name) - length e - 1)%nat by lia.
    reflexivity.
  - destruct (Nat.ltb_spec (length (stem name) + length e + 1) size)
      as [Hlt|]; [|reflexivity].
    exfalso. destruct (suffixb ["."; "2"; "6"; "4"]%char name).
    + apply Nat.leb_gt in Efit. lia.
    + apply Nat.ltb_ge in Efit. lia.
Qed.

(** X17.  The generated output name.  With a file-name array of null
    characters, the input name [name] and the extensions [exts] of the
    format, the branch leaves in the array the input name, without its last
    four characters if they are ".264", then a dot, then the first of the
    comma-separated extensions ("out" if the format has none), provided that
    extension has at most ten characters and the whole, with its terminator,
    fits the array. *)
Theorem X17_generated_name size name exts e g1 g2 :
  text name -> text exts -> extension_of exts = Some e ->
  (length (stem name) + length e + 1 < size)%nat ->
  exists a,
    generated_filename (repeat NUL size) (name ++ NUL :: g1)
      (exts ++ NUL :: g2) = Some a /\
    length a = size /\
    c_str a = Some (stem name ++ "."%char :: e).
Proof.
  intros Hn Hx He Hfit.
  rewrite (generated_filename_text size name exts e g1 g2 Hn Hx He).
  destruct (Nat.ltb_spec (length (stem name) + length e + 1) size); [|lia].
  eexists. split; [reflexivity|]. split.
  - rewrite length_app. cbn [length]. rewrite length_app, repeat_length. lia.
  - destruct (default_extension_valid exts e g2 Hx He) as (Hte & _).
    assert (Hts : text (stem name)).
    { unfold stem.
      destruct (suffixb _ name); [now apply text_firstn|exact Hn]. }
    replace (size - length (stem name) - length e - 1)%nat
      with (S (size - length (stem name) - length e - 2)) by lia.
    cbn [repeat].
    change (stem name ++ "."%char :: e ++ NUL :: ?r)
      with (stem name ++ ("."%char :: e) ++ NUL :: r).
    rewrite app_assoc. apply c_str_text. now apply text_app.
Qed.

Lemma X17_witness :
  exists a,
    generated_filename (repeat NUL 1024)
      (["c"; "a"; "m"; "."; "2"; "6"; "4"]%char ++ NUL :: [])
      (["m"; "k"; "v"; ","; "m"; "k"; "a"]%char ++ NUL :: []) = Some a /\
    length a = 1024%nat /\
    c_str a = Some (stem ["c"; "a"; "m"; "."; "2"; "6"; "4"]%char
                      ++ "."%char :: ["m"; "k"; "v"]%char).
Proof.
  apply (X17_generated_name 1024
           ["c"; "a"; "m"; "."; "2"; "6"; "4"]%char
           ["m"; "k"; "v"; ","; "m"; "k"; "a"]%char
           ["m"; "k"; "v"]%char [] []).
  - apply text_chars. reflexivity.
  - apply text_chars. reflexivity.
  - reflexivity.
  - vm_compute. lia.
Defined.

(** X18.  An extension that [ext] cannot hold.  If the extensions of the
    format are commas only, [strtok] returns a null pointer that [strncpy]
    reads from; if the first of them has eleven characters or more,
    [strncpy] leaves [ext] without a terminator and [strcat] reads past its
    end: in both cases the branch has no defined result, whatever the
    file-name array holds. *)
Theorem X18_extension_overflows_ext filename name exts g1 g2 :
  text name -> text exts -> exts <> [] ->
  first_token ","%char exts = [] \/
  (MAX_EXTENSION_LEN - 1 <= length (first_token ","%char exts))%nat ->
  generated_filename filename (name ++ NUL :: g1) (exts ++ NUL :: g2) = None.
Proof.
  intros Hn Hx Hne Hbad. unfold generated_filename.
  rewrite (default_extension_text exts g2 Hx).
  destruct exts as [|c0 exts0]; [congruence|].
  pose proof (text_first_token ","%char (c0 :: exts0) Hx) as Htt.
  destruct (first_token ","%char (c0 :: exts0)) as [|c1 tok1];
    [reflexivity|].
  destruct Hbad as [Hbad|Hbad]; [discriminate|].
  cbv zeta.
  replace (MAX_EXTENSION_LEN - 1 - length (c1 :: tok1))%nat with O by lia.
  cbn [repeat]. rewrite app_nil_r.
  change (["."; "2"; "6"; "4"; NUL]%char)
    with (["."; "2"; "6"; "4"]%char ++ NUL :: []).
  rewrite (EndsWith_suffixb name _ g1 [] Hn text_264).
  assert (Hext : text ("."%char :: firstn (MAX_EXTENSION_LEN - 1) (c1 :: tok1))).
  { constructor; [exact dot_not_NUL|now apply text_firstn]. }
  destruct (if suffixb ["."; "2"; "6"; "4"]%char name then _ else _);
    [|reflexivity].
  now apply strcat_no_terminator.
Qed.

Lemma X18_witness :
  generated_filename (repeat NUL 1024)
    (["c"; "a"; "m"]%char ++ NUL :: [])
    (["m"; "a"; "t"; "r"; "o"; "s"; "k"; "a"; "f"; "m"; "t"; ","; "x"]%char
     ++ NUL :: []) = None.
Proof.
  apply (X18_extension_overflows_ext (repeat NUL 1024) ["c"; "a"; "m"]%char
           ["m"; "a"; "t"; "r"; "o"; "s"; "k"; "a"; "f"; "m"; "t"; ",";
            "x"]%char [] []).
  - apply text_chars. reflexivity.
  - apply text_chars. reflexivity.
  - discriminate.
  - right. vm_compute. lia.
Defined.

(** X19.  A name that does not fit.  With a file-name array of [size] null
    characters, a generated name that would need [size] characters or more
    before its terminator is written past the end of the array: the branch
    has no defined result. *)
Theorem X19_name_overflows_array size name exts e g1 g2 :
  text name -> text exts -> extension_of exts = Some e ->
  (size <= length (stem name) + length e + 1)%nat ->
  generated_filename (repeat NUL size) (name ++ NUL :: g1)
    (exts ++ NUL :: g2) = None.
Proof.
  intros Hn Hx He Hbig.
  rewrite (generated_filename_text size name exts e g1 g2 Hn Hx He).
  destruct (Nat.ltb_spec (length (stem name) + length e + 1) size);
    [lia|reflexivity].
Qed.

Lemma X19_witness :
  generated_filename (repeat NUL 8)
    (["c"; "a"; "m"; "."; "2"; "6"; "4"]%char ++ NUL :: [])
    (["m"; "a"; "t"; "r"]%char ++ NUL :: []) = None.
Proof.
  apply (X19_name_overflows_array 8
           ["c"; "a"; "m"; "."; "2"; "6"; "4"]%char
           ["m"; "a"; "t"; "r"]%char ["m"; "a"; "t"; "r"]%char [] []).
  - apply text_chars. reflexivity.
  - apply text_chars. reflexivity.
  - reflexivity.
  - vm_compute. lia.
Defined.
